(** * A-Sorting-Assignment: the sorting service, embedded and verified

    The development follows the Python sources module by module:

    - [Py]               the part of the Python runtime the sources call
                         (text, exceptions, [int], [float], [str], comparisons, [sorted]);
    - [sorting]          sorting.py: [sort_data], [sort_data_inplace], [is_sorted];
    - [io_handler]       io_handler.py: [parse_input], and the functions that read
                         the keyboard and the files and write the screen and the files;
    - [network_handler]  network_handler.py: the listening server, the connection
                         worker, the client and [create_sorting_handler];
    - [main]             main.py: the modes of the program and [main].

    Conventions.  A Python [str] is a [string]; its characters are read as
    the code points below U+0100, one [ascii] each, which fixes the tables
    of white space, of decimal digits and of printable characters used by
    [strip], [split], [int], [float] and [repr].  A Python [int] is a [Z], a Python [float] is a binary64
    value of [spec_float] (the Standard Library's IEEE 754 specification,
    with a single NaN).  A call that may raise returns an [outcome]; text
    written by [print] is collected in a list of lines.

    The file system, the keyboard and the network are the environment of
    the functions that use them: a function that reads or writes takes
    the files (their text by name, and what the system refuses), what is
    typed, or what the calls on a socket do, and returns what it printed
    and the files afterwards.  Text files are those of a POSIX system
    ([write] stores the text as it is, [read] gives every line end as a
    newline).

    Left out: the interleaving of the threads that [start_server] starts
    (a worker sees only the value of [is_running] it reads at each pass);
    [get_file_size] and [file_exists], which ask the system about
    directories and links that the files here do not have; the modules'
    own test functions and [run_test_server]; the [ImportError] branch at
    the top of main.py; and the interpreter's optional bound on the
    length of a decimal numeral given to [int]. *)

From Stdlib Require Import ZArith Bool Ascii String List Lia Sorted Permutation.
From Stdlib Require Import Floats.SpecFloat DecimalPos.
From stdpp Require Import base option list strings gmap.

Local Open Scope string_scope.
Local Open Scope list_scope.
Local Open Scope Z_scope.

(* ===================================================================== *)
(** * The Python runtime used by the sources                              *)
(* ===================================================================== *)

Module Py.

(** ** Text *)

(** [str.isspace] on one character (code points below U+0100). *)
Definition is_space (c : ascii) : bool :=
  let n := N_of_ascii c in
  ((9 <=? n) && (n <=? 13) || (28 <=? n) && (n <=? 32) || (n =? 133) || (n =? 160))%N.

(** Truth value of a [str]: the empty text is false. *)
Definition is_empty (s : string) : bool :=
  match s with EmptyString => true | String _ _ => false end.

(** [s.lstrip()], [s.rstrip()] and [s.strip()]. *)
Fixpoint lstrip (s : string) : string :=
  match s with
  | EmptyString => EmptyString
  | String c s' => if is_space c then lstrip s' else s
  end.

Fixpoint rstrip (s : string) : string :=
  match s with
  | EmptyString => EmptyString
  | String c s' =>
      let r := rstrip s' in
      if is_space c && is_empty r then EmptyString else String c r
  end.

Definition strip (s : string) : string := rstrip (lstrip s).

(** [s.split()]: the maximal runs of characters that are not white space. *)
Fixpoint split (s : string) : list string :=
  match s with
  | EmptyString => []
  | String c s' =>
      if is_space c then split s'
      else match s' with
           | EmptyString => [String c EmptyString]
           | String c' _ =>
               if is_space c' then String c EmptyString :: split s'
               else match split s' with
                    | t :: ts => String c t :: ts
                    | [] => [String c EmptyString]
                    end
           end
  end.

(** [sep.join(parts)]. *)
Fixpoint join (sep : string) (parts : list string) : string :=
  match parts with
  | [] => EmptyString
  | [p] => p
  | p :: ps => p +:+ sep +:+ join sep ps
  end.

(** [needle in hay]. *)
Fixpoint is_prefix (p s : string) : bool :=
  match p, s with
  | EmptyString, _ => true
  | String a p', String b s' => Ascii.eqb a b && is_prefix p' s'
  | String _ _, EmptyString => false
  end.

Fixpoint contains (hay needle : string) : bool :=
  is_prefix needle hay ||
  match hay with
  | EmptyString => false
  | String _ hay' => contains hay' needle
  end.

(** ASCII lower case, as the runtime uses it to recognise [inf] and [nan]. *)
Definition lower_char (c : ascii) : ascii :=
  let n := N_of_ascii c in
  if ((65 <=? n) && (n <=? 90))%N then ascii_of_N (n + 32) else c.

Fixpoint lower (s : string) : string :=
  match s with
  | EmptyString => EmptyString
  | String c s' => String (lower_char c) (lower s')
  end.

(** ** Exceptions and outcomes *)

(** The exception classes that the sources name or that their calls raise.
    [socket_timeout] is [socket.timeout]. *)
Inductive exn_class :=
  | BaseException | KeyboardInterrupt | SystemExit | Exception
  | TypeError | ValueError | UnicodeDecodeError | IndexError
  | OSError | ConnectionRefusedError | ConnectionResetError | socket_timeout.

Definition exn_class_eqb (a b : exn_class) : bool :=
  match a, b with
  | BaseException, BaseException | KeyboardInterrupt, KeyboardInterrupt
  | SystemExit, SystemExit | Exception, Exception | TypeError, TypeError
  | ValueError, ValueError | UnicodeDecodeError, UnicodeDecodeError
  | IndexError, IndexError | OSError, OSError
  | ConnectionRefusedError, ConnectionRefusedError
  | ConnectionResetError, ConnectionResetError
  | socket_timeout, socket_timeout => true
  | _, _ => false
  end.

(** The direct base class, as far as the [except] clauses of the sources
    can tell classes apart. *)
Definition base_class (c : exn_class) : option exn_class :=
  match c with
  | BaseException => None
  | KeyboardInterrupt | SystemExit | Exception => Some BaseException
  | TypeError | ValueError | IndexError | OSError => Some Exception
  | UnicodeDecodeError => Some ValueError
  | ConnectionRefusedError | ConnectionResetError | socket_timeout => Some OSError
  end.

Fixpoint subclass_upto (fuel : nat) (c d : exn_class) : bool :=
  exn_class_eqb c d ||
  match fuel, base_class c with
  | S fuel', Some b => subclass_upto fuel' b d
  | _, _ => false
  end.

(** [issubclass c d]: the class hierarchy above has depth four. *)
Definition issubclass (c d : exn_class) : bool := subclass_upto 4 c d.

(** A raised exception: its class and the text [str(e)] gives. *)
Record exn := mk_exn { class_of : exn_class; message : string }.

(** [except d:] catches [e]. *)
Definition catches (d : exn_class) (e : exn) : bool := issubclass (class_of e) d.

Inductive outcome (A : Type) :=
  | Return (a : A)
  | Raise (e : exn).
Arguments Return {A} a.
Arguments Raise {A} e.

Definition bind {A B} (m : outcome A) (k : A -> outcome B) : outcome B :=
  match m with
  | Return a => k a
  | Raise e => Raise e
  end.

Notation "'let*' x ':=' m 'in' k" := (bind m (fun x => k))
  (at level 10, x name, m at level 100, k at level 200).

(** ** Integers: [int(text)] and [str(n)] *)

Definition is_digit (c : ascii) : bool :=
  let n := N_of_ascii c in ((48 <=? n) && (n <=? 57))%N.

Definition digit_value (c : ascii) : Z := Z.of_N (N_of_ascii c) - 48.

(** The rest of a [digitpart ::= digit (["_"] digit)*] after a digit; the
    result is the value read so far and the number of digits. *)
Fixpoint digitpart_from (acc : Z) (n : nat) (s : string) : option (Z * nat) :=
  match s with
  | EmptyString => Some (acc, n)
  | String c s' =>
      if is_digit c then digitpart_from (10 * acc + digit_value c) (S n) s'
      else if Ascii.eqb c "_" then
        match s' with
        | String d s'' =>
            if is_digit d then digitpart_from (10 * acc + digit_value d) (S n) s''
            else None
        | EmptyString => None
        end
      else None
  end.

Definition digitpart (s : string) : option (Z * nat) :=
  match s with
  | String c s' => if is_digit c then digitpart_from (digit_value c) 1 s' else None
  | EmptyString => None
  end.

(** An optional sign in front of a literal: [true] for minus. *)
Definition signed (s : string) : bool * string :=
  match s with
  | String c r =>
      if Ascii.eqb c "-" then (true, r)
      else if Ascii.eqb c "+" then (false, r)
      else (false, s)
  | EmptyString => (false, s)
  end.

(** The white space that [int] and [float] allow around a numeral: the
    ASCII white space of C, and the two other white space characters
    below U+0100, which the interpreter reads as blanks.  [chr(28)] to
    [chr(31)], which [str.strip] takes away, are not among them. *)
Definition is_numeral_space (c : ascii) : bool :=
  let n := N_of_ascii c in
  ((9 <=? n) && (n <=? 13) || (n =? 32) || (n =? 133) || (n =? 160))%N.

Fixpoint numeral_lstrip (s : string) : string :=
  match s with
  | EmptyString => EmptyString
  | String c s' => if is_numeral_space c then numeral_lstrip s' else s
  end.

Fixpoint numeral_rstrip (s : string) : string :=
  match s with
  | EmptyString => EmptyString
  | String c s' =>
      let r := numeral_rstrip s' in
      if is_numeral_space c && is_empty r then EmptyString else String c r
  end.

Definition numeral_strip (s : string) : string := numeral_rstrip (numeral_lstrip s).

(** [repr(s)] of a [str], as the messages of [ValueError] quote the text
    that was refused: between single quotes, or between double quotes when
    the text holds a single quote and no double one; the quote in use and
    the backslash after a backslash, tab, newline and return by their
    letter, every other character that [str.isprintable] refuses by its
    two hexadecimal digits. *)
Definition is_printable (c : ascii) : bool :=
  let n := N_of_ascii c in
  ((32 <=? n) && (n <=? 126) || (161 <=? n) && negb (n =? 173))%N.

Definition hex_digit (n : N) : ascii :=
  ascii_of_N (if (n <? 10)%N then 48 + n else 87 + n).

Definition double_quote : ascii := ascii_of_N 34.
Definition backslash : ascii := ascii_of_N 92.

Fixpoint has_char (c : ascii) (s : string) : bool :=
  match s with
  | EmptyString => false
  | String d s' => Ascii.eqb c d || has_char c s'
  end.

Definition repr_char (quote c : ascii) : string :=
  let escaped (t : string) := String backslash t in
  if Ascii.eqb c quote || Ascii.eqb c backslash then escaped (String c EmptyString)
  else
    match N_of_ascii c with
    | 9%N => escaped "t"
    | 10%N => escaped "n"
    | 13%N => escaped "r"
    | n =>
        if is_printable c then String c EmptyString
        else escaped (String "x"
               (String (hex_digit (n / 16)) (String (hex_digit (n mod 16)) EmptyString)))
    end.

Fixpoint repr_chars (quote : ascii) (s : string) : string :=
  match s with
  | EmptyString => EmptyString
  | String c s' => repr_char quote c +:+ repr_chars quote s'
  end.

Definition repr (s : string) : string :=
  let quote :=
    if has_char "'" s && negb (has_char double_quote s) then double_quote else "'"%char in
  String quote (repr_chars quote s +:+ String quote EmptyString).

(** [int(s)] in base ten; a literal that is not one raises [ValueError],
    whose message quotes the first 200 characters of [repr(s)]. *)
Definition py_int (s : string) : outcome Z :=
  let (neg, r) := signed (numeral_strip s) in
  match digitpart r with
  | Some (v, _) => Return (if neg then - v else v)
  | None =>
      Raise (mk_exn ValueError
               ("invalid literal for int() with base 10: " +:+ substring 0 200 (repr s)))
  end.

Fixpoint string_of_uint (u : Decimal.uint) : string :=
  match u with
  | Decimal.Nil => EmptyString
  | Decimal.D0 u => String "0" (string_of_uint u)
  | Decimal.D1 u => String "1" (string_of_uint u)
  | Decimal.D2 u => String "2" (string_of_uint u)
  | Decimal.D3 u => String "3" (string_of_uint u)
  | Decimal.D4 u => String "4" (string_of_uint u)
  | Decimal.D5 u => String "5" (string_of_uint u)
  | Decimal.D6 u => String "6" (string_of_uint u)
  | Decimal.D7 u => String "7" (string_of_uint u)
  | Decimal.D8 u => String "8" (string_of_uint u)
  | Decimal.D9 u => String "9" (string_of_uint u)
  end.

(** [str(n)] for an [int]. *)
Definition str_of_int (n : Z) : string :=
  match Z.to_int n with
  | Decimal.Pos u => string_of_uint u
  | Decimal.Neg u => String "-" (string_of_uint u)
  end.

(** ** Floats: [float(text)] and [str(x)] *)

(** binary64: a finite float is [m * 2^e] with [m] below [2^53] and [e]
    from [-1074] to [971], that is a whole number of units of [2^-1074]. *)

(** [q] or [q + 1], whichever is nearer to [q + r / b]; the even one when
    both are as near. *)
Definition half_even (q r b : Z) : Z :=
  match 2 * r ?= b with
  | Lt => q
  | Gt => q + 1
  | Eq => if Z.even q then q else q + 1
  end.

(** The exponent, counted from [-1074], of the floats around [a / d]
    units. *)
Definition binade (a d : Z) : Z := Z.max 0 (Z.log2 (a / d) - 52).

(** The float [m * 2^(es - 1074)]: a mantissa that reached [2^53] moves
    to the next exponent, and an exponent above [971] is an infinity. *)
Definition pack (neg : bool) (m es : Z) : spec_float :=
  let (m, es) := if m =? 2 ^ 53 then (2 ^ 52, es + 1) else (m, es) in
  if m =? 0 then S754_zero neg
  else if 2045 <? es then S754_infinity neg
  else S754_finite neg (Z.to_pos m) (es - 1074).

(** The float nearest to [a / d] units of [2^-1074] (ties to even), with
    sign [neg]. *)
Definition round_units (neg : bool) (a d : Z) : spec_float :=
  let es := binade a d in
  let b := d * 2 ^ es in
  pack neg (half_even (a / b) (a mod b) b) es.

(** The float nearest to [m * 10^e] (ties to even), with sign [neg]: the
    conversion of a decimal numeral is correctly rounded. *)
Definition decimal_to_float (neg : bool) (m e : Z) : spec_float :=
  match m with
  | Z0 => S754_zero neg
  | Zpos _ =>
      if 0 <=? e then round_units neg (m * 10 ^ e * 2 ^ 1074) 1
      else round_units neg (m * 2 ^ 1074) (10 ^ (- e))
  | Zneg _ => S754_nan
  end.

(** The text before the first character that satisfies [p], and the text
    after it when there is one. *)
Fixpoint split_at (p : ascii -> bool) (s : string) : string * option string :=
  match s with
  | EmptyString => (EmptyString, None)
  | String c s' =>
      if p c then (EmptyString, Some s')
      else let (a, b) := split_at p s' in (String c a, b)
  end.

(** An optional [digitpart]: the empty text counts for no digit. *)
Definition opt_digitpart (s : string) : option (Z * nat) :=
  if is_empty s then Some (0, 0%nat) else digitpart s.

Definition is_exponent_mark (c : ascii) : bool := Ascii.eqb c "e" || Ascii.eqb c "E".
Definition is_point (c : ascii) : bool := Ascii.eqb c ".".

(** The exponent after its mark: [[sign] digitpart]. *)
Definition exponent_value (x : option string) : option Z :=
  match x with
  | None => Some 0
  | Some t =>
      let (neg, r) := signed t in
      match digitpart r with
      | Some (v, _) => Some (if neg then - v else v)
      | None => None
      end
  end.

(** [float(s)]:
    [[sign] ("inf" | "infinity" | "nan")], in any case, or
    [[sign] ([digitpart] "." digitpart | digitpart ["."]) [("e" | "E") [sign] digitpart]];
    anything else raises [ValueError]. *)
Definition py_float (s : string) : outcome spec_float :=
  let (neg, r) := signed (numeral_strip s) in
  let lr := lower r in
  if String.eqb lr "inf" || String.eqb lr "infinity" then Return (S754_infinity neg)
  else if String.eqb lr "nan" then Return S754_nan
  else
    let (mant, ex) := split_at is_exponent_mark r in
    let (ip, fp) := split_at is_point mant in
    match opt_digitpart ip,
          opt_digitpart (match fp with Some f => f | None => EmptyString end),
          exponent_value ex with
    | Some (iv, ni), Some (fv, nf), Some ev =>
        if Nat.eqb (ni + nf) 0
        then Raise (mk_exn ValueError ("could not convert string to float: " +:+ repr s))
        else Return (decimal_to_float neg (iv * 10 ^ Z.of_nat nf + fv) (ev - Z.of_nat nf))
    | _, _, _ =>
        Raise (mk_exn ValueError ("could not convert string to float: " +:+ repr s))
    end.

(** Equality of representations (not [==]: it tells [0.0] from [-0.0]). *)
Definition float_same (x y : spec_float) : bool :=
  match x, y with
  | S754_zero a, S754_zero b => Bool.eqb a b
  | S754_infinity a, S754_infinity b => Bool.eqb a b
  | S754_nan, S754_nan => true
  | S754_finite a m e, S754_finite b n f => Bool.eqb a b && Pos.eqb m n && Z.eqb e f
  | _, _ => false
  end.

(** Number of decimal digits of a positive integer. *)
Fixpoint ndigits_upto (fuel : nat) (n : Z) : Z :=
  match fuel with
  | O => 1
  | S fuel' => if n <? 10 then 1 else 1 + ndigits_upto fuel' (n / 10)
  end.

Definition ndigits (n : Z) : Z := ndigits_upto (Z.to_nat (Z.log2 n)) n.

(** [drop_zeros fuel d k]: [d * 10^k] with the trailing zeros of [d] moved
    into the exponent. *)
Fixpoint drop_zeros (fuel : nat) (d k : Z) : Z * Z :=
  match fuel with
  | O => (d, k)
  | S fuel' => if (d mod 10 =? 0) && negb (d =? 0) then drop_zeros fuel' (d / 10) (k + 1) else (d, k)
  end.

Section ShortestDigits.
(** The positive finite float [m * 2^e]. *)
Variables (m : positive) (e : Z).

(** [m * 2^e] in units of [2^-1074]. *)
Definition units : Z := Zpos m * 2 ^ (e + 1074).

(** The decimal exponent of the leading digit: [10^p <= m * 2^e < 10^(p+1)]. *)
Definition leading_exponent : Z := ndigits (units * 10 ^ 324 / 2 ^ 1074) - 325.

(** The candidates with [n] significant digits: the quotient [lo] of
    [m * 2^e] by [10^k], its remainder over its divisor, and [k]. *)
Definition candidate (n : Z) : Z * Z * Z * Z :=
  let k := leading_exponent - n + 1 in
  let a := if 0 <=? k then units else units * 10 ^ (- k) in
  let b := if 0 <=? k then 2 ^ 1074 * 10 ^ k else 2 ^ 1074 in
  (a / b, a mod b, b, k).

Definition reads_back (d k : Z) : bool :=
  float_same (decimal_to_float false d k) (S754_finite false m e).

(** The shortest digit string that reads back as the float and, among
    those, the nearest to it; seventeen digits always suffice. *)
Fixpoint shortest (fuel : nat) (n : Z) : Z * Z :=
  let '(lo, r, b, k) := candidate n in
  match fuel with
  | O => (half_even lo r b, k)
  | S fuel' =>
      match reads_back lo k, reads_back (lo + 1) k with
      | true, true => (half_even lo r b, k)
      | true, false => (lo, k)
      | false, true => (lo + 1, k)
      | false, false => shortest fuel' (n + 1)
      end
  end.

Definition shortest_digits : Z * Z :=
  let (d, k) := shortest 16 1 in drop_zeros 17 d k.
End ShortestDigits.

Fixpoint zeros (n : nat) : string :=
  match n with O => EmptyString | S n' => String "0" (zeros n') end.

(** The layout [repr] gives to the digits [ds] with the decimal point
    after [decpt] of them: positional when [-4 < decpt <= 16], with at
    least one digit after the point; otherwise with an exponent of at
    least two digits. *)
Definition layout (ds : string) (decpt : Z) : string :=
  let n := Z.of_nat (String.length ds) in
  if (-4 <? decpt) && (decpt <=? 16) then
    if decpt <=? 0 then "0." +:+ zeros (Z.to_nat (- decpt)) +:+ ds
    else if n <=? decpt then ds +:+ zeros (Z.to_nat (decpt - n)) +:+ ".0"
    else substring 0 (Z.to_nat decpt) ds +:+ "."
         +:+ substring (Z.to_nat decpt) (Z.to_nat (n - decpt)) ds
  else
    let x := decpt - 1 in
    let xs := str_of_int (Z.abs x) in
    substring 0 1 ds
    +:+ (if 1 <? n then "." +:+ substring 1 (Z.to_nat (n - 1)) ds else EmptyString)
    +:+ "e" +:+ (if x <? 0 then "-" else "+")
    +:+ (if Z.abs x <? 10 then "0" +:+ xs else xs).

(** [str(x)] (and [repr(x)]) for a [float]. *)
Definition str_of_float (x : spec_float) : string :=
  match x with
  | S754_nan => "nan"
  | S754_infinity neg => if neg then "-inf" else "inf"
  | S754_zero neg => if neg then "-0.0" else "0.0"
  | S754_finite neg m e =>
      let (d, k) := shortest_digits m e in
      let ds := str_of_int d in
      (if neg then "-" else EmptyString)
      +:+ layout ds (Z.of_nat (String.length ds) + k)
  end.

(** ** Values and their ordering *)

(** What [parse_input] puts in a list: an [int], a [float] or a [str]. *)
Inductive Value :=
  | VInt (n : Z)
  | VFloat (x : spec_float)
  | VStr (s : string).

Definition type_name (v : Value) : string :=
  match v with
  | VInt _ => "int"
  | VFloat _ => "float"
  | VStr _ => "str"
  end.

(** [str(v)]. *)
Definition str (v : Value) : string :=
  match v with
  | VInt n => str_of_int n
  | VFloat x => str_of_float x
  | VStr s => s
  end.

(** An [int] against a [float]: the runtime compares the exact values.
    [None]: unordered (NaN). *)
Definition int_float_compare (n : Z) (x : spec_float) : option comparison :=
  match x with
  | S754_nan => None
  | S754_infinity neg => Some (if neg then Gt else Lt)
  | S754_zero _ => Some (n ?= 0)
  | S754_finite neg m e =>
      let v := if neg then Zneg m else Zpos m in
      Some (if 0 <=? e then n ?= v * 2 ^ e else n * 2 ^ (- e) ?= v)
  end.

Definition opp_comparison (c : option comparison) : option comparison :=
  match c with
  | Some c => Some (CompOpp c)
  | None => None
  end.

(** Three-way comparison where the runtime defines an order:
    [None] when the two types do not compare ([str] against a number),
    [Some None] when they do but the values are unordered (NaN). *)
Definition three_way (a b : Value) : option (option comparison) :=
  match a, b with
  | VInt n, VInt k => Some (Some (n ?= k))
  | VInt n, VFloat y => Some (int_float_compare n y)
  | VFloat x, VInt k => Some (opp_comparison (int_float_compare k x))
  | VFloat x, VFloat y => Some (SFcompare x y)
  | VStr s, VStr t => Some (Some (String.compare s t))
  | _, _ => None
  end.

Inductive rel_op := op_lt | op_le | op_ge.

Definition op_symbol (o : rel_op) : string :=
  match o with op_lt => "<" | op_le => "<=" | op_ge => ">=" end.

Definition holds (o : rel_op) (c : option comparison) : bool :=
  match o, c with
  | op_lt, Some Lt => true
  | op_le, Some (Lt | Eq) => true
  | op_ge, Some (Gt | Eq) => true
  | _, _ => false
  end.

(** [a < b], [a <= b], [a >= b]; comparing a [str] with a number raises
    [TypeError]. *)
Definition rich_compare (o : rel_op) (a b : Value) : outcome bool :=
  match three_way a b with
  | Some c => Return (holds o c)
  | None =>
      Raise (mk_exn TypeError
               ("'" +:+ op_symbol o +:+ "' not supported between instances of '"
                +:+ type_name a +:+ "' and '" +:+ type_name b +:+ "'"))
  end.

Definition value_lt : Value -> Value -> outcome bool := rich_compare op_lt.
Definition value_le : Value -> Value -> outcome bool := rich_compare op_le.
Definition value_ge : Value -> Value -> outcome bool := rich_compare op_ge.

(** ** [sorted] *)

(** [sorted] is a stable sort that asks only [<] of its elements and lets
    an exception of [<] through.  It is modelled by insertion, each
    element going before the first one not smaller than it.  Where [<] is
    a strict weak order (no NaN) every stable sort returns this list.
    Where it is not, the result depends on the comparisons made: of a
    list that holds NaN, insertion returns a permutation that need not be
    the interpreter's, and the statements read no order off it; with
    mixed types, which pair the [TypeError] names is that of the
    insertions. *)
Fixpoint insert (x : Value) (l : list Value) : outcome (list Value) :=
  match l with
  | [] => Return [x]
  | y :: l' =>
      let* b := value_lt y x in
      if b then let* r := insert x l' in Return (y :: r)
      else Return (x :: y :: l')
  end.

Fixpoint insertion_sort (l : list Value) : outcome (list Value) :=
  match l with
  | [] => Return []
  | x :: l' => let* r := insertion_sort l' in insert x r
  end.

(** [sorted(data, reverse=reverse)] returns a new list; with [reverse] the
    list is reversed before and after, which keeps equal elements in
    their original order. *)
Definition py_sorted (data : list Value) (reverse : bool) : outcome (list Value) :=
  if reverse then let* r := insertion_sort (rev data) in Return (rev r)
  else insertion_sort data.

(** [all(gen)]: stops at the first false element, or at the first one
    whose evaluation raises. *)
Fixpoint py_all (gen : list (outcome bool)) : outcome bool :=
  match gen with
  | [] => Return true
  | x :: gen' => let* b := x in if b then py_all gen' else Return false
  end.

(** [data[i]] *)
Definition getitem (data : list Value) (i : nat) : outcome Value :=
  match data !! i with
  | Some v => Return v
  | None => Raise (mk_exn IndexError "list index out of range")
  end.

(** ** More of [str] *)

(** [s.lower()] on the code points below U+0100: the letters A to Z and
    the capital letters of Latin-1 (U+00C0 to U+00DE, the sign U+00D7
    apart) go to their small forms. *)
Definition str_lower_char (c : ascii) : ascii :=
  let n := N_of_ascii c in
  if ((65 <=? n) && (n <=? 90) || (192 <=? n) && (n <=? 222) && negb (n =? 215))%N
  then ascii_of_N (n + 32) else c.

Fixpoint str_lower (s : string) : string :=
  match s with
  | EmptyString => EmptyString
  | String c s' => String (str_lower_char c) (str_lower s')
  end.

(** [s * n] *)
Fixpoint repeat_text (s : string) (n : nat) : string :=
  match n with
  | O => EmptyString
  | S n' => s +:+ repeat_text s n'
  end.

End Py.

(* ===================================================================== *)
(** * sorting.py                                                          *)
(* ===================================================================== *)

Module sorting.
Import Py.

(** [print]ed lines. *)
Definition stdout := list string.

(** [sort_data(data, reverse=False)]: the printed lines and the result. *)
Definition sort_data (data : list Value) (reverse : bool) : stdout * outcome (list Value) :=
  match data with
  | [] => ([], Return [])
  | _ :: _ =>
      match py_sorted data reverse with
      | Return r => ([], Return r)
      | Raise e =>
          if catches TypeError e
          then (["Warning: Unable to sort mixed incompatible types: " +:+ message e],
                Return data)
          else ([], Raise e)
      end
  end.

(** [is_sorted(data, reverse=False)] *)
Definition is_sorted (data : list Value) (reverse : bool) : outcome bool :=
  if (length data <=? 1)%nat then Return true
  else
    py_all (map (fun i =>
                   let* a := getitem data i in
                   let* b := getitem data (i + 1) in
                   if reverse then value_ge a b else value_le a b)
                (seq 0 (length data - 1))).

(** ** The list objects behind [sort_data]

    A list is an object: [sorted] builds a new one, [return data] hands
    back the caller's.  The heap maps the identity of each list object to
    its contents. *)
Abbreviation loc := positive.
Abbreviation heap := (gmap positive (list Value)).

(** A new list object with contents [l]. *)
Definition alloc (l : list Value) (h : heap) : loc * heap :=
  let r := fresh (dom h) in (r, <[r := l]> h).

Record returned := mk_returned { printed : stdout; result : loc; heap_after : heap }.

(** [sort_data] on list objects; [None] when [data] names no object, or
    when an exception other than [TypeError] leaves the function. *)
Definition sort_data_obj (h : heap) (data : loc) (reverse : bool) : option returned :=
  match h !! data with
  | None => None
  | Some [] => let (r, h') := alloc [] h in Some (mk_returned [] r h')
  | Some xs =>
      match py_sorted xs reverse with
      | Return ys => let (r, h') := alloc ys h in Some (mk_returned [] r h')
      | Raise e =>
          if catches TypeError e
          then Some (mk_returned
                       ["Warning: Unable to sort mixed incompatible types: " +:+ message e]
                       data h)
          else None
      end
  end.

(** [sort_data_inplace(data, reverse=False)] on list objects.  [data.sort]
    writes the sorted elements into the object itself.  When a comparison
    raises, the elements stay in the object in an order that the sort
    leaves open, here [leftover xs].  The result is the printed lines and
    the heap; [None] when [data] names no object, or when an exception
    other than [TypeError] leaves the function. *)
Definition sort_data_inplace (leftover : list Value -> list Value) (h : heap)
    (data : loc) (reverse : bool) : option (stdout * heap) :=
  match h !! data with
  | None => None
  | Some [] => Some ([], h)
  | Some xs =>
      match py_sorted xs reverse with
      | Return ys => Some ([], <[data := ys]> h)
      | Raise e =>
          if catches TypeError e
          then Some (["Warning: Unable to sort mixed incompatible types: " +:+ message e],
                     <[data := leftover xs]> h)
          else None
      end
  end.

End sorting.

(* ===================================================================== *)
(** * io_handler.py                                                       *)
(* ===================================================================== *)

Module io_handler.
Import Py.

(** The body of the loop of [parse_input]: [int] first, [float] next, else
    the text itself. *)
Definition parse_item (item : string) : outcome Value :=
  match py_int item with
  | Return n => Return (VInt n)
  | Raise e =>
      if catches ValueError e then
        match py_float item with
        | Return x => Return (VFloat x)
        | Raise e' =>
            if catches ValueError e' then Return (VStr item) else Raise e'
        end
      else Raise e
  end.

(** [for item in items: ... data.append(...)] *)
Fixpoint parse_items (items : list string) (data : list Value) : outcome (list Value) :=
  match items with
  | [] => Return data
  | item :: items' =>
      let* v := parse_item item in parse_items items' (data ++ [v])
  end.

(** [parse_input(input_str)] *)
Definition parse_input (input_str : string) : outcome (list Value) :=
  if is_empty input_str || is_empty (strip input_str) then Return []
  else parse_items (split input_str) [].

(** ** Files, the screen and the keyboard *)

(** [print]ed lines. *)
Definition stdout := list string.

(** A newline. *)
Definition newline : string := String (ascii_of_nat 10) EmptyString.

(** What opening, reading or writing a file raises: the two classes that
    the [except] clauses name, with the text of the error, or an
    exception of another class. *)
Inductive file_error :=
  | FileNotFoundError (msg : string)
  | PermissionError (msg : string)
  | OtherError (e : exn).

(** The text files: their contents by name, and the names that the
    system refuses to open for reading or for writing. *)
Record filesystem := mk_filesystem {
  files : gmap string string;
  refuses_read : string -> option file_error;
  refuses_write : string -> option file_error
}.

(** Reading in text mode gives every line end as a newline: a carriage
    return, followed by a newline or not, is read as one newline. *)
Fixpoint universal_newlines (s : string) : string :=
  match s with
  | EmptyString => EmptyString
  | String c s' =>
      if Ascii.eqb c (ascii_of_nat 13) then
        match s' with
        | String c' s'' =>
            if Ascii.eqb c' (ascii_of_nat 10) then String c' (universal_newlines s'')
            else String (ascii_of_nat 10) (universal_newlines s')
        | EmptyString => String (ascii_of_nat 10) EmptyString
        end
      else String c (universal_newlines s')
  end.

(** [open(filename, 'r', encoding='utf-8')] and [file.read()]: the text
    of the file, or what is raised.  The text of the error for a missing
    file is the system's; no caller prints it. *)
Definition read_text (fs : filesystem) (filename : string) : file_error + string :=
  match refuses_read fs filename with
  | Some err => inl err
  | None =>
      match files fs !! filename with
      | Some text => inr (universal_newlines text)
      | None =>
          inl (FileNotFoundError
                 ("[Errno 2] No such file or directory: '" +:+ filename +:+ "'"))
      end
  end.

(** [open(filename, 'w', encoding='utf-8')], [file.write(text)] and the
    close at the end of [with]: the file is created or replaced, unless
    the system refuses to open it, which leaves the files as they were. *)
Definition write_text (fs : filesystem) (filename text : string)
    : option file_error * filesystem :=
  match refuses_write fs filename with
  | Some err => (Some err, fs)
  | None =>
      (None, mk_filesystem (<[filename := text]> (files fs))
                           (refuses_read fs) (refuses_write fs))
  end.

(** [read_file_input(filename)]: the printed lines and the result. *)
Definition read_file_input (fs : filesystem) (filename : string)
    : stdout * outcome (list Value) :=
  let other (e : exn) : stdout * outcome (list Value) :=
    if catches Exception e
    then (["Error reading file '" +:+ filename +:+ "': " +:+ message e], Return [])
    else ([], Raise e) in
  match read_text fs filename with
  | inr text =>
      let content := strip text in
      if is_empty content
      then (["Warning: File '" +:+ filename +:+ "' is empty."], Return [])
      else
        match parse_input content with
        | Return data => ([], Return data)
        | Raise e => other e
        end
  | inl (FileNotFoundError _) =>
      (["Error: File '" +:+ filename +:+ "' not found."], Return [])
  | inl (PermissionError _) =>
      (["Error: Permission denied reading '" +:+ filename +:+ "'."], Return [])
  | inl (OtherError e) => other e
  end.

(** [write_screen_output(data, label="Result")] *)
Definition write_screen_output (data : list Value) (label : string) : stdout :=
  match data with
  | [] => [label +:+ ": (empty)"]
  | _ :: _ => [label +:+ ": " +:+ join " " (map str data)]
  end.

(** [write_file_output(data, filename)]: the printed lines, the result
    and the files afterwards. *)
Definition write_file_output (fs : filesystem) (data : list Value) (filename : string)
    : stdout * outcome bool * filesystem :=
  let text :=
    match data with
    | [] => "(empty)" +:+ newline
    | _ :: _ => join " " (map str data) +:+ newline
    end in
  match write_text fs filename text with
  | (None, fs') => (["Output written to '" +:+ filename +:+ "'"], Return true, fs')
  | (Some (PermissionError _), fs') =>
      (["Error: Permission denied writing to '" +:+ filename +:+ "'."], Return false, fs')
  | (Some (FileNotFoundError msg), fs') =>
      (["Error writing to file '" +:+ filename +:+ "': " +:+ msg], Return false, fs')
  | (Some (OtherError e), fs') =>
      if catches Exception e
      then (["Error writing to file '" +:+ filename +:+ "': " +:+ message e],
            Return false, fs')
      else ([], Raise e, fs')
  end.

(** What [input] gives: the line typed, without its newline, the end of
    the input, or another exception ([KeyboardInterrupt] among them). *)
Inductive input_result :=
  | Line (text : string)
  | EOFError
  | InputRaises (e : exn).

(** What goes to the terminal: the text of a [print], or the prompt of
    an [input]. *)
Inductive console :=
  | Say (line : string)
  | Ask (prompt : string).

(** [read_keyboard_input()], [typed] being what [input] gives. *)
Definition read_keyboard_input (typed : input_result)
    : list console * outcome (list Value) :=
  let start := [Say "Enter items separated by spaces (or 'q' to quit):"; Ask ">>> "] in
  let cancelled : list console * outcome (list Value) :=
    (start ++ [Say (newline +:+ "Input cancelled.")], Return []) in
  let raised (e : exn) : list console * outcome (list Value) :=
    if catches KeyboardInterrupt e then cancelled else (start, Raise e) in
  match typed with
  | Line text =>
      let user_input := strip text in
      if String.eqb (str_lower user_input) "q" then (start, Return [])
      else
        match parse_input user_input with
        | Return data => (start, Return data)
        | Raise e => raised e
        end
  | EOFError => cancelled
  | InputRaises e => raised e
  end.

End io_handler.

(* ===================================================================== *)
(** * network_handler.py                                                  *)
(* ===================================================================== *)

Module network_handler.
Import Py.

Definition stdout := list string.

(** A newline. *)
Definition nl : string := String (ascii_of_nat 10) EmptyString.

(** A handler as the server calls it: the lines it prints and what it
    returns or raises. *)
Definition handler := string -> stdout * outcome string.

(** What a run does to the outside, in order. *)
Inductive event :=
  | Printed (line : string)
  | SocketOpen
  | SetTimeout (seconds : Z)
  | Connect (host : string) (port : Z)
  | ConnectEx (host : string) (port : Z)
  | Send (text : string)
  | Recv (bufsize : Z)
  | Close
  | Handle (request : string).

(** A run: its events and its outcome. *)
Definition io (A : Type) : Type := list event * outcome A.

Definition io_bind {A B} (m : io A) (k : A -> io B) : io B :=
  match m with
  | (ev, Return a) => let (ev', r) := k a in (ev ++ ev', r)
  | (ev, Raise e) => (ev, Raise e)
  end.

Notation "x <- m ;; k" := (io_bind m (fun x => k))
  (at level 100, m at next level, right associativity).

(** A call that the environment lets succeed or makes raise. *)
Definition call (ev : event) (fails : option exn) : io unit :=
  ([ev], match fails with Some e => Raise e | None => Return tt end).

(** ** The server side *)

Record NetworkServer := mk_server {
  host : string;
  port : Z;
  is_running : bool;
  client_handler : option handler
}.

Definition NetworkServer_init (host : string) (port : Z) : NetworkServer :=
  mk_server host port false None.

Definition set_client_handler (self : NetworkServer) (h : handler) : NetworkServer :=
  mk_server (host self) (port self) (is_running self) (Some h).

(** One pass of the worker's loop as the environment shapes it: the value
    of [self.is_running] read at the top, what
    [client_socket.recv(1024).decode('utf-8')] gives, and whether
    [client_socket.send] raises. *)
Record exchange := mk_exchange {
  running : bool;
  received : outcome string;
  send_fails : option exn
}.

(** How the loop is left: normally ([break], or the flag read false), by an
    exception, or not yet (the worker waits in [recv] for an exchange
    beyond those given). *)
Inductive loop_end :=
  | Left
  | Raised (e : exn)
  | Waiting.

(** [response = self.client_handler(data)] or the echo. *)
Definition respond (client_handler : option handler) (data : string) : io string :=
  match client_handler with
  | Some h => let (out, r) := h data in (Handle data :: map Printed out, r)
  | None => ([], Return ("Echo: " +:+ data))
  end.

(** The [while self.is_running:] loop of [handle_client_connection]. *)
Fixpoint serve (client_handler : option handler) (address : string)
    (script : list exchange) : list event * loop_end :=
  match script with
  | [] => ([], Waiting)
  | x :: script' =>
      if negb (running x) then ([], Left)
      else
        match received x with
        | Raise e => ([Recv 1024], Raised e)
        | Return raw =>
            let data := strip raw in
            if is_empty data then ([Recv 1024], Left)
            else
              let this :=
                _ <- ([Recv 1024; Printed ("Received from " +:+ address +:+ ": " +:+ data)],
                      Return tt) ;;
                response <- respond client_handler data ;;
                call (Send (response +:+ nl)) (send_fails x) in
              match this with
              | (ev, Raise e) => (ev, Raised e)
              | (ev, Return _) =>
                  let (ev', e) := serve client_handler address script' in (ev ++ ev', e)
              end
        end
  end.

(** [handle_client_connection(client_socket, address)]: [address] is the
    text the f-strings give for the peer's address, [close_fails] what
    [client_socket.close()] does.  The outcome is [None] while the worker
    is still waiting for data. *)
Definition handle_client_connection (self : NetworkServer) (address : string)
    (script : list exchange) (close_fails : option exn) : list event * option (outcome unit) :=
  let (ev, e) := serve (client_handler self) address script in
  let start := Printed ("Connection established with " +:+ address) :: ev in
  let finally (after : list event) (r : outcome unit) :=
    match close_fails with
    | Some c => (start ++ after ++ [Close], Some (Raise c))
    | None =>
        (start ++ after ++ [Close; Printed ("Connection with " +:+ address +:+ " closed")],
         Some r)
    end in
  match e with
  | Waiting => (start, None)
  | Left => finally [] (Return tt)
  | Raised e =>
      if catches ConnectionResetError e
      then finally [Printed ("Client " +:+ address +:+ " disconnected unexpectedly")] (Return tt)
      else if catches Exception e
      then finally [Printed ("Error handling client " +:+ address +:+ ": " +:+ message e)]
                   (Return tt)
      else finally [] (Raise e)
  end.

(** ** The client side *)

Record NetworkClient := mk_client {
  client_host : string;
  client_port : Z
}.

(** What the environment does to the calls of one client method. *)
Record network := mk_network {
  socket_fails : option exn;
  connect_fails : option exn;
  connect_ex_returns : outcome Z;
  client_send_fails : option exn;
  client_received : outcome string;
  close_fails : option exn
}.

(** [client_socket.settimeout(t)]: a negative value raises [ValueError]. *)
Definition settimeout (t : Z) : io unit :=
  call (SetTimeout t)
       (if t <? 0 then Some (mk_exn ValueError "Timeout value out of range") else None).

(** [send_data(data, timeout=5)] *)
Definition send_data (self : NetworkClient) (data : string) (timeout : Z)
    (net : network) : io string :=
  let body :=
    _ <- call SocketOpen (socket_fails net) ;;
    _ <- settimeout timeout ;;
    _ <- call (Connect (client_host self) (client_port self)) (connect_fails net) ;;
    _ <- call (Send data) (client_send_fails net) ;;
    raw <- ([Recv 1024], client_received net) ;;
    let response := strip raw in
    _ <- call Close (close_fails net) ;;
    ([], Return response) in
  match body with
  | (ev, Return response) => (ev, Return response)
  | (ev, Raise e) =>
      if catches ConnectionRefusedError e then
        (ev, Return ("Error: Cannot connect to server at " +:+ client_host self
                     +:+ ":" +:+ str_of_int (client_port self)))
      else if catches socket_timeout e then
        (ev, Return ("Error: Connection timeout after " +:+ str_of_int timeout +:+ " seconds"))
      else if catches Exception e then
        (ev, Return ("Error: " +:+ message e))
      else (ev, Raise e)
  end.

(** [test_connection()] *)
Definition test_connection (self : NetworkClient) (net : network) : io bool :=
  let body :=
    _ <- call SocketOpen (socket_fails net) ;;
    _ <- settimeout 2 ;;
    result <- ([ConnectEx (client_host self) (client_port self)], connect_ex_returns net) ;;
    _ <- call Close (close_fails net) ;;
    ([], Return (result =? 0)) in
  match body with
  | (ev, Return b) => (ev, Return b)
  | (ev, Raise e) => if catches Exception e then (ev, Return false) else (ev, Raise e)
  end.

(** ** The sorting handler *)

(** [create_sorting_handler(sort_function, parse_function)] *)
Definition create_sorting_handler
    (sort_function : list Value -> stdout * outcome (list Value))
    (parse_function : string -> stdout * outcome (list Value)) : handler :=
  fun input_data =>
    let recover (out : stdout) (e : exn) : stdout * outcome string :=
      if catches Exception e
      then (out, Return ("Error processing data: " +:+ message e))
      else (out, Raise e) in
    match parse_function input_data with
    | (out, Raise e) => recover out e
    | (out, Return data) =>
        match data with
        | [] => (out, Return "Error: No valid data to sort")
        | _ :: _ =>
            match sort_function data with
            | (out', Raise e) => recover (out ++ out') e
            | (out', Return sorted_data) =>
                (out ++ out', Return (join " " (map str sorted_data)))
            end
        end
    end.

(** ** The listening side *)

(** What the listening side does to the outside besides the events of a
    connection. *)
Inductive server_event :=
  | Did (ev : event)
  | SetSockOpt
  | Bind (host : string) (port : Z)
  | Listen (backlog : Z)
  | Accept
  | StartThread (address : string).

(** One pass of the loop of [start_server] as the environment shapes it:
    the value of [self.is_running] read at the top, what [accept] gives
    (the peer's address, as the f-strings write it, or an exception), and
    whether starting the thread raises. *)
Record accept_step := mk_accept_step {
  still_running : bool;
  accepted : outcome string;
  thread_fails : option exn
}.

(** What the environment does to the calls of [start_server]. *)
Record listening := mk_listening {
  listen_socket_fails : option exn;
  setsockopt_fails : option exn;
  bind_fails : option exn;
  listen_fails : option exn;
  accepts : list accept_step;
  listen_close_fails : option exn
}.

(** The server object with the field the claims' record leaves out:
    whether [self.server_socket] holds a socket. *)
Record server_state := mk_server_state {
  server : NetworkServer;
  has_socket : bool
}.

Definition set_running (self : NetworkServer) (b : bool) : NetworkServer :=
  mk_server (host self) (port self) b (client_handler self).

(** [stop_server()]: a socket object is true, closed or not. *)
Definition stop_server (self : server_state) (close_fails : option exn)
    : list server_event * outcome unit * server_state :=
  let self' := mk_server_state (set_running (server self) false) (has_socket self) in
  if has_socket self then
    match close_fails with
    | Some e => ([Did Close], Raise e, self')
    | None => ([Did Close; Did (Printed "Server stopped")], Return tt, self')
    end
  else ([], Return tt, self').

(** The [while self.is_running:] loop of [start_server]; [None]: the
    server waits in [accept] for a connection beyond those given. *)
Fixpoint accept_loop (script : list accept_step) : list server_event * option (outcome unit) :=
  match script with
  | [] => ([], None)
  | x :: script' =>
      if negb (still_running x) then ([], Some (Return tt))
      else
        match accepted x with
        | Raise e =>
            if catches OSError e then ([Accept], Some (Return tt))
            else ([Accept], Some (Raise e))
        | Return address =>
            match thread_fails x with
            | Some e =>
                if catches OSError e then ([Accept; StartThread address], Some (Return tt))
                else ([Accept; StartThread address], Some (Raise e))
            | None =>
                let (ev, r) := accept_loop script' in
                (Accept :: StartThread address :: ev, r)
            end
        end
  end.


(** [start_server()]: the events, the outcome ([None] while the server
    waits for a connection) and the server object afterwards. *)
Definition start_server (self : server_state) (env : listening)
    : list server_event * option (outcome unit) * server_state :=
  let opened := mk_server_state (server self) true in
  let body : list server_event * option (outcome unit) * server_state :=
    match listen_socket_fails env with
    | Some e => ([Did SocketOpen], Some (Raise e), self)
    | None =>
        match setsockopt_fails env with
        | Some e => ([Did SocketOpen; SetSockOpt], Some (Raise e), opened)
        | None =>
            let bind := Bind (host (server self)) (port (server self)) in
            match bind_fails env with
            | Some e => ([Did SocketOpen; SetSockOpt; bind], Some (Raise e), opened)
            | None =>
                match listen_fails env with
                | Some e =>
                    ([Did SocketOpen; SetSockOpt; bind; Listen 5], Some (Raise e), opened)
                | None =>
                    let (ev, r) := accept_loop (accepts env) in
                    ([Did SocketOpen; SetSockOpt; bind; Listen 5;
                      Did (Printed ("Server listening on " +:+ host (server self) +:+ ":"
                                    +:+ str_of_int (port (server self))));
                      Did (Printed "Press Ctrl+C to stop the server")] ++ ev,
                     r,
                     mk_server_state (set_running (server self) true) true)
                end
            end
        end
    end in
  match body with
  | (ev, None, st) => (ev, None, st)
  | (ev, Some r, st) =>
      let '(said, uncaught) :=
        match r with
        | Return _ => ([], None)
        | Raise e =>
            if catches KeyboardInterrupt e
            then ([Did (Printed (nl +:+ "Shutting down server..."))], None)
            else if catches Exception e
            then ([Did (Printed ("Server error: " +:+ message e))], None)
            else ([], Some e)
        end in
      let '(stopping, stopped, st') := stop_server st (listen_close_fails env) in
      (ev ++ said ++ stopping,
       Some match stopped with
            | Raise c => Raise c
            | Return _ => match uncaught with Some e => Raise e | None => Return tt end
            end,
       st')
  end.

End network_handler.

(* ===================================================================== *)
(** * main.py                                                             *)
(* ===================================================================== *)

Module main.
Import Py.

(** [parse_input] as a callable: it prints nothing. *)
Definition parse_function (s : string) : list string * outcome (list Value) :=
  ([], io_handler.parse_input s).

(** [handler = create_sorting_handler(sort_data, parse_input)]; [sort_data]
    is called with its default [reverse=False]. *)
Definition sorting_handler : network_handler.handler :=
  network_handler.create_sorting_handler
    (fun data => sorting.sort_data data false) parse_function.

(** The server of [handle_server_mode(port)] when it starts. *)
Definition sorting_server (port : Z) : network_handler.NetworkServer :=
  network_handler.set_client_handler
    (network_handler.NetworkServer_init "localhost" port) sorting_handler.

(** ** The other modes *)

Import sorting io_handler network_handler.

(** [handle_keyboard_mode()] after its first line: the [while True:]
    loop, [script] being what the calls of [input] give in turn; [None]:
    the loop waits for a line beyond those given. *)
Fixpoint keyboard_loop (script : list input_result) : list console * option (outcome unit) :=
  match script with
  | [] => ([], None)
  | typed :: script' =>
      match read_keyboard_input typed with
      | (ev, Raise e) => (ev, Some (Raise e))
      | (ev, Return []) => (ev, Some (Return tt))
      | (ev, Return data) =>
          match sort_data data false with
          | (out, Raise e) => (ev ++ map Say out, Some (Raise e))
          | (out, Return sorted_data) =>
              let shown :=
                ev ++ map Say (out ++ write_screen_output data "Original"
                                   ++ write_screen_output sorted_data "Sorted"
                                   ++ [repeat_text "-" 30]) in
              let (ev', r) := keyboard_loop script' in (shown ++ ev', r)
          end
      end
  end.

Definition handle_keyboard_mode (script : list input_result)
    : list console * option (outcome unit) :=
  let (ev, r) := keyboard_loop script in (Say "=== Keyboard Input Mode ===" :: ev, r).

(** [if output_file:] an output file is given when the name is not
    [None] and not empty. *)
Definition given (output_file : option string) : option string :=
  match output_file with
  | Some name => if is_empty name then None else Some name
  | None => None
  end.

(** [handle_file_mode(input_file, output_file=None)]: the printed lines,
    the outcome and the files afterwards. *)
Definition handle_file_mode (fs : filesystem) (input_file : string)
    (output_file : option string) : io_handler.stdout * outcome unit * filesystem :=
  let header := "=== File Mode: " +:+ input_file +:+ " ===" in
  match read_file_input fs input_file with
  | (out, Raise e) => (header :: out, Raise e, fs)
  | (out, Return []) => (header :: out ++ ["No data to sort."], Return tt, fs)
  | (out, Return data) =>
      let seen :=
        header :: out
        ++ ["Read " +:+ str_of_int (Z.of_nat (length data)) +:+ " items from '"
            +:+ input_file +:+ "'"]
        ++ write_screen_output data "Original data" in
      match sort_data data false with
      | (out', Raise e) => (seen ++ out', Raise e, fs)
      | (out', Return sorted_data) =>
          match given output_file with
          | Some name =>
              match write_file_output fs sorted_data name with
              | (written, Raise e, fs') => (seen ++ out' ++ written, Raise e, fs')
              | (written, Return success, fs') =>
                  (seen ++ out' ++ written
                   ++ (if success then write_screen_output sorted_data "Sorted data" else []),
                   Return tt, fs')
              end
          | None =>
              (seen ++ out' ++ write_screen_output sorted_data "Sorted data", Return tt, fs)
          end
      end
  end.

(** [handle_file_inplace_mode(filename)] *)
Definition handle_file_inplace_mode (fs : filesystem) (filename : string)
    : io_handler.stdout * outcome unit * filesystem :=
  let header := "=== In-place File Mode: " +:+ filename +:+ " ===" in
  match read_file_input fs filename with
  | (out, Raise e) => (header :: out, Raise e, fs)
  | (out, Return []) => (header :: out ++ ["No data to sort."], Return tt, fs)
  | (out, Return data) =>
      let seen :=
        header :: out
        ++ ["Original content (" +:+ str_of_int (Z.of_nat (length data)) +:+ " items):"]
        ++ write_screen_output data "Before" in
      match sort_data data false with
      | (out', Raise e) => (seen ++ out', Raise e, fs)
      | (out', Return sorted_data) =>
          match write_file_output fs sorted_data filename with
          | (written, Raise e, fs') => (seen ++ out' ++ written, Raise e, fs')
          | (written, Return success, fs') =>
              (seen ++ out' ++ written
               ++ (if success
                   then write_screen_output sorted_data "After"
                        ++ ["File '" +:+ filename +:+ "' has been sorted in-place."]
                   else []),
               Return tt, fs')
          end
      end
  end.

(** [handle_client_mode(data, host='localhost', port=8080)]: [probe] is
    what the environment does to the calls of [test_connection], [reply]
    to those of [send_data]. *)
Definition handle_client_mode (data host : string) (port : Z)
    (probe reply : network) : io unit :=
  let client := mk_client host port in
  _ <- ([Printed ("=== Network Client Mode (" +:+ host +:+ ":" +:+ str_of_int port
                  +:+ ") ===")], Return tt) ;;
  reachable <- test_connection client probe ;;
  if negb reachable then
    ([Printed ("Cannot connect to server at " +:+ host +:+ ":" +:+ str_of_int port);
      Printed "Make sure the server is running first."], Return tt)
  else
    _ <- ([Printed ("Sending data: " +:+ data)], Return tt) ;;
    response <- send_data client data 5 reply ;;
    ([Printed ("Server response: " +:+ response)], Return tt).

(** [handle_server_mode(port=8080)] *)
Definition handle_server_mode (port : Z) (env : listening)
    : list server_event * option (outcome unit) * server_state :=
  let '(ev, r, st) := start_server (mk_server_state (sorting_server port) false) env in
  (Did (Printed ("=== Network Server Mode (Port " +:+ str_of_int port +:+ ") ==="))
   :: Did (Printed "Starting sorting server...")
   :: Did (Printed "Server will sort any data sent to it and return results")
   :: ev, r, st).


(** The lines of [show_usage()]. *)
Definition show_usage : io_handler.stdout :=
  ["A Modular Sorting Application";
   repeat_text "=" 40;
   "Usage:";
   "  python main.py keyboard                    - Interactive keyboard input";
   "  python main.py file <input> [output]       - File input/output";
   "  python main.py file_inplace <filename>     - In-place file sorting";
   "  python main.py server [port]               - Start network server";
   "  python main.py client <data> [host] [port] - Send data to server";
   "  python main.py test                        - Run module tests";
   "";
   "Examples:";
   "  python main.py keyboard";
   "  python main.py file numbers.txt sorted.txt";
   "  python main.py file_inplace data.txt";
   "  python main.py server 8080";
   "  python main.py client '3 1 4 1 5 9 2 6' localhost 8080"].

(** What a run of the program does to the outside: the terminal, the
    sockets of the client and of the server, and the traceback that
    [traceback.print_exc()] writes. *)
Inductive output :=
  | Console (c : console)
  | Network (e : event)
  | Serving (e : server_event)
  | Traceback.

Definition say (line : string) : output := Console (Say line).

(** What the program finds outside: what is typed, the files, the
    network as the two calls of the client and the listening server meet
    it, and the run of the modules' own tests, which is left open. *)
Record world := mk_world {
  keyboard : list input_result;
  disk : filesystem;
  probe : network;
  reply : network;
  listener : listening;
  module_tests : list output * outcome unit
}.

(** [main()], [argv] being [sys.argv]: the output, the outcome ([None]
    while the program waits for a line or for a connection) and the
    files afterwards. *)
Definition main (argv : list string) (w : world)
    : list output * option (outcome unit) * filesystem :=
  match argv with
  | [] | [_] => (map say show_usage, Some (Return tt), disk w)
  | _ :: mode_arg :: args =>
      let mode := str_lower mode_arg in
      let body : list output * option (outcome unit) * filesystem :=
        if String.eqb mode "keyboard" then
          let (ev, r) := handle_keyboard_mode (keyboard w) in (map Console ev, r, disk w)
        else if String.eqb mode "file" then
          match args with
          | [] =>
              ([say "Error: Please provide input filename";
                say "Usage: python main.py file <input_file> [output_file]"],
               Some (Return tt), disk w)
          | input_file :: args' =>
              let output_file := match args' with name :: _ => Some name | [] => None end in
              let '(out, r, fs) := handle_file_mode (disk w) input_file output_file in
              (map say out, Some r, fs)
          end
        else if String.eqb mode "file_inplace" then
          match args with
          | [] =>
              ([say "Error: Please provide filename";
                say "Usage: python main.py file_inplace <filename>"],
               Some (Return tt), disk w)
          | filename :: _ =>
              let '(out, r, fs) := handle_file_inplace_mode (disk w) filename in
              (map say out, Some r, fs)
          end
        else if String.eqb mode "server" then
          match match args with text :: _ => py_int text | [] => Return 8080 end with
          | Raise e => ([], Some (Raise e), disk w)
          | Return port =>
              let '(ev, r, _) := handle_server_mode port (listener w) in
              (map Serving ev, r, disk w)
          end
        else if String.eqb mode "client" then
          match args with
          | [] =>
              ([say "Error: Please provide data to send";
                say "Usage: python main.py client <data> [host] [port]"],
               Some (Return tt), disk w)
          | data :: args' =>
              let host := match args' with name :: _ => name | [] => "localhost" end in
              match match args' with _ :: text :: _ => py_int text | _ => Return 8080 end with
              | Raise e => ([], Some (Raise e), disk w)
              | Return port =>
                  let (ev, r) := handle_client_mode data host port (probe w) (reply w) in
                  (map Network ev, Some r, disk w)
              end
          end
        else if String.eqb mode "test" then
          let (ev, r) := module_tests w in (ev, Some r, disk w)
        else
          (say ("Error: Unknown mode '" +:+ mode +:+ "'") :: map say show_usage,
           Some (Return tt), disk w) in
      match body with
      | (ev, Some (Raise e), fs) =>
          if catches KeyboardInterrupt e
          then (ev ++ [say (nl +:+ "Operation cancelled by user.")], Some (Return tt), fs)
          else if catches Exception e
          then (ev ++ [say ("Error: " +:+ message e); Traceback], Some (Return tt), fs)
          else (ev, Some (Raise e), fs)
      | finished_or_waiting => finished_or_waiting
      end
  end.

End main.

(* ===================================================================== *)
(** * Vocabulary of the statements                                        *)
(* ===================================================================== *)

Import Py.

(** Text made of white space only (the empty text included). *)
Fixpoint all_space (s : string) : bool :=
  match s with
  | EmptyString => true
  | String c s' => is_space c && all_space s'
  end.

(** Text without any white space. *)
Fixpoint no_space (s : string) : bool :=
  match s with
  | EmptyString => true
  | String c s' => negb (is_space c) && no_space s'
  end.

(** The first and the last character of a text, if it has any. *)
Definition first_char (s : string) : option ascii :=
  match s with
  | EmptyString => None
  | String c _ => Some c
  end.

Fixpoint last_char (s : string) : option ascii :=
  match s with
  | EmptyString => None
  | String c s' =>
      match s' with
      | EmptyString => Some c
      | String _ _ => last_char s'
      end
  end.

(** Text that white space neither begins nor ends (the empty text
    included). *)
Definition trimmed (s : string) : bool :=
  match first_char s, last_char s with
  | Some a, Some b => negb (is_space a) && negb (is_space b)
  | _, _ => true
  end.

(** A token: what [split] yields, non-empty text without white space. *)
Definition token (s : string) : bool := negb (is_empty s) && no_space s.

(** Text with a point or an exponent mark, which no [int] numeral has. *)
Fixpoint has_mark (s : string) : bool :=
  match s with
  | EmptyString => false
  | String c s' => Ascii.eqb c "." || Ascii.eqb c "e" || has_mark s'
  end.

(** Text whose characters all satisfy [p]. *)
Fixpoint all_chars (p : ascii -> bool) (s : string) : bool :=
  match s with
  | EmptyString => true
  | String c s' => p c && all_chars p s'
  end.

(** The number that the digits of [s] write after [acc]. *)
Fixpoint numeral_value (acc : Z) (s : string) : Z :=
  match s with
  | EmptyString => acc
  | String c s' => numeral_value (10 * acc + digit_value c) s'
  end.

(** The tags of a [Value]. *)
Definition is_int (v : Value) : bool := match v with VInt _ => true | _ => false end.
Definition is_float (v : Value) : bool := match v with VFloat _ => true | _ => false end.
Definition is_text (v : Value) : bool := match v with VStr _ => true | _ => false end.
Definition is_number (v : Value) : bool := negb (is_text v).

(** A mantissa and an exponent (counted from [-1074]) of the format. *)
Definition canonical (m es : Z) : Prop :=
  0 < m < 2 ^ 53 /\ 0 <= es <= 2045 /\ (es = 0 \/ 2 ^ 52 <= m).

(** A float of the format: what [float] returns. *)
Definition float_ok (x : spec_float) : Prop :=
  match x with
  | S754_finite _ m e => canonical (Zpos m) (e + 1074)
  | _ => True
  end.

(** The conversion of a decimal numeral written with the Standard
    Library's IEEE 754 operations for binary64 (precision 53, exponents
    below 1024), against which [decimal_to_float] is checked on numerals
    at the edges of the format. *)
Definition ieee_decimal_to_float (neg : bool) (m e : Z) : spec_float :=
  match m with
  | Z0 => S754_zero neg
  | Zpos _ =>
      if 0 <=? e then binary_round 53 1024 neg (Z.to_pos (m * 10 ^ e)) 0
      else
        let '(q, e', l) := SFdiv_core_binary 53 1024 m 0 (10 ^ (- e)) 0 in
        binary_round_aux 53 1024 neg q e' l
  | Zneg _ => S754_nan
  end.

(** The float that is not a number, which no comparison orders. *)
Definition is_nan (v : Value) : bool :=
  match v with VFloat S754_nan => true | _ => false end.

(** All values carry one tag. *)
Definition single_tag (l : list Value) : bool :=
  forallb is_int l || forallb is_float l || forallb is_text l.

(** Text and numbers side by side: the tags [<] does not relate. *)
Definition mixed (l : list Value) : bool := existsb is_text l && existsb is_number l.

(** No element is smaller than the one before it. *)
Definition no_inversion (a b : Value) : Prop := value_lt b a = Return false.

(** The comparison [is_sorted] asks of two neighbours. *)
Definition in_order (reverse : bool) (a b : Value) : outcome bool :=
  if reverse then value_ge a b else value_le a b.

(** The value of a decimal numeral read after [acc]. *)
Fixpoint uint_value (acc : Z) (u : Decimal.uint) : Z :=
  match u with
  | Decimal.Nil => acc
  | Decimal.D0 u => uint_value (10 * acc + 0) u
  | Decimal.D1 u => uint_value (10 * acc + 1) u
  | Decimal.D2 u => uint_value (10 * acc + 2) u
  | Decimal.D3 u => uint_value (10 * acc + 3) u
  | Decimal.D4 u => uint_value (10 * acc + 4) u
  | Decimal.D5 u => uint_value (10 * acc + 5) u
  | Decimal.D6 u => uint_value (10 * acc + 6) u
  | Decimal.D7 u => uint_value (10 * acc + 7) u
  | Decimal.D8 u => uint_value (10 * acc + 8) u
  | Decimal.D9 u => uint_value (10 * acc + 9) u
  end.

(** What [parse_input] makes of one item. *)
Definition item_value (item : string) : Value :=
  match py_int item with
  | Return n => VInt n
  | Raise _ =>
      match py_float item with
      | Return x => VFloat x
      | Raise _ => VStr item
      end
  end.

(** [str] names the value: read back by [parse_input], the text gives the
    value alone. *)
Definition reparses (v : Value) : Prop :=
  io_handler.parse_input (str v) = Return [v].

(** The requests handed to the installed handler in a run. *)
Fixpoint handled (run : list network_handler.event) : list string :=
  match run with
  | [] => []
  | network_handler.Handle request :: run' => request :: handled run'
  | _ :: run' => handled run'
  end.

(** The environment of a client call in which the only fault is that
    nobody listens: the socket opens and closes, [connect] raises
    [ConnectionRefusedError] and [connect_ex] returns its error number. *)
Definition connection_refused (net : network_handler.network) : Prop :=
  network_handler.socket_fails net = None
  /\ (exists e, network_handler.connect_fails net = Some e
                /\ class_of e = ConnectionRefusedError)
  /\ (exists errno, network_handler.connect_ex_returns net = Return errno /\ errno <> 0)
  /\ network_handler.close_fails net = None.

(** The texts given to [send] in a run, sent or not. *)
Fixpoint sent (run : list network_handler.event) : list string :=
  match run with
  | [] => []
  | network_handler.Send text :: run' => text :: sent run'
  | _ :: run' => sent run'
  end.

(** The inputs on which [read_keyboard_input] gives the empty list: a
    line of white space only, the letter q (in either case, white space
    around it or not), the end of the input, an interrupt. *)
Definition quits (typed : io_handler.input_result) : Prop :=
  match typed with
  | io_handler.Line text => all_space text = true \/ str_lower (strip text) = "q"
  | io_handler.EOFError => True
  | io_handler.InputRaises e => catches KeyboardInterrupt e = true
  end.

(** ** Proof steps used more than once *)

(** Reads one decimal digit of a numeral under [digitpart]. *)
Ltac read_digit :=
  match goal with
  | |- context [is_digit ?c] => change (is_digit c) with true; cbv iota
  end;
  match goal with
  | |- context [digit_value ?c] =>
      let v := eval vm_compute in (digit_value c) in change (digit_value c) with v
  end.

(** Follows every branch that a run takes on an [except] clause or on a
    call that may fail. *)
Ltac each_branch :=
  repeat match goal with
         | |- context [if ?c then _ else _] => destruct c
         | |- context [match ?c with Some _ => _ | None => _ end] => destruct c
         end.

(* ===================================================================== *)
(** * Text: [strip], [split] and [join]                                   *)
(* ===================================================================== *)

Section Text.

Lemma is_empty_true (s : string) : is_empty s = true -> s = EmptyString.
Proof. destruct s; [reflexivity | discriminate]. Qed.

Lemma lstrip_blank (s : string) : is_empty (lstrip s) = all_space s.
Proof.
  induction s as [| c s IH]; simpl; [reflexivity |].
  destruct (is_space c); simpl; [exact IH | reflexivity].
Qed.

Lemma rstrip_blank (s : string) : is_empty (rstrip s) = all_space s.
Proof.
  induction s as [| c s IH]; simpl; [reflexivity |].
  rewrite IH. destruct (is_space c), (all_space s); reflexivity.
Qed.

Lemma all_space_lstrip (s : string) : all_space (lstrip s) = all_space s.
Proof.
  induction s as [| c s IH]; simpl; [reflexivity |].
  destruct (is_space c) eqn:E; simpl; [exact IH | now rewrite E].
Qed.

(** [strip] leaves nothing exactly of the texts made of white space. *)
Lemma strip_blank (s : string) : is_empty (strip s) = all_space s.
Proof. unfold strip. now rewrite rstrip_blank, all_space_lstrip. Qed.

Lemma lstrip_head (s : string) :
  lstrip s = EmptyString \/ exists c r, lstrip s = String c r /\ is_space c = false.
Proof.
  induction s as [| c s IH]; simpl; [now left |].
  destruct (is_space c) eqn:E; [exact IH | right; eauto].
Qed.

Lemma rstrip_head (c : ascii) (s : string) :
  is_space c = false -> exists r, rstrip (String c s) = String c r.
Proof. intros E. simpl. rewrite E. simpl. eauto. Qed.

(** What [strip] leaves, if anything, starts with a character that is not
    white space. *)
Lemma strip_head (s : string) :
  strip s = EmptyString \/ exists c r, strip s = String c r /\ is_space c = false.
Proof.
  unfold strip. destruct (lstrip_head s) as [-> | (c & r & -> & E)]; [now left |].
  right. destruct (rstrip_head c r E) as [r' ->]. eauto.
Qed.

Lemma strip_not_blank (s : string) :
  is_empty (strip s) = false -> all_space (strip s) = false.
Proof.
  destruct (strip_head s) as [-> | (c & r & -> & E)]; [discriminate |].
  intros _. simpl. now rewrite E.
Qed.

Lemma no_space_rstrip (s : string) : no_space s = true -> rstrip s = s.
Proof.
  induction s as [| c s IH]; simpl; [reflexivity |].
  intros [Hc Hs]%andb_true_iff. rewrite (IH Hs).
  apply negb_true_iff in Hc. now rewrite Hc.
Qed.

Lemma no_space_lstrip (s : string) : no_space s = true -> lstrip s = s.
Proof.
  destruct s as [| c s]; simpl; [reflexivity |].
  intros [Hc _]%andb_true_iff. apply negb_true_iff in Hc. now rewrite Hc.
Qed.

Lemma no_space_strip (s : string) : no_space s = true -> strip s = s.
Proof.
  intros H. unfold strip. rewrite (no_space_lstrip s H). now apply no_space_rstrip.
Qed.

(** [int] and [float] skip no character that [strip] keeps, so that a
    text without white space is read as it stands. *)
Lemma is_numeral_space_is_space (c : ascii) :
  is_numeral_space c = true -> is_space c = true.
Proof. destruct c as [[] [] [] [] [] [] [] []]; vm_compute; congruence. Qed.

Lemma no_space_numeral_strip (s : string) : no_space s = true -> numeral_strip s = s.
Proof.
  intros H. unfold numeral_strip.
  assert (Hl : numeral_lstrip s = s).
  { destruct s as [| c s]; [reflexivity |]. cbn [no_space] in H.
    apply andb_true_iff in H as [Hc _]. apply negb_true_iff in Hc. cbn [numeral_lstrip].
    destruct (is_numeral_space c) eqn:E; [| reflexivity].
    apply is_numeral_space_is_space in E. congruence. }
  rewrite Hl. clear Hl. induction s as [| c s IH]; [reflexivity |].
  cbn [no_space] in H. apply andb_true_iff in H as [Hc Hs]. apply negb_true_iff in Hc.
  cbn [numeral_rstrip]. rewrite (IH Hs).
  destruct (is_numeral_space c) eqn:E; [| reflexivity].
  apply is_numeral_space_is_space in E. congruence.
Qed.

Lemma split_blank (s : string) : all_space s = true -> split s = [].
Proof.
  induction s as [| c s IH]; simpl; [reflexivity |].
  intros [Hc Hs]%andb_true_iff. rewrite Hc. auto.
Qed.

Lemma split_cons (c : ascii) (s : string) :
  split (String c s) =
  if is_space c then split s
  else match s with
       | EmptyString => [String c EmptyString]
       | String c' _ =>
           if is_space c' then String c EmptyString :: split s
           else match split s with
                | t :: ts => String c t :: ts
                | [] => [String c EmptyString]
                end
       end.
Proof. destruct s; reflexivity. Qed.

Lemma split_head (c : ascii) (s : string) :
  is_space c = false -> exists t ts, split (String c s) = String c t :: ts.
Proof.
  revert c. induction s as [| c' s IH]; intros c E; rewrite split_cons, E.
  - eauto.
  - destruct (is_space c') eqn:E'; [eauto |].
    destruct (IH c' E') as (t & ts & ->). eauto.
Qed.

(** [split] finds nothing exactly in the texts made of white space. *)
Lemma split_nil (s : string) : split s = [] <-> all_space s = true.
Proof.
  split; [| apply split_blank].
  induction s as [| c s IH]; [reflexivity |].
  destruct (is_space c) eqn:E.
  - rewrite split_cons, E. simpl. rewrite E. exact IH.
  - destruct (split_head c s E) as (t & ts & ->). discriminate.
Qed.

(** A blank between two texts separates what [split] finds in them. *)
Lemma split_space_app (a b : string) :
  split (a +:+ String " " b) = split a ++ split b.
Proof.
  induction a as [| c a IH]; [reflexivity |].
  change (String c a +:+ String " " b) with (String c (a +:+ String " " b)).
  rewrite !split_cons. destruct (is_space c) eqn:E; [exact IH |].
  destruct a as [| c' a]; [reflexivity |].
  change (String c' a +:+ String " " b) with (String c' (a +:+ String " " b)) in *.
  rewrite IH. destruct (is_space c') eqn:E'; [reflexivity |].
  destruct (split_head c' a E') as (t & ts & ->). reflexivity.
Qed.

Lemma split_tokens (s : string) : Forall (fun t => token t = true) (split s).
Proof.
  induction s as [| c s IH]; [constructor |].
  rewrite split_cons. destruct (is_space c) eqn:E; [exact IH |].
  assert (Hc : token (String c EmptyString) = true) by (unfold token; simpl; now rewrite E).
  destruct s as [| c' s']; [now repeat constructor |].
  destruct (is_space c'); [now constructor |].
  destruct (split (String c' s')) as [| t ts]; [now repeat constructor |].
  inversion IH as [| ? ? Ht Hts]; subst. constructor; [| exact Hts].
  unfold token in *. simpl. rewrite E. simpl.
  now apply andb_true_iff in Ht as [_ ->].
Qed.

Lemma token_split (t : string) : token t = true -> split t = [t].
Proof.
  unfold token. induction t as [| c t IH]; [discriminate |].
  intros H. rewrite split_cons.
  cbn [is_empty negb no_space andb] in H. apply andb_true_iff in H as [Hc Ht].
  apply negb_true_iff in Hc. rewrite Hc.
  destruct t as [| c' t']; [reflexivity |].
  rewrite IH by exact Ht.
  cbn [no_space] in Ht. apply andb_true_iff in Ht as [Hc' _]. apply negb_true_iff in Hc'.
  now rewrite Hc'.
Qed.

Lemma token_not_blank (t : string) : token t = true -> all_space t = false.
Proof.
  unfold token. destruct t as [| c t]; [discriminate |].
  simpl. intros [Hc _]%andb_true_iff. apply negb_true_iff in Hc. now rewrite Hc.
Qed.

Lemma join_cons (sep p q : string) (ps : list string) :
  join sep (p :: q :: ps) = p +:+ sep +:+ join sep (q :: ps).
Proof. reflexivity. Qed.

(** Joined with single blanks, texts are split each on its own. *)
Lemma split_join (parts : list string) :
  split (join " " parts) = concat (map split parts).
Proof.
  induction parts as [| p [| q ps] IH]; [reflexivity | |].
  - simpl. now rewrite app_nil_r.
  - rewrite join_cons.
    change (p +:+ " " +:+ join " " (q :: ps)) with (p +:+ String " " (join " " (q :: ps))).
    rewrite split_space_app, IH. reflexivity.
Qed.

End Text.

(* ===================================================================== *)
(** * Numerals: [int] reads what [str] writes                             *)
(* ===================================================================== *)

Section Numerals.

Lemma digitpart_from_uint (u : Decimal.uint) (acc : Z) (n : nat) :
  exists k, digitpart_from acc n (string_of_uint u) = Some (uint_value acc u, k).
Proof.
  revert acc n.
  induction u as [| u IH | u IH | u IH | u IH | u IH | u IH | u IH | u IH | u IH | u IH];
    intros acc n; [exists n; reflexivity | ..];
    cbn [string_of_uint digitpart_from uint_value]; read_digit; apply IH.
Qed.

Lemma digitpart_uint (u : Decimal.uint) :
  u <> Decimal.Nil -> exists k, digitpart (string_of_uint u) = Some (uint_value 0 u, k).
Proof.
  destruct u; [congruence | ..]; intros _;
    cbn [string_of_uint digitpart uint_value]; read_digit; apply digitpart_from_uint.
Qed.

Lemma uint_value_pos (u : Decimal.uint) (a : positive) :
  uint_value (Zpos a) u = Zpos (Pos.of_uint_acc u a).
Proof.
  revert a.
  induction u as [| u IH | u IH | u IH | u IH | u IH | u IH | u IH | u IH | u IH | u IH];
    intros a; [reflexivity | ..]; cbn [uint_value Pos.of_uint_acc]; rewrite <- IH; f_equal; lia.
Qed.

Lemma uint_value_0 (u : Decimal.uint) : uint_value 0 u = Z.of_N (Pos.of_uint u).
Proof.
  induction u as [| u IH | u IH | u IH | u IH | u IH | u IH | u IH | u IH | u IH | u IH];
    [reflexivity | exact IH | ..];
    cbn [uint_value Pos.of_uint Z.of_N]; rewrite <- uint_value_pos; reflexivity.
Qed.

Lemma digitpart_to_uint (p : positive) :
  exists k, digitpart (string_of_uint (Pos.to_uint p)) = Some (Zpos p, k).
Proof.
  destruct (digitpart_uint (Pos.to_uint p) (Unsigned.to_uint_nonnil p)) as [k Hk].
  exists k. rewrite Hk, uint_value_0, Unsigned.of_to. reflexivity.
Qed.

Lemma string_of_uint_no_space (u : Decimal.uint) : no_space (string_of_uint u) = true.
Proof. induction u; simpl; auto. Qed.

Lemma string_of_uint_not_empty (u : Decimal.uint) :
  u <> Decimal.Nil -> is_empty (string_of_uint u) = false.
Proof. destruct u; [congruence | ..]; reflexivity. Qed.

Lemma signed_uint (u : Decimal.uint) :
  signed (string_of_uint u) = (false, string_of_uint u).
Proof. destruct u; reflexivity. Qed.

Lemma str_of_int_token (n : Z) : token (str_of_int n) = true.
Proof.
  unfold token, str_of_int. destruct n as [| p | p]; [reflexivity | |]; cbn [Z.to_int].
  - rewrite string_of_uint_not_empty by apply Unsigned.to_uint_nonnil.
    now rewrite string_of_uint_no_space.
  - simpl. apply string_of_uint_no_space.
Qed.

(** [int(str(n)) == n] *)
Lemma py_int_str_of_int (n : Z) : py_int (str_of_int n) = Return n.
Proof.
  unfold py_int. rewrite no_space_numeral_strip.
  2:{ pose proof (str_of_int_token n) as H. unfold token in H.
      now apply andb_true_iff in H as [_ H]. }
  unfold str_of_int. destruct n as [| p | p]; [reflexivity | |]; cbn [Z.to_int].
  - rewrite signed_uint. destruct (digitpart_to_uint p) as [k ->]. reflexivity.
  - cbn [signed]. change (Ascii.eqb "-" "-") with true. cbv iota.
    destruct (digitpart_to_uint p) as [k ->]. reflexivity.
Qed.

End Numerals.

(* ===================================================================== *)
(** * Floats: rounding, and the digits that read back                     *)
(* ===================================================================== *)

Section Rounding.

Lemma pow2_pos (e : Z) : 0 <= e -> 0 < 2 ^ e.
Proof. intros. apply Z.pow_pos_nonneg; lia. Qed.

Lemma pow2_53 (e : Z) : 0 <= e -> 2 ^ (e + 53) = 2 * (2 ^ 52 * 2 ^ e).
Proof.
  intros. replace (e + 53) with (1 + (52 + e)) by lia.
  rewrite Z.pow_add_r, Z.pow_add_r by lia. reflexivity.
Qed.

Lemma pow2_52 (e : Z) : 0 <= e -> 2 ^ (e + 52) = 2 ^ 52 * 2 ^ e.
Proof. intros. rewrite Z.add_comm, Z.pow_add_r by lia. reflexivity. Qed.

Lemma pow2_53' : 2 ^ 53 = 2 * 2 ^ 52.
Proof. reflexivity. Qed.

Lemma div_bounds (a b q : Z) : 0 < b -> q * b <= a < (q + 1) * b -> a / b = q /\ a mod b = a - q * b.
Proof.
  intros Hb H. assert (Hq : q = a / b).
  { apply (Z.div_unique a b q (a - q * b)); lia. }
  split; [now symmetry |]. rewrite Z.mod_eq by lia. rewrite <- Hq. lia.
Qed.

Lemma binade_cases (a d : Z) :
  0 <= a -> 0 < d ->
  0 <= binade a d /\ a < d * 2 ^ (binade a d + 53)
  /\ (binade a d = 0 \/ d * 2 ^ (binade a d + 52) <= a).
Proof.
  intros Ha Hd. unfold binade.
  assert (Hq : 0 <= a / d) by (apply Z.div_pos; lia).
  assert (Hqa : d * (a / d) <= a) by (apply Z.mul_div_le; lia).
  assert (Haq : a < d * (a / d + 1)).
  { pose proof (Z.mod_pos_bound a d Hd). rewrite (Z.div_mod a d) at 1 by lia. lia. }
  destruct (Z.max_spec 0 (Z.log2 (a / d) - 52)) as [[Hl ->] | [Hl ->]].
  - (* log2 > 52 *)
    assert (Hpos : 0 < a / d).
    { destruct (Z.eq_dec (a / d) 0) as [E | E]; [rewrite E in Hl; cbn in Hl; lia | lia]. }
    destruct (Z.log2_spec (a / d) Hpos) as [Hlo Hhi].
    replace (Z.log2 (a / d) - 52 + 53) with (Z.succ (Z.log2 (a / d))) by lia.
    replace (Z.log2 (a / d) - 52 + 52) with (Z.log2 (a / d)) by lia.
    split; [lia | split; [| right]]; nia.
  - split; [lia | split; [| now left]].
    change (0 + 53) with 53.
    assert (a / d < 2 ^ 53).
    { destruct (Z.eq_dec (a / d) 0) as [E | E]; [rewrite E; reflexivity |].
      apply Z.log2_lt_pow2; lia. }
    nia.
Qed.

Lemma binade_unique (a d es : Z) :
  0 <= a -> 0 < d -> 0 <= es ->
  a < d * 2 ^ (es + 53) -> (es = 0 \/ d * 2 ^ (es + 52) <= a) ->
  binade a d = es.
Proof.
  intros Ha Hd He Hhi Hlo.
  destruct (binade_cases a d Ha Hd) as (He0 & Hhi0 & Hlo0).
  set (es0 := binade a d) in *. clearbody es0.
  destruct (Z.lt_trichotomy es0 es) as [Hlt | [-> | Hgt]]; [| reflexivity |]; exfalso.
  - destruct Hlo as [-> | Hlo]; [lia |].
    assert (2 ^ (es0 + 53) <= 2 ^ (es + 52)) by (apply Z.pow_le_mono_r; lia).
    nia.
  - destruct Hlo0 as [-> | Hlo0]; [lia |].
    assert (2 ^ (es + 53) <= 2 ^ (es0 + 52)) by (apply Z.pow_le_mono_r; lia).
    nia.
Qed.

Lemma pack_canonical (neg : bool) (m es : Z) :
  canonical m es -> pack neg m es = S754_finite neg (Z.to_pos m) (es - 1074).
Proof.
  intros ((Hm0 & Hm) & (He0 & He) & _). unfold pack.
  destruct (Z.eqb_spec m (2 ^ 53)) as [E | _]; [lia |].
  destruct (Z.eqb_spec m 0) as [E | _]; [lia |].
  destruct (Z.ltb_spec 2045 es) as [E | _]; [lia | reflexivity].
Qed.

Lemma pack_carry (neg : bool) (es : Z) :
  0 <= es -> es + 1 <= 2045 ->
  pack neg (2 ^ 53) es = S754_finite neg (Z.to_pos (2 ^ 52)) (es + 1 - 1074).
Proof.
  intros He0 He. unfold pack. rewrite Z.eqb_refl.
  change (2 ^ 52 =? 0) with false. cbv iota.
  destruct (Z.ltb_spec 2045 (es + 1)) as [E | _]; [lia | reflexivity].
Qed.

Lemma pack_ok (neg : bool) (m es : Z) :
  0 <= m <= 2 ^ 53 -> 0 <= es -> (es = 0 \/ 2 ^ 52 <= m) -> float_ok (pack neg m es).
Proof.
  intros Hm He Hn. unfold pack.
  destruct (Z.eqb_spec m (2 ^ 53)) as [E | E].
  - change (2 ^ 52 =? 0) with false. cbv iota.
    destruct (Z.ltb_spec 2045 (es + 1)); [exact I |].
    cbn [float_ok]. change (Z.pos (Z.to_pos (2 ^ 52))) with (2 ^ 52).
    unfold canonical. replace (es + 1 - 1074 + 1074) with (es + 1) by lia.
    split; [split; reflexivity |]. split; [lia |]. right. lia.
  - destruct (Z.eqb_spec m 0); [exact I |].
    destruct (Z.ltb_spec 2045 es); [exact I |].
    cbn [float_ok]. rewrite Z2Pos.id by lia. unfold canonical.
    replace (es - 1074 + 1074) with es by lia. repeat split; lia.
Qed.

Lemma half_even_below (q r b : Z) : 2 * r < b -> half_even q r b = q.
Proof. intros H. unfold half_even. now rewrite (proj2 (Z.compare_lt_iff _ _) H). Qed.

Lemma half_even_above (q r b : Z) : b < 2 * r -> half_even q r b = q + 1.
Proof. intros H. unfold half_even. now rewrite (proj2 (Z.compare_gt_iff _ _) H). Qed.

Lemma half_even_range (q r b : Z) : q <= half_even q r b <= q + 1.
Proof. unfold half_even. destruct (2 * r ?= b); [destruct (Z.even q) | |]; lia. Qed.

Lemma half_even_scale (c q r b : Z) :
  0 < c -> half_even q (c * r) (c * b) = half_even q r b.
Proof.
  intros Hc. unfold half_even.
  replace (2 * (c * r)) with (c * (2 * r)) by lia.
  destruct (Z.compare_spec (2 * r) b), (Z.compare_spec (c * (2 * r)) (c * b));
    try reflexivity; nia.
Qed.

(** What [round_units] returns is a float of the format. *)
Lemma round_units_ok (neg : bool) (a d : Z) :
  0 <= a -> 0 < d -> float_ok (round_units neg a d).
Proof.
  intros Ha Hd. unfold round_units.
  destruct (binade_cases a d Ha Hd) as (He & Hhi & Hlo).
  set (es := binade a d) in *. clearbody es.
  assert (HP : 0 < 2 ^ es) by now apply pow2_pos.
  assert (Hb : 0 < d * 2 ^ es) by nia.
  rewrite pow2_53 in Hhi by exact He. rewrite pow2_52 in Hlo by exact He.
  pose proof (half_even_range (a / (d * 2 ^ es)) (a mod (d * 2 ^ es)) (d * 2 ^ es)) as Hr.
  assert (Hq0 : 0 <= a / (d * 2 ^ es)) by (apply Z.div_pos; lia).
  assert (Hq1 : a / (d * 2 ^ es) < 2 ^ 53).
  { apply Z.div_lt_upper_bound; [exact Hb |]. rewrite pow2_53'. nia. }
  apply pack_ok; [lia | exact He |].
  destruct Hlo as [-> | Hlo]; [now left | right].
  assert (2 ^ 52 <= a / (d * 2 ^ es)) by (apply Z.div_le_lower_bound; [exact Hb | nia]).
  lia.
Qed.

(** The result depends on the quotient only. *)
Lemma round_units_scale (neg : bool) (c a d : Z) :
  0 < c -> 0 < d -> round_units neg (c * a) (c * d) = round_units neg a d.
Proof.
  intros Hc Hd. unfold round_units, binade.
  rewrite Z.div_mul_cancel_l by lia.
  set (es := Z.max 0 (Z.log2 (a / d) - 52)).
  assert (HP : 0 < 2 ^ es) by (apply pow2_pos; lia).
  replace (c * d * 2 ^ es) with (c * (d * 2 ^ es)) by lia.
  rewrite Z.div_mul_cancel_l by nia.
  rewrite Z.mul_mod_distr_l by nia.
  now rewrite half_even_scale.
Qed.

(** A fraction nearer to a float of the format than to any other is
    rounded to it. *)
Lemma round_units_near (neg : bool) (m es a d : Z) :
  canonical m es -> 0 < d ->
  2 * a < d * (2 * m * 2 ^ es + 2 ^ es) ->
  (if (m =? 2 ^ 52) && (0 <? es)
   then d * (4 * m * 2 ^ es - 2 ^ es) < 4 * a
   else d * (2 * m * 2 ^ es - 2 ^ es) < 2 * a) ->
  round_units neg a d = S754_finite neg (Z.to_pos m) (es - 1074).
Proof.
  intros Hc Hd Hup Hlow.
  pose proof Hc as ((Hm0 & Hm) & (He0 & He) & Hn).
  assert (HP : 0 < 2 ^ es) by now apply pow2_pos.
  rewrite pow2_53' in Hm.
  assert (Ha : 0 < a).
  { destruct ((m =? 2 ^ 52) && (0 <? es)); nia. }
  unfold round_units.
  destruct (Z_le_gt_dec (d * (m * 2 ^ es)) a) as [Hge | Hlt].
  - (* at or above the float *)
    assert (Hb : binade a d = es).
    { apply binade_unique; [lia | lia | lia | |].
      - rewrite pow2_53 by lia. nia.
      - destruct Hn as [-> | Hn]; [now left | right]. rewrite pow2_52 by lia. nia. }
    rewrite Hb.
    destruct (div_bounds a (d * 2 ^ es) m) as [-> ->]; [nia | nia |].
    rewrite half_even_below by nia. now apply pack_canonical.
  - destruct (Z.eqb_spec m (2 ^ 52)) as [Em | Em];
      [destruct (Z.ltb_spec 0 es) as [Es | Es] |]; cbn [andb] in Hlow.
    + (* below the least float of a binade: one exponent down, and a carry *)
      subst m.
      assert (HP' : 2 ^ es = 2 * 2 ^ (es - 1)).
      { replace es with (1 + (es - 1)) at 1 by lia. rewrite Z.pow_add_r by lia. reflexivity. }
      assert (HQ : 0 < 2 ^ (es - 1)) by (apply pow2_pos; lia).
      assert (Hb : binade a d = es - 1).
      { apply binade_unique; [lia | lia | lia | |].
        - replace (es - 1 + 53) with (es + 52) by lia. rewrite pow2_52 by lia. nia.
        - right. rewrite pow2_52 by lia. nia. }
      rewrite Hb.
      destruct (div_bounds a (d * 2 ^ (es - 1)) (2 ^ 53 - 1)) as [-> ->];
        [nia | rewrite pow2_53'; nia |].
      rewrite half_even_above by (rewrite pow2_53'; nia).
      replace (2 ^ 53 - 1 + 1) with (2 ^ 53) by lia.
      rewrite pack_carry by lia. do 2 f_equal. lia.
    + (* the least normal float: the subnormals below have its spacing *)
      assert (es = 0) by lia. subst es. change (2 ^ 0) with 1 in *.
      assert (Hb : binade a d = 0).
      { apply binade_unique; [lia | lia | lia | | now left].
        change (0 + 53) with 53. rewrite pow2_53'. nia. }
      rewrite Hb. change (2 ^ 0) with 1. rewrite Z.mul_1_r.
      destruct (div_bounds a d (m - 1)) as [-> ->]; [lia | nia |].
      rewrite half_even_above by nia.
      replace (m - 1 + 1) with m by lia. now apply pack_canonical.
    + assert (Hb : binade a d = es).
      { apply binade_unique; [lia | lia | lia | |].
        - rewrite pow2_53 by lia. nia.
        - destruct Hn as [-> | Hn]; [now left | right]. rewrite pow2_52 by lia. nia. }
      rewrite Hb.
      destruct (div_bounds a (d * 2 ^ es) (m - 1)) as [-> ->]; [nia | nia |].
      rewrite half_even_above by nia.
      replace (m - 1 + 1) with m by lia. now apply pack_canonical.
Qed.

End Rounding.

Lemma float_same_eq (x y : spec_float) : float_same x y = true -> x = y.
Proof.
  destruct x as [a | a | | a m e], y as [b | b | | b n f]; cbn; try discriminate;
    try reflexivity.
  - intros H. apply Bool.eqb_prop in H. now subst.
  - intros H. apply Bool.eqb_prop in H. now subst.
  - intros H. apply andb_true_iff in H as [H He]. apply andb_true_iff in H as [Hs Hm].
    apply Bool.eqb_prop in Hs. apply Pos.eqb_eq in Hm. apply Z.eqb_eq in He. now subst.
Qed.

Lemma pow10_pos (k : Z) : 0 <= k -> 0 < 10 ^ k.
Proof. intros. apply Z.pow_pos_nonneg; lia. Qed.

Lemma ndigits_upto_low (fuel : nat) (n : Z) :
  1 <= n < 2 ^ (Z.of_nat fuel + 1) ->
  1 <= ndigits_upto fuel n /\ 10 ^ (ndigits_upto fuel n - 1) <= n.
Proof.
  revert n. induction fuel as [| fuel IH]; intros n Hn; cbn [ndigits_upto].
  - split; [lia |]. change (10 ^ (1 - 1)) with 1. lia.
  - destruct (Z.ltb_spec n 10) as [H | H].
    + split; [lia |]. change (10 ^ (1 - 1)) with 1. lia.
    + destruct (IH (n / 10)) as [H1 H2].
      { split; [apply Z.div_le_lower_bound; lia |].
        apply Z.div_lt_upper_bound; [lia |].
        replace (Z.of_nat (S fuel) + 1) with (1 + (Z.of_nat fuel + 1)) in Hn by lia.
        rewrite Z.pow_add_r in Hn by lia. change (2 ^ 1) with 2 in Hn.
        assert (0 < 2 ^ (Z.of_nat fuel + 1)) by (apply pow2_pos; lia). lia. }
      split; [lia |].
      replace (1 + ndigits_upto fuel (n / 10) - 1) with (1 + (ndigits_upto fuel (n / 10) - 1)) by lia.
      rewrite Z.pow_add_r by lia. change (10 ^ 1) with 10.
      pose proof (Z.mul_div_le n 10). lia.
Qed.

Lemma ndigits_low (n : Z) : 1 <= n -> 1 <= ndigits n /\ 10 ^ (ndigits n - 1) <= n.
Proof.
  intros Hn. unfold ndigits. apply ndigits_upto_low. split; [lia |].
  rewrite Z2Nat.id by apply Z.log2_nonneg.
  destruct (Z.log2_spec n) as [_ H]; [lia |]. now rewrite <- Z.add_1_r in H.
Qed.

Section ShortestTheory.
Variables (m : positive) (e : Z).
Hypothesis Hcan : canonical (Zpos m) (e + 1074).

Lemma units_pos : 0 < units m e.
Proof.
  unfold units. destruct Hcan as (_ & (He & _) & _).
  assert (0 < 2 ^ (e + 1074)) by (apply pow2_pos; lia). lia.
Qed.

(** The scaled quotient of the seventeen-digit candidates has seventeen
    digits at least. *)
Lemma candidate_17 :
  let k := leading_exponent m e - 17 + 1 in
  let a := if 0 <=? k then units m e else units m e * 10 ^ (- k) in
  let b := if 0 <=? k then 2 ^ 1074 * 10 ^ k else 2 ^ 1074 in
  0 < b /\ 10 ^ 16 * b <= a.
Proof.
  pose proof units_pos as HX.
  unfold leading_exponent. set (X := units m e) in *. clearbody X.
  assert (H1074 : 0 < 2 ^ 1074) by (apply pow2_pos; lia).
  assert (H324 : 0 < 10 ^ 324) by (apply pow10_pos; lia).
  assert (Hle : 2 ^ 1074 <= 10 ^ 324) by (apply Z.leb_le; vm_compute; reflexivity).
  assert (H16 : 0 < 10 ^ 16) by (apply pow10_pos; lia).
  cbv zeta.
  remember (2 ^ 1074) as Q eqn:HQ. remember (10 ^ 324) as T eqn:HT. clear HQ.
  remember (10 ^ 16) as S16 eqn:HS.
  set (W := X * T / Q).
  assert (HW : 1 <= W).
  { unfold W. apply Z.div_le_lower_bound; [exact H1074 |]. clear HT HS. nia. }
  destruct (ndigits_low W HW) as [Hn Hlow].
  assert (HWX : Q * W <= X * T) by (apply Z.mul_div_le; exact H1074).
  set (nd := ndigits W) in *. clearbody nd. clearbody W.
  replace (nd - 325 - 17 + 1) with (nd - 341) by lia.
  destruct (Z.leb_spec 0 (nd - 341)) as [Hk | Hk].
  - assert (Hd : 0 < 10 ^ (nd - 341)) by (apply pow10_pos; lia).
    split; [clear HT HS; nia |].
    assert (Hs : 10 ^ (nd - 1) = S16 * 10 ^ (nd - 341) * T).
    { rewrite HS, HT, <- !Z.pow_add_r by lia. f_equal. lia. }
    rewrite Hs in Hlow. clear HT HS Hs. nia.
  - split; [exact H1074 |].
    assert (Hd : 0 < 10 ^ (- (nd - 341))) by (apply pow10_pos; lia).
    assert (Hs : 10 ^ (nd - 1) * 10 ^ (- (nd - 341)) = S16 * T).
    { rewrite HS, HT, <- !Z.pow_add_r by lia. f_equal. lia. }
    assert (Hn1 : 0 < 10 ^ (nd - 1)) by (apply pow10_pos; lia).
    clear HT HS. nia.
Qed.

Lemma half_even_dist (q r b : Z) :
  0 <= r < b ->
  let d := half_even q r b in
  q <= d <= q + 1 /\ 2 * (d * b - (b * q + r)) <= b /\ 2 * ((b * q + r) - d * b) <= b.
Proof.
  intros Hr. cbv zeta. unfold half_even.
  destruct (Z.compare_spec (2 * r) b); [destruct (Z.even q) | |]; nia.
Qed.

(** The nearest candidate of seventeen digits reads back as the float. *)
Lemma nearest_17_reads_back :
  let '(lo, r, b, k) := candidate m e 17 in
  0 < half_even lo r b
  /\ decimal_to_float false (half_even lo r b) k = S754_finite false m e.
Proof.
  pose proof units_pos as HX. pose proof candidate_17 as H17.
  unfold candidate. cbv zeta in H17.
  assert (HXP : units m e = Z.pos m * 2 ^ (e + 1074)) by reflexivity.
  set (X := units m e) in *. clearbody X.
  set (P := 2 ^ (e + 1074)) in *.
  set (k := leading_exponent m e - 17 + 1) in *. clearbody k.
  set (a := if 0 <=? k then X else X * 10 ^ (- k)) in *.
  set (b := if 0 <=? k then 2 ^ 1074 * 10 ^ k else 2 ^ 1074) in *.
  destruct H17 as [Hb H16].
  pose proof (Z.mod_pos_bound a b Hb) as Hr.
  pose proof (Z.div_mod a b ltac:(lia)) as Ha.
  pose proof (half_even_dist (a / b) (a mod b) b Hr) as (Hd & Hup & Hlow).
  cbv zeta in Hd, Hup, Hlow. rewrite <- Ha in Hup, Hlow.
  set (d := half_even (a / b) (a mod b) b) in *. clearbody d.
  assert (H10 : 0 < 10 ^ 16) by (apply pow10_pos; lia).
  assert (Hlo : 10 ^ 16 <= a / b) by (apply Z.div_le_lower_bound; [exact Hb | lia]).
  assert (Hdpos : 0 < d) by lia.
  split; [exact Hdpos |].
  pose proof Hcan as ((_ & Hm) & (He0 & He) & Hn).
  assert (HP : 0 < P) by (apply pow2_pos; lia).
  assert (H53 : 2 ^ 53 < 10 ^ 16) by (apply Z.ltb_lt; vm_compute; reflexivity).
  assert (H5253 : 2 ^ 53 = 2 * 2 ^ 52) by reflexivity.
  set (T := if 0 <=? k then 1 else 10 ^ (- k)).
  assert (HT : 0 < T).
  { unfold T. destruct (Z.leb_spec 0 k); [lia | apply pow10_pos; lia]. }
  assert (HaT : a = X * T).
  { unfold a, T. destruct (Z.leb_spec 0 k); lia. }
  (* the spacing of the candidates is below that of the floats *)
  assert (HG : b < T * P /\ (Z.pos m = 2 ^ 52 -> 2 * b < T * P)).
  { split; [| intros Hm52]; nia. }
  destruct HG as [HG HG2].
  assert (Hround : round_units false (d * b) T
                   = S754_finite false (Z.to_pos (Z.pos m)) (e + 1074 - 1074)).
  { apply round_units_near; [exact Hcan | exact HT | fold P; nia |].
    fold P. destruct (Z.eqb_spec (Z.pos m) (2 ^ 52)) as [Hm52 | _]; cbn [andb].
    - destruct (0 <? e + 1074); [specialize (HG2 Hm52) |]; nia.
    - nia. }
  change (Z.to_pos (Z.pos m)) with m in Hround.
  replace (e + 1074 - 1074) with e in Hround by lia.
  destruct d as [| dp | dp]; [lia | | lia].
  unfold decimal_to_float. unfold b, T in Hround.
  destruct (Z.leb_spec 0 k) as [Hk | Hk].
  - rewrite <- Hround. f_equal. lia.
  - exact Hround.
Qed.

(** Every pair that [shortest] returns reads back as the float. *)
Lemma shortest_reads_back (fuel : nat) (n : Z) :
  n + Z.of_nat fuel = 17 ->
  let (d, k) := shortest m e fuel n in
  0 < d /\ decimal_to_float false d k = S754_finite false m e.
Proof.
  assert (Hpos : forall d k, decimal_to_float false d k = S754_finite false m e -> 0 < d).
  { intros [| dp | dp] k H; [discriminate | lia | discriminate]. }
  revert n. induction fuel as [| fuel IH]; intros n Hn.
  - replace n with 17 by lia. cbn [shortest].
    pose proof nearest_17_reads_back as H17.
    destruct (candidate m e 17) as [[[lo r] b] k]. exact H17.
  - cbn [shortest]. destruct (candidate m e n) as [[[lo r] b] k].
    unfold reads_back.
    destruct (float_same (decimal_to_float false lo k) _) eqn:E1;
      destruct (float_same (decimal_to_float false (lo + 1) k) _) eqn:E2;
      try apply float_same_eq in E1; try apply float_same_eq in E2.
    + unfold half_even. destruct (2 * r ?= b); [destruct (Z.even lo) | |]; eauto.
    + eauto.
    + eauto.
    + apply IH. lia.
Qed.

End ShortestTheory.

(** The sign, a zero moved from the digits to the exponent, and the
    trailing zeros that [repr] drops change nothing of what is read. *)
Lemma pack_sign (neg : bool) (m es : Z) (p : positive) (e : Z) :
  pack false m es = S754_finite false p e -> pack neg m es = S754_finite neg p e.
Proof.
  unfold pack. destruct (m =? 2 ^ 53).
  - change (2 ^ 52 =? 0) with false. cbv iota.
    destruct (2045 <? es + 1); [discriminate |]. now intros [= <- <-].
  - destruct (m =? 0); [discriminate |].
    destruct (2045 <? es); [discriminate |]. now intros [= <- <-].
Qed.

Lemma decimal_to_float_sign (neg : bool) (d k : Z) (p : positive) (e : Z) :
  decimal_to_float false d k = S754_finite false p e ->
  decimal_to_float neg d k = S754_finite neg p e.
Proof.
  unfold decimal_to_float, round_units. destruct d; [discriminate | | discriminate].
  destruct (0 <=? k); apply pack_sign.
Qed.

(** A digit more and an exponent less name the same number. *)
Lemma decimal_to_float_shift (neg : bool) (d k : Z) :
  0 < d -> decimal_to_float neg (10 * d) (k - 1) = decimal_to_float neg d k.
Proof.
  intros Hd. destruct d as [| p | p]; [lia | | lia].
  change (10 * Z.pos p) with (Z.pos (10 * p)). unfold decimal_to_float.
  generalize (2 ^ 1074). intros Q.
  destruct (Z.leb_spec 0 (k - 1)) as [H1 | H1], (Z.leb_spec 0 k) as [H2 | H2]; try lia.
  - f_equal. replace k with (1 + (k - 1)) at 2 by lia.
    rewrite Z.pow_add_r by lia. change (10 ^ 1) with 10. lia.
  - assert (k = 0) by lia. subst k. change (- (0 - 1)) with 1.
    change (10 ^ 1) with 10. change (10 ^ 0) with 1.
    replace (Z.pos (10 * p) * Q) with (10 * (Z.pos p * 1 * Q)) by lia.
    replace 10 with (10 * 1) at 2 by lia.
    apply round_units_scale; lia.
  - replace (- (k - 1)) with (1 + - k) by lia.
    rewrite Z.pow_add_r by lia. change (10 ^ 1) with 10.
    replace (Z.pos (10 * p) * Q) with (10 * (Z.pos p * Q)) by lia.
    apply round_units_scale; [lia | apply pow10_pos; lia].
Qed.

Lemma drop_zeros_same (neg : bool) (fuel : nat) (d k : Z) :
  0 < d ->
  let (d', k') := drop_zeros fuel d k in
  0 < d' /\ decimal_to_float neg d' k' = decimal_to_float neg d k.
Proof.
  revert d k. induction fuel as [| fuel IH]; intros d k Hd; cbn [drop_zeros]; [auto |].
  destruct (Z.eqb_spec (d mod 10) 0) as [Hm | Hm]; cbn [andb]; [| auto].
  destruct (Z.eqb_spec d 0) as [H0 | H0]; cbn [negb]; [lia |].
  assert (Hdiv : d = 10 * (d / 10)) by (rewrite (Z.div_mod d 10) at 1 by lia; lia).
  assert (Hq : 0 < d / 10) by lia.
  specialize (IH (d / 10) (k + 1) Hq). destruct (drop_zeros fuel (d / 10) (k + 1)) as [d' k'].
  destruct IH as [Hd' IH]. split; [exact Hd' |]. rewrite IH.
  rewrite Hdiv at 2. rewrite <- (decimal_to_float_shift neg (d / 10) (k + 1)) by exact Hq.
  f_equal. lia.
Qed.

(** The digits and the exponent that [str] writes read back as the float. *)
Lemma shortest_digits_reads_back (neg : bool) (m : positive) (e : Z) :
  canonical (Zpos m) (e + 1074) ->
  let (d, k) := shortest_digits m e in
  0 < d /\ decimal_to_float neg d k = S754_finite neg m e.
Proof.
  intros Hc. unfold shortest_digits.
  pose proof (shortest_reads_back m e Hc 16 1 eq_refl) as H.
  destruct (shortest m e 16 1) as [d k]. destruct H as [Hd H].
  pose proof (drop_zeros_same neg 17 d k Hd) as H'.
  destruct (drop_zeros 17 d k) as [d' k']. destruct H' as [Hd' H'].
  split; [exact Hd' |]. rewrite H'. now apply decimal_to_float_sign.
Qed.

(* ===================================================================== *)
(** * The text of a float is one item, and no integer                     *)
(* ===================================================================== *)

Section FloatText.

Lemma append_cons (c : ascii) (a b : string) : String c a +:+ b = String c (a +:+ b).
Proof. reflexivity. Qed.

Lemma no_space_app (a b : string) : no_space (a +:+ b) = no_space a && no_space b.
Proof.
  induction a as [| c a IH]; [reflexivity |].
  rewrite append_cons. cbn [no_space]. rewrite IH. apply andb_assoc.
Qed.

Lemma is_empty_app (a b : string) : is_empty (a +:+ b) = is_empty a && is_empty b.
Proof. destruct a; reflexivity. Qed.

Lemma has_mark_app (a b : string) : has_mark (a +:+ b) = has_mark a || has_mark b.
Proof.
  induction a as [| c a IH]; [reflexivity |].
  rewrite append_cons. cbn [has_mark]. rewrite IH. apply orb_assoc.
Qed.

Lemma no_space_zeros (n : nat) : no_space (zeros n) = true.
Proof. induction n; [reflexivity | exact IHn]. Qed.

Lemma no_space_substring (s : string) (n m : nat) :
  no_space s = true -> no_space (substring n m s) = true.
Proof.
  revert n m. induction s as [| c s IH]; intros n m H.
  - destruct n, m; reflexivity.
  - cbn [no_space] in H. apply andb_true_iff in H as [Hc Hs].
    destruct n as [| n]; [destruct m as [| m] |]; cbn [substring no_space];
      [reflexivity | rewrite Hc; now apply IH | now apply IH].
Qed.

Lemma str_of_int_no_space (n : Z) : no_space (str_of_int n) = true.
Proof.
  pose proof (str_of_int_token n) as H. unfold token in H.
  now apply andb_true_iff in H as [_ H].
Qed.

Lemma layout_no_space (ds : string) (decpt : Z) :
  no_space ds = true -> no_space (layout ds decpt) = true.
Proof.
  intros H. unfold layout.
  repeat match goal with |- context [if ?c then _ else _] => destruct c end;
    rewrite ?no_space_app, ?no_space_zeros, ?no_space_substring, ?str_of_int_no_space, ?H
      by exact H;
    reflexivity.
Qed.

Lemma layout_not_empty (ds : string) (decpt : Z) : is_empty (layout ds decpt) = false.
Proof.
  unfold layout.
  repeat match goal with |- context [if ?c then _ else _] => destruct c end;
    rewrite ?is_empty_app; cbn [is_empty]; rewrite ?andb_false_r; reflexivity.
Qed.

Lemma layout_has_mark (ds : string) (decpt : Z) : has_mark (layout ds decpt) = true.
Proof.
  unfold layout.
  repeat match goal with |- context [if ?c then _ else _] => destruct c end;
    rewrite ?has_mark_app; cbn [has_mark Ascii.eqb Bool.eqb];
    rewrite ?orb_true_r; reflexivity.
Qed.

Lemma str_of_float_token (x : spec_float) : token (str_of_float x) = true.
Proof.
  destruct x as [[|] | [|] | | neg m e]; try reflexivity.
  unfold token, str_of_float. destruct (shortest_digits m e) as [d k].
  rewrite is_empty_app, no_space_app, layout_not_empty, andb_false_r.
  rewrite layout_no_space by apply str_of_int_no_space.
  now destruct neg.
Qed.

Lemma digitpart_from_mark (s : string) (acc : Z) (n : nat) :
  has_mark s = true -> digitpart_from acc n s = None.
Proof.
  remember (String.length s) as len eqn:Hl. revert s acc n Hl.
  induction len as [len IH] using lt_wf_ind. intros s acc n Hl H.
  destruct s as [| c s]; [discriminate |]. cbn [digitpart_from has_mark] in *.
  destruct (is_digit c) eqn:Hd.
  - apply (IH (String.length s)); [subst; cbn; lia | reflexivity |].
    destruct (Ascii.eqb_spec c "."); [subst; discriminate |].
    destruct (Ascii.eqb_spec c "e"); [subst; discriminate |]. exact H.
  - destruct (Ascii.eqb_spec c "_") as [-> | _]; [| reflexivity].
    destruct s as [| d s]; [reflexivity |].
    destruct (is_digit d) eqn:Hd'; [| reflexivity].
    apply (IH (String.length s)); [subst; cbn; lia | reflexivity |].
    cbn [has_mark Ascii.eqb Bool.eqb orb] in H.
    destruct (Ascii.eqb_spec d "."); [subst; discriminate |].
    destruct (Ascii.eqb_spec d "e"); [subst; discriminate |]. exact H.
Qed.

Lemma digitpart_mark (s : string) : has_mark s = true -> digitpart s = None.
Proof.
  destruct s as [| c s]; [discriminate |]. intros H. cbn [digitpart has_mark] in *.
  destruct (is_digit c) eqn:Hd; [| reflexivity].
  apply digitpart_from_mark.
  destruct (Ascii.eqb_spec c "."); [subst; discriminate |].
  destruct (Ascii.eqb_spec c "e"); [subst; discriminate |]. exact H.
Qed.

Lemma signed_mark (s : string) : has_mark s = true -> has_mark (snd (signed s)) = true.
Proof.
  destruct s as [| c s]; [discriminate |]. intros H. cbn [signed].
  destruct (Ascii.eqb_spec c "-") as [-> | _]; [exact H |].
  destruct (Ascii.eqb_spec c "+") as [-> | _]; [exact H | exact H].
Qed.

(** [int] refuses a text with a point or an exponent mark. *)
Lemma py_int_mark (s : string) :
  no_space s = true -> has_mark s = true -> exists e, py_int s = Raise e.
Proof.
  intros Hs Hm. unfold py_int. rewrite (no_space_numeral_strip s Hs).
  pose proof (signed_mark s Hm) as H. destruct (signed s) as [neg r]. cbn [snd] in H.
  rewrite (digitpart_mark r H). eauto.
Qed.

Lemma str_of_float_has_mark (neg : bool) (m : positive) (e : Z) :
  has_mark (str_of_float (S754_finite neg m e)) = true.
Proof.
  unfold str_of_float. destruct (shortest_digits m e) as [d k].
  rewrite has_mark_app, layout_has_mark. apply orb_true_r.
Qed.

(** ** [float] reads back what [str] writes *)

Lemma append_nil_l (b : string) : EmptyString +:+ b = b.
Proof. reflexivity. Qed.

Lemma all_chars_app (p : ascii -> bool) (a b : string) :
  all_chars p (a +:+ b) = all_chars p a && all_chars p b.
Proof.
  induction a as [| c a IH]; [reflexivity |].
  rewrite append_cons. cbn [all_chars]. rewrite IH. apply andb_assoc.
Qed.

Lemma all_chars_impl (p q : ascii -> bool) (s : string) :
  (forall c, p c = true -> q c = true) -> all_chars p s = true -> all_chars q s = true.
Proof.
  intros H. induction s as [| c s IH]; [reflexivity |]. cbn [all_chars].
  intros [Hc Hs]%andb_true_iff. rewrite (H c Hc). now apply IH.
Qed.

Lemma all_chars_zeros (n : nat) : all_chars is_digit (zeros n) = true.
Proof. induction n; [reflexivity | exact IHn]. Qed.

Lemma all_chars_substring (p : ascii -> bool) (s : string) (n m : nat) :
  all_chars p s = true -> all_chars p (substring n m s) = true.
Proof.
  revert n m. induction s as [| c s IH]; intros n m H.
  - destruct n, m; reflexivity.
  - cbn [all_chars] in H. apply andb_true_iff in H as [Hc Hs].
    destruct n as [| n]; [destruct m as [| m] |]; cbn [substring all_chars];
      [reflexivity | rewrite Hc; now apply IH | now apply IH].
Qed.

Lemma all_chars_uint (u : Decimal.uint) : all_chars is_digit (string_of_uint u) = true.
Proof. induction u; cbn [string_of_uint all_chars]; try reflexivity; exact IHu. Qed.

Lemma length_append (a b : string) :
  String.length (a +:+ b) = (String.length a + String.length b)%nat.
Proof.
  induction a as [| c a IH]; [reflexivity |].
  rewrite append_cons. cbn [String.length]. now rewrite IH.
Qed.

Lemma length_zeros (n : nat) : String.length (zeros n) = n.
Proof. induction n; [reflexivity |]. cbn [zeros String.length]. now rewrite IHn. Qed.

Lemma substring_split (s : string) (j : nat) :
  (j <= String.length s)%nat ->
  substring 0 j s +:+ substring j (String.length s - j) s = s.
Proof.
  revert j. induction s as [| c s IH]; intros j Hj.
  - cbn [String.length] in Hj. assert (j = 0%nat) by lia. subst. reflexivity.
  - destruct j as [| j].
    + cbn [substring String.length Nat.sub]. rewrite append_nil_l.
      f_equal. specialize (IH 0%nat ltac:(lia)).
      destruct s; [reflexivity |]. cbn [substring] in IH. rewrite append_nil_l in IH.
      rewrite Nat.sub_0_r in IH. exact IH.
    + cbn [substring String.length Nat.sub]. rewrite append_cons. f_equal.
      apply IH. cbn [String.length] in Hj. lia.
Qed.

Lemma length_substring_0 (s : string) (j : nat) :
  (j <= String.length s)%nat -> String.length (substring 0 j s) = j.
Proof.
  revert j. induction s as [| c s IH]; intros j Hj.
  - cbn [String.length] in Hj. assert (j = 0%nat) by lia. subst. reflexivity.
  - destruct j as [| j]; [reflexivity |].
    cbn [substring String.length]. f_equal. apply IH. cbn [String.length] in Hj. lia.
Qed.

Lemma numeral_value_app (acc : Z) (a b : string) :
  numeral_value acc (a +:+ b) = numeral_value (numeral_value acc a) b.
Proof.
  revert acc. induction a as [| c a IH]; intros acc; [reflexivity |].
  rewrite append_cons. cbn [numeral_value]. apply IH.
Qed.

Lemma numeral_value_shift (acc : Z) (s : string) :
  numeral_value acc s = acc * 10 ^ Z.of_nat (String.length s) + numeral_value 0 s.
Proof.
  revert acc. induction s as [| c s IH]; intros acc.
  - cbn [numeral_value String.length]. change (10 ^ Z.of_nat 0) with 1. lia.
  - cbn [numeral_value String.length]. rewrite IH, (IH (10 * 0 + digit_value c)).
    rewrite Nat2Z.inj_succ, Z.pow_succ_r by lia. lia.
Qed.

Lemma numeral_value_zeros (acc : Z) (n : nat) :
  numeral_value acc (zeros n) = acc * 10 ^ Z.of_nat n.
Proof.
  revert acc. induction n as [| n IH]; intros acc.
  - change (10 ^ Z.of_nat 0) with 1. cbn [zeros numeral_value]. lia.
  - cbn [zeros numeral_value]. rewrite IH.
    change (digit_value "0") with 0.
    rewrite Nat2Z.inj_succ, Z.pow_succ_r by lia. lia.
Qed.

Lemma numeral_value_uint (acc : Z) (u : Decimal.uint) :
  numeral_value acc (string_of_uint u) = uint_value acc u.
Proof.
  revert acc.
  induction u as [| u IH | u IH | u IH | u IH | u IH | u IH | u IH | u IH | u IH | u IH];
    intros acc; [reflexivity | ..];
    cbn [string_of_uint numeral_value uint_value];
    match goal with
    | |- context [digit_value ?c] =>
        let v := eval vm_compute in (digit_value c) in change (digit_value c) with v
    end; apply IH.
Qed.

Lemma str_of_int_digits (d : Z) :
  0 < d ->
  all_chars is_digit (str_of_int d) = true
  /\ numeral_value 0 (str_of_int d) = d
  /\ is_empty (str_of_int d) = false.
Proof.
  intros Hd. destruct d as [| p | p]; [lia | | lia].
  unfold str_of_int. cbn [Z.to_int]. split; [apply all_chars_uint |]. split.
  - rewrite numeral_value_uint, uint_value_0, Unsigned.of_to. reflexivity.
  - apply string_of_uint_not_empty, Unsigned.to_uint_nonnil.
Qed.

Lemma digitpart_from_digits (s : string) (acc : Z) (n : nat) :
  all_chars is_digit s = true ->
  digitpart_from acc n s = Some (numeral_value acc s, (n + String.length s)%nat).
Proof.
  revert acc n. induction s as [| c s IH]; intros acc n H.
  - cbn. now rewrite Nat.add_0_r.
  - cbn [all_chars] in H. apply andb_true_iff in H as [Hc Hs].
    cbn [digitpart_from numeral_value String.length]. rewrite Hc, IH by exact Hs.
    do 2 f_equal. lia.
Qed.

Lemma digitpart_digits (s : string) :
  all_chars is_digit s = true -> is_empty s = false ->
  digitpart s = Some (numeral_value 0 s, String.length s).
Proof.
  destruct s as [| c s]; [discriminate |]. intros H _.
  cbn [all_chars] in H. apply andb_true_iff in H as [Hc Hs].
  cbn [digitpart numeral_value String.length]. rewrite Hc.
  rewrite digitpart_from_digits by exact Hs. reflexivity.
Qed.

Lemma opt_digitpart_digits (s : string) :
  all_chars is_digit s = true ->
  opt_digitpart s = Some (numeral_value 0 s, String.length s).
Proof.
  intros H. unfold opt_digitpart. destruct (is_empty s) eqn:E.
  - destruct s; [reflexivity | discriminate].
  - now apply digitpart_digits.
Qed.

Lemma split_at_none (p : ascii -> bool) (a : string) :
  all_chars (fun c => negb (p c)) a = true -> split_at p a = (a, None).
Proof.
  induction a as [| c a IH]; [reflexivity |]. cbn [all_chars split_at].
  intros [Hc Ha]%andb_true_iff. apply negb_true_iff in Hc. rewrite Hc, IH by exact Ha.
  reflexivity.
Qed.

Lemma split_at_mark (p : ascii -> bool) (a b : string) (c : ascii) :
  all_chars (fun c => negb (p c)) a = true -> p c = true ->
  split_at p (a +:+ String c b) = (a, Some b).
Proof.
  intros Ha Hc. induction a as [| c' a IH].
  - rewrite append_nil_l. cbn [split_at]. now rewrite Hc.
  - cbn [all_chars] in Ha. apply andb_true_iff in Ha as [Hc' Ha].
    apply negb_true_iff in Hc'. rewrite append_cons. cbn [split_at].
    rewrite Hc', IH by exact Ha. reflexivity.
Qed.

Lemma digit_not_mark (c : ascii) :
  is_digit c = true ->
  is_point c = false /\ is_exponent_mark c = false
  /\ Ascii.eqb c "-" = false /\ Ascii.eqb c "+" = false
  /\ Ascii.eqb (lower_char c) "i" = false /\ Ascii.eqb (lower_char c) "n" = false.
Proof.
  destruct c as [[] [] [] [] [] [] [] []]; try discriminate; intros _; repeat split.
Qed.

Lemma append_assoc (a b c : string) : (a +:+ b) +:+ c = a +:+ (b +:+ c).
Proof.
  induction a as [| x a IH]; [reflexivity |]. rewrite !append_cons. now rewrite IH.
Qed.

Lemma append_nil_r (a : string) : a +:+ EmptyString = a.
Proof. induction a as [| x a IH]; [reflexivity |]. rewrite append_cons. now rewrite IH. Qed.

Lemma length_0_empty (s : string) : String.length s = 0%nat -> s = EmptyString.
Proof. destruct s; [reflexivity | discriminate]. Qed.

Lemma py_float_parts (neg : bool) (t r mant ip : string) (ex fp : option string)
    (c : ascii) (r' : string) (iv fv ev : Z) (ni nf : nat) :
  no_space t = true ->
  signed t = (neg, r) ->
  r = String c r' -> is_digit c = true ->
  split_at is_exponent_mark r = (mant, ex) ->
  split_at is_point mant = (ip, fp) ->
  opt_digitpart ip = Some (iv, ni) ->
  opt_digitpart (match fp with Some f => f | None => EmptyString end) = Some (fv, nf) ->
  exponent_value ex = Some ev ->
  (ni + nf)%nat <> 0%nat ->
  py_float t = Return (decimal_to_float neg (iv * 10 ^ Z.of_nat nf + fv) (ev - Z.of_nat nf)).
Proof.
  intros Ht Hs Hr Hc Hm Hp Hi Hf He Hn.
  unfold py_float. rewrite (no_space_numeral_strip t Ht), Hs.
  destruct (digit_not_mark c Hc) as (_ & _ & _ & _ & Hi' & Hn').
  assert (E1 : String.eqb (lower r) "inf" = false).
  { rewrite Hr. cbn [lower]. cbn [String.eqb]. now rewrite Hi'. }
  assert (E2 : String.eqb (lower r) "infinity" = false).
  { rewrite Hr. cbn [lower]. cbn [String.eqb]. now rewrite Hi'. }
  assert (E3 : String.eqb (lower r) "nan" = false).
  { rewrite Hr. cbn [lower]. cbn [String.eqb]. now rewrite Hn'. }
  cbv zeta. rewrite E1, E2, E3. cbn [orb].
  rewrite Hm, Hp, Hi, Hf, He.
  destruct (Nat.eqb_spec (ni + nf) 0); [contradiction | reflexivity].
Qed.

Lemma digits_no_point (s : string) :
  all_chars is_digit s = true -> all_chars (fun c => negb (is_point c)) s = true.
Proof.
  apply all_chars_impl. intros c Hc.
  destruct (digit_not_mark c Hc) as (-> & _). reflexivity.
Qed.

Lemma digits_no_exponent_mark (s : string) :
  all_chars is_digit s = true -> all_chars (fun c => negb (is_exponent_mark c)) s = true.
Proof.
  apply all_chars_impl. intros c Hc.
  destruct (digit_not_mark c Hc) as (_ & -> & _). reflexivity.
Qed.

Lemma digits_no_space (s : string) : all_chars is_digit s = true -> no_space s = true.
Proof.
  induction s as [| c s IH]; [reflexivity |]. cbn [all_chars no_space].
  intros [Hc Hs]%andb_true_iff. rewrite (IH Hs), andb_true_r.
  destruct c as [[] [] [] [] [] [] [] []]; try discriminate; reflexivity.
Qed.

Lemma signed_digit (neg : bool) (c : ascii) (r : string) :
  is_digit c = true ->
  signed ((if neg then "-" else EmptyString) +:+ String c r) = (neg, String c r).
Proof.
  intros Hc. destruct neg; [reflexivity |]. rewrite append_nil_l. cbn [signed].
  destruct (digit_not_mark c Hc) as (_ & _ & -> & -> & _). reflexivity.
Qed.

Lemma substring_head (c : ascii) (s : string) (j : nat) :
  substring 0 (S j) (String c s) = String c (substring 0 j s).
Proof. reflexivity. Qed.

Lemma py_float_layout (neg : bool) (ds : string) (decpt : Z) :
  all_chars is_digit ds = true -> is_empty ds = false -> 0 < numeral_value 0 ds ->
  py_float ((if neg then "-" else EmptyString) +:+ layout ds decpt)
  = Return (decimal_to_float neg (numeral_value 0 ds)
              (decpt - Z.of_nat (String.length ds))).
Proof.
  intros Hds Hne Hpos.
  assert (Hsp : no_space ((if neg then "-" else EmptyString) +:+ layout ds decpt) = true).
  { rewrite no_space_app, layout_no_space by now apply digits_no_space. now destruct neg. }
  destruct ds as [| c0 ds0] eqn:Eds; [discriminate |]. rewrite <- Eds in *.
  assert (Hc0 : is_digit c0 = true).
  { rewrite Eds in Hds. cbn [all_chars] in Hds. now apply andb_true_iff in Hds as [? _]. }
  assert (Hlen : (1 <= String.length ds)%nat) by (rewrite Eds; cbn [String.length]; lia).
  set (d := numeral_value 0 ds) in *.
  set (len := String.length ds) in *.
  unfold layout in *. fold len in Hsp |- *.
  destruct ((-4 <? decpt) && (decpt <=? 16)) eqn:Hrange.
  - apply andb_true_iff in Hrange as [Hlo Hhi].
    apply Z.ltb_lt in Hlo. apply Z.leb_le in Hhi.
    destruct (Z.leb_spec decpt 0) as [Hle | Hgt].
    + (* 0.000ddd *)
      set (z := Z.to_nat (- decpt)) in *.
      change ("0." +:+ zeros z +:+ ds) with (String "0" (String "." (zeros z +:+ ds))) in *.
      assert (Hx : all_chars is_digit (zeros z +:+ ds) = true)
        by now rewrite all_chars_app, all_chars_zeros, Hds.
      rewrite (py_float_parts neg _ _ (String "0" (String "." (zeros z +:+ ds)))
                 "0" None (Some (zeros z +:+ ds)) "0" _ 0 d 0 1 (z + len)
                 Hsp (signed_digit neg "0" _ eq_refl) eq_refl eq_refl).
      * f_equal. f_equal. unfold z. lia.
      * apply split_at_none. cbn [all_chars]. now rewrite digits_no_exponent_mark.
      * reflexivity.
      * reflexivity.
      * rewrite (opt_digitpart_digits _ Hx), numeral_value_app, numeral_value_zeros.
        rewrite length_append, length_zeros. reflexivity.
      * reflexivity.
      * lia.
    + destruct (Z.leb_spec (Z.of_nat len) decpt) as [Hint | Hfrac].
      * (* ddd000.0 *)
        set (z := Z.to_nat (decpt - Z.of_nat len)) in *.
        assert (Hx : all_chars is_digit (ds +:+ zeros z) = true)
          by now rewrite all_chars_app, all_chars_zeros, Hds.
        assert (Hshape : ds +:+ zeros z +:+ ".0" = (ds +:+ zeros z) +:+ String "." "0")
          by now rewrite append_assoc.
        assert (Hhead : ds +:+ zeros z +:+ ".0" = String c0 (ds0 +:+ zeros z +:+ ".0"))
          by now rewrite Eds, append_cons.
        rewrite Hhead in Hsp |- *.
        rewrite (py_float_parts neg _ _ (ds +:+ zeros z +:+ ".0")
                   (ds +:+ zeros z) None (Some "0") c0 _ (d * 10 ^ Z.of_nat z) 0 0
                   (len + z) 1
                   Hsp (signed_digit neg _ _ Hc0) eq_refl Hc0).
        -- f_equal.
           replace (d * 10 ^ Z.of_nat z * 10 ^ Z.of_nat 1 + 0)
             with (10 * (d * 10 ^ Z.of_nat z)) by (change (10 ^ Z.of_nat 1) with 10; lia).
           change (0 - Z.of_nat 1) with (0 - 1).
           rewrite decimal_to_float_shift by (apply Z.mul_pos_pos; [lia | apply pow10_pos; lia]).
           assert (Hk : decpt - Z.of_nat len = Z.of_nat z) by (unfold z; lia).
           rewrite Hk. unfold decimal_to_float.
           assert (Hz : 0 < d * 10 ^ Z.of_nat z)
             by (apply Z.mul_pos_pos; [lia | apply pow10_pos; lia]).
           destruct (d * 10 ^ Z.of_nat z) as [| q | q] eqn:Eq; [lia | | lia].
           destruct d as [| p | p]; [lia | | lia].
           change (0 <=? 0) with true. cbv iota.
           destruct (Z.leb_spec 0 (Z.of_nat z)); [| lia].
           rewrite <- Eq. f_equal. change (10 ^ 0) with 1. lia.
        -- rewrite <- Hhead. apply split_at_none. rewrite Hshape, all_chars_app.
           rewrite (digits_no_exponent_mark _ Hx). reflexivity.
        -- rewrite Hshape. apply split_at_mark; [now apply digits_no_point | reflexivity].
        -- rewrite (opt_digitpart_digits _ Hx), numeral_value_app, numeral_value_zeros.
           rewrite length_append, length_zeros. reflexivity.
        -- reflexivity.
        -- reflexivity.
        -- lia.
      * (* dd.ddd *)
        set (j := Z.to_nat decpt) in *.
        assert (Hj : (1 <= j <= len)%nat) by (unfold j; lia).
        replace (Z.to_nat (Z.of_nat len - decpt)) with (len - j)%nat in * by (unfold j; lia).
        set (s1 := substring 0 j ds) in *. set (s2 := substring j (len - j) ds) in *.
        assert (Hsplit : s1 +:+ s2 = ds) by (apply substring_split; lia).
        assert (Hl1 : String.length s1 = j) by (apply length_substring_0; lia).
        assert (Hl2 : String.length s2 = (len - j)%nat).
        { pose proof (f_equal String.length Hsplit) as H. rewrite length_append in H.
          fold len in H. lia. }
        assert (Hd1 : all_chars is_digit s1 = true) by now apply all_chars_substring.
        assert (Hd2 : all_chars is_digit s2 = true) by now apply all_chars_substring.
        assert (Hhead : exists r', s1 +:+ "." +:+ s2 = String c0 r').
        { unfold s1. destruct j as [| j']; [lia |]. rewrite Eds, substring_head, append_cons.
          eauto. }
        destruct Hhead as [r' Hhead].
        rewrite (py_float_parts neg _ (s1 +:+ "." +:+ s2) (s1 +:+ "." +:+ s2)
                   s1 None (Some s2) c0 r' (numeral_value 0 s1) (numeral_value 0 s2) 0
                   j (len - j)
                   Hsp).
        -- f_equal. f_equal; [| lia].
           transitivity (numeral_value 0 (s1 +:+ s2)); [| now rewrite Hsplit].
           rewrite numeral_value_app.
           rewrite (numeral_value_shift (numeral_value 0 s1) s2), Hl2. reflexivity.
        -- rewrite Hhead. apply signed_digit, Hc0.
        -- exact Hhead.
        -- exact Hc0.
        -- apply split_at_none. rewrite all_chars_app.
           rewrite (digits_no_exponent_mark _ Hd1).
           change ("." +:+ s2) with (String "." s2). cbn [all_chars].
           now rewrite (digits_no_exponent_mark _ Hd2).
        -- change ("." +:+ s2) with (String "." s2).
           apply split_at_mark; [now apply digits_no_point | reflexivity].
        -- rewrite (opt_digitpart_digits _ Hd1), Hl1. reflexivity.
        -- rewrite (opt_digitpart_digits _ Hd2), Hl2. reflexivity.
        -- reflexivity.
        -- lia.
  - (* d.ddde+XX *)
    cbv zeta in *.
    set (x := decpt - 1) in *.
    assert (Hx : 0 < Z.abs x).
    { apply andb_false_iff in Hrange as [H | H];
        [apply Z.ltb_ge in H | apply Z.leb_gt in H]; unfold x; lia. }
    destruct (str_of_int_digits _ Hx) as (Hxd & Hxv & Hxe).
    set (xs := str_of_int (Z.abs x)) in *.
    set (xt := if Z.abs x <? 10 then "0" +:+ xs else xs) in *.
    assert (Hxt : digitpart xt = Some (Z.abs x, String.length xt)).
    { unfold xt. destruct (Z.abs x <? 10).
      - change ("0" +:+ xs) with (String "0" xs).
        rewrite digitpart_digits;
          [| cbn [all_chars]; rewrite Hxd; reflexivity | reflexivity].
        cbn [numeral_value]. change (10 * 0 + digit_value "0") with 0. now rewrite Hxv.
      - rewrite digitpart_digits by assumption. now rewrite Hxv. }
    set (s1 := substring 0 1 ds) in *.
    set (s2 := substring 1 (len - 1) ds) in *.
    replace (Z.to_nat (Z.of_nat len - 1)) with (len - 1)%nat in * by lia.
    fold s2 in Hsp |- *.
    assert (Hsplit : s1 +:+ s2 = ds) by (apply substring_split; lia).
    assert (Hl1 : String.length s1 = 1%nat) by (apply length_substring_0; lia).
    assert (Hl2 : String.length s2 = (len - 1)%nat).
    { pose proof (f_equal String.length Hsplit) as H. rewrite length_append in H.
      fold len in H. lia. }
    assert (Hd1 : all_chars is_digit s1 = true) by now apply all_chars_substring.
    assert (Hd2 : all_chars is_digit s2 = true) by now apply all_chars_substring.
    assert (Hs1 : s1 = String c0 EmptyString).
    { unfold s1. rewrite Eds, substring_head. now destruct ds0. }
    set (sg := if x <? 0 then "-" else "+") in *.
    set (fr := if 1 <? Z.of_nat len then "." +:+ s2 else EmptyString) in *.
    assert (Hex : exponent_value (Some (sg +:+ xt)) = Some x).
    { unfold exponent_value, sg. destruct (Z.ltb_spec x 0).
      - change ("-" +:+ xt) with (String "-" xt). cbn [signed Ascii.eqb Bool.eqb].
        rewrite Hxt. f_equal. lia.
      - change ("+" +:+ xt) with (String "+" xt). cbn [signed Ascii.eqb Bool.eqb].
        rewrite Hxt. f_equal. lia. }
    assert (Hshape : s1 +:+ fr +:+ "e" +:+ sg +:+ xt = (s1 +:+ fr) +:+ String "e" (sg +:+ xt))
      by now rewrite append_assoc.
    assert (Hhead : s1 +:+ fr +:+ "e" +:+ sg +:+ xt
                    = String c0 (fr +:+ "e" +:+ sg +:+ xt))
      by now rewrite Hs1, append_cons, append_nil_l.
    assert (Hfr : all_chars (fun c => negb (is_exponent_mark c)) (s1 +:+ fr) = true).
    { rewrite all_chars_app, (digits_no_exponent_mark _ Hd1). unfold fr.
      destruct (1 <? Z.of_nat len); [| reflexivity].
      change ("." +:+ s2) with (String "." s2). cbn [all_chars].
      now rewrite (digits_no_exponent_mark _ Hd2). }
    destruct (Z.ltb_spec 1 (Z.of_nat len)) as [Hmany | Hone].
    + rewrite (py_float_parts neg _ (s1 +:+ fr +:+ "e" +:+ sg +:+ xt) (s1 +:+ fr)
                 s1 (Some (sg +:+ xt)) (Some s2) c0 (fr +:+ "e" +:+ sg +:+ xt)
                 (numeral_value 0 s1) (numeral_value 0 s2) x 1 (len - 1)
                 Hsp).
      * f_equal. f_equal; [| unfold x; lia].
        transitivity (numeral_value 0 (s1 +:+ s2)); [| now rewrite Hsplit].
           rewrite numeral_value_app.
        rewrite (numeral_value_shift (numeral_value 0 s1) s2), Hl2. reflexivity.
      * rewrite Hhead. apply signed_digit, Hc0.
      * exact Hhead.
      * exact Hc0.
      * rewrite Hshape. apply split_at_mark; [exact Hfr | reflexivity].
      * unfold fr. change ("." +:+ s2) with (String "." s2).
        apply split_at_mark; [now apply digits_no_point | reflexivity].
      * rewrite (opt_digitpart_digits _ Hd1), Hl1. reflexivity.
      * rewrite (opt_digitpart_digits _ Hd2), Hl2. reflexivity.
      * exact Hex.
      * lia.
    + assert (Hs2 : s2 = EmptyString) by (apply length_0_empty; lia).
      assert (Hds1 : s1 = ds) by (rewrite <- Hsplit, Hs2; now rewrite append_nil_r).
      rewrite (py_float_parts neg _ (s1 +:+ fr +:+ "e" +:+ sg +:+ xt) (s1 +:+ fr)
                 (s1 +:+ fr) (Some (sg +:+ xt)) None c0 (fr +:+ "e" +:+ sg +:+ xt)
                 d 0 x 1 0
                 Hsp).
      * f_equal. f_equal; [change (10 ^ Z.of_nat 0) with 1; lia | unfold x; lia].
      * rewrite Hhead. apply signed_digit, Hc0.
      * exact Hhead.
      * exact Hc0.
      * rewrite Hshape. apply split_at_mark; [exact Hfr | reflexivity].
      * apply split_at_none. unfold fr. rewrite append_nil_r. now apply digits_no_point.
      * unfold fr. rewrite append_nil_r, (opt_digitpart_digits _ Hd1), Hl1, Hds1. reflexivity.
      * reflexivity.
      * exact Hex.
      * lia.
Qed.

Lemma decimal_to_float_ok (neg : bool) (m e : Z) : float_ok (decimal_to_float neg m e).
Proof.
  unfold decimal_to_float. destruct m as [| p | p]; [exact I | | exact I].
  assert (HQ : 0 < 2 ^ 1074) by (apply pow2_pos; lia).
  revert HQ. generalize (2 ^ 1074). intros Q HQ.
  destruct (Z.leb_spec 0 e).
  - apply round_units_ok; [| lia].
    assert (0 < 10 ^ e) by (apply pow10_pos; lia). nia.
  - apply round_units_ok; [nia | apply pow10_pos; lia].
Qed.

Lemma py_float_ok (s : string) (x : spec_float) : py_float s = Return x -> float_ok x.
Proof.
  unfold py_float. destruct (signed (numeral_strip s)) as [neg r].
  destruct (_ || _); [now intros [= <-] |].
  destruct (String.eqb _ _); [now intros [= <-] |].
  destruct (split_at is_exponent_mark r) as [mant ex].
  destruct (split_at is_point mant) as [ip fp].
  destruct (opt_digitpart ip) as [[iv ni] |]; [| discriminate].
  destruct (opt_digitpart _) as [[fv nf] |]; [| discriminate].
  destruct (exponent_value ex) as [ev |]; [| discriminate].
  destruct (Nat.eqb _ _); [discriminate |].
  intros [= <-]. apply decimal_to_float_ok.
Qed.

Lemma py_float_str_of_float (x : spec_float) :
  float_ok x -> py_float (str_of_float x) = Return x.
Proof.
  destruct x as [[|] | [|] | | neg m e]; intros Hx; try reflexivity.
  cbn [float_ok] in Hx. unfold str_of_float.
  pose proof (shortest_digits_reads_back neg m e Hx) as H.
  destruct (shortest_digits m e) as [d k]. destruct H as [Hd Hback].
  destruct (str_of_int_digits d Hd) as (Hds & Hv & Hne).
  rewrite py_float_layout by (rewrite ?Hv; assumption).
  rewrite Hv. f_equal. rewrite <- Hback. f_equal. lia.
Qed.

End FloatText.

(* ===================================================================== *)
(** * io_handler.py: [parse_input]                                        *)
(* ===================================================================== *)

Section Parsing.
Import io_handler.

Lemma py_int_raises (s : string) (e : exn) :
  py_int s = Raise e -> catches ValueError e = true.
Proof.
  unfold py_int. destruct (signed (numeral_strip s)) as [neg r].
  destruct (digitpart r) as [[v k] |]; [discriminate |].
  intros [= <-]. reflexivity.
Qed.

Lemma py_float_raises (s : string) (e : exn) :
  py_float s = Raise e -> catches ValueError e = true.
Proof.
  unfold py_float. destruct (signed (numeral_strip s)) as [neg r].
  destruct (_ || _); [discriminate |].
  destruct (String.eqb _ _); [discriminate |].
  destruct (split_at is_exponent_mark r) as [mant ex].
  destruct (split_at is_point mant) as [ip fp].
  destruct (opt_digitpart ip) as [[iv ni] |]; [| intros [= <-]; reflexivity].
  destruct (opt_digitpart _) as [[fv nf] |]; [| intros [= <-]; reflexivity].
  destruct (exponent_value ex) as [ev |]; [| intros [= <-]; reflexivity].
  destruct (Nat.eqb _ _); [intros [= <-]; reflexivity | discriminate].
Qed.

(** An item is always kept: as an integer, a float or the text itself. *)
Lemma parse_item_value (item : string) : parse_item item = Return (item_value item).
Proof.
  unfold parse_item, item_value.
  destruct (py_int item) as [n | e] eqn:Hi; [reflexivity |].
  rewrite (py_int_raises _ _ Hi).
  destruct (py_float item) as [x | e'] eqn:Hf; [reflexivity |].
  now rewrite (py_float_raises _ _ Hf).
Qed.

Lemma parse_items_values (items : list string) (data : list Value) :
  parse_items items data = Return (data ++ map item_value items).
Proof.
  revert data. induction items as [| item items IH]; intros data; simpl.
  - now rewrite app_nil_r.
  - rewrite parse_item_value. simpl. rewrite IH, <- app_assoc. reflexivity.
Qed.

(** [parse_input] never raises: it returns the values of the items that
    [split] finds. *)
Lemma parse_input_values (s : string) :
  parse_input s = Return (map item_value (split s)).
Proof.
  unfold parse_input. rewrite strip_blank.
  destruct (is_empty s) eqn:Es.
  - apply is_empty_true in Es. subst. reflexivity.
  - simpl. destruct (all_space s) eqn:Eb.
    + now rewrite split_blank.
    + apply parse_items_values.
Qed.

Lemma reparses_iff (v : Value) : reparses v <-> map item_value (split (str v)) = [v].
Proof.
  unfold reparses. rewrite parse_input_values. split; [now intros [= ->] | now intros ->].
Qed.

Lemma item_value_token (t : string) (v : Value) :
  token t = true -> item_value t = v -> map item_value (split t) = [v].
Proof. intros Ht <-. now rewrite token_split. Qed.

Lemma reparses_int (n : Z) : reparses (VInt n).
Proof.
  apply reparses_iff. apply item_value_token; [apply str_of_int_token |].
  unfold item_value. cbn [str]. now rewrite py_int_str_of_int.
Qed.

Lemma reparses_special (x : spec_float) :
  match x with S754_finite _ _ _ => False | _ => True end -> reparses (VFloat x).
Proof. destruct x as [[|] | [|] | |]; intros H; try destruct H; reflexivity. Qed.

(** A float of the format is read back by [parse_input] from its own
    text: the text is one item, [int] refuses it and [float] reads the
    float that wrote it. *)
Lemma reparses_float (x : spec_float) : float_ok x -> reparses (VFloat x).
Proof.
  intros H. destruct x as [neg | neg | | neg m e];
    [apply reparses_special; exact I .. |].
  apply reparses_iff. apply item_value_token; [apply str_of_float_token |].
  unfold item_value. cbn [str].
  destruct (py_int_mark (str_of_float (S754_finite neg m e))) as [e' ->].
  - pose proof (str_of_float_token (S754_finite neg m e)) as Ht. unfold token in Ht.
    now apply andb_true_iff in Ht as [_ Ht].
  - apply str_of_float_has_mark.
  - now rewrite (py_float_str_of_float _ H).
Qed.

(** The floats that [parse_input] makes are floats of the format. *)
Lemma item_value_float_ok (item : string) (x : spec_float) :
  item_value item = VFloat x -> float_ok x.
Proof.
  unfold item_value. destruct (py_int item); [discriminate |].
  destruct (py_float item) as [y | err] eqn:Hy; [| discriminate].
  intros [= <-]. now apply py_float_ok with item.
Qed.

Lemma item_value_text (item t : string) : item_value item = VStr t -> t = item.
Proof.
  unfold item_value. destruct (py_int item); [discriminate |].
  destruct (py_float item); [discriminate |]. now intros [= <-].
Qed.

(** A text that [parse_input] kept as text is read back as itself. *)
Lemma reparses_parsed_text (s t : string) :
  In (VStr t) (map item_value (split s)) -> reparses (VStr t).
Proof.
  intros (item & Hv & Hin)%in_map_iff.
  pose proof (item_value_text _ _ Hv) as ->.
  apply reparses_iff. apply item_value_token; [| exact Hv].
  pose proof (split_tokens s) as H. rewrite List.Forall_forall in H. now apply H.
Qed.

(** Values that [str] names, written with single blanks between them,
    are read back. *)
Lemma parse_input_join (l : list Value) :
  Forall reparses l -> parse_input (join " " (map str l)) = Return l.
Proof.
  intros H. rewrite parse_input_values, split_join. f_equal.
  induction H as [| v l Hv _ IH]; [reflexivity |].
  cbn [map concat]. rewrite map_app, IH.
  apply reparses_iff in Hv. now rewrite Hv.
Qed.

End Parsing.

(* ===================================================================== *)
(** * The ordering of values                                              *)
(* ===================================================================== *)

Section Ordering.

Lemma SFcompare_antisym (x y : spec_float) :
  SFcompare y x = opp_comparison (SFcompare x y).
Proof.
  destruct x as [sx | sx | | sx mx ex], y as [sy | sy | | sy my ey];
    try destruct sx; try destruct sy; try reflexivity;
    cbn [SFcompare opp_comparison]; f_equal;
    rewrite (Z.compare_antisym ey ex); destruct (ey ?= ex); cbn [CompOpp];
    try reflexivity.
  - rewrite CompOpp_involutive. symmetry. apply (ZC4 mx my).
  - apply (ZC4 my mx).
Qed.

Lemma opp_comparison_involutive (c : option comparison) :
  opp_comparison (opp_comparison c) = c.
Proof. destruct c as [[| |] |]; reflexivity. Qed.

(** Swapping the operands swaps the answer. *)
Lemma three_way_antisym (a b : Value) :
  three_way b a = option_map opp_comparison (three_way a b).
Proof.
  destruct a as [n | x | s], b as [k | y | t]; cbn [three_way option_map];
    try reflexivity; f_equal.
  - cbn [opp_comparison]. f_equal. apply Z.compare_antisym.
  - now rewrite opp_comparison_involutive.
  - apply SFcompare_antisym.
  - cbn [opp_comparison]. f_equal. apply String.compare_antisym.
Qed.

(** Two values compare exactly when both are text or both are numbers. *)
Lemma three_way_defined (a b : Value) :
  is_text a = is_text b -> exists c, three_way a b = Some c.
Proof. destruct a, b; cbn; intros H; try discriminate; eauto. Qed.

Lemma three_way_undefined (a b : Value) :
  is_text a <> is_text b -> three_way a b = None.
Proof. destruct a, b; cbn; intros H; try reflexivity; congruence. Qed.

Lemma rich_compare_returns (o : rel_op) (a b : Value) :
  is_text a = is_text b -> exists r, rich_compare o a b = Return r.
Proof.
  intros H. unfold rich_compare. destruct (three_way_defined a b H) as [c ->]. eauto.
Qed.

Lemma rich_compare_raises (o : rel_op) (a b : Value) :
  is_text a <> is_text b ->
  exists e, rich_compare o a b = Raise e /\ class_of e = TypeError.
Proof.
  intros H. unfold rich_compare. rewrite (three_way_undefined a b H). eauto.
Qed.

Lemma rich_compare_inv (o : rel_op) (a b : Value) (r : bool) :
  rich_compare o a b = Return r -> exists c, three_way a b = Some c /\ r = holds o c.
Proof.
  unfold rich_compare. destruct (three_way a b) as [c |]; [| discriminate].
  intros [= <-]. eauto.
Qed.

(** [a < b] excludes [b < a]. *)
Lemma value_lt_asym (a b : Value) : value_lt a b = Return true -> value_lt b a = Return false.
Proof.
  intros (c & Hc & Hr)%rich_compare_inv. unfold value_lt, rich_compare.
  rewrite three_way_antisym, Hc. cbn [option_map]. f_equal.
  destruct c as [[| |] |]; cbn in *; congruence.
Qed.

(** [a <= b] excludes [b < a]. *)
Lemma value_le_not_gt (a b : Value) : value_le a b = Return true -> value_lt b a = Return false.
Proof.
  intros (c & Hc & Hr)%rich_compare_inv. unfold value_lt, rich_compare.
  rewrite three_way_antisym, Hc. cbn [option_map]. f_equal.
  destruct c as [[| |] |]; cbn in *; congruence.
Qed.

(** [a >= b] excludes [a < b]. *)
Lemma value_ge_not_lt (a b : Value) : value_ge a b = Return true -> value_lt a b = Return false.
Proof.
  intros (c & Hc & Hr)%rich_compare_inv. unfold value_lt, rich_compare.
  rewrite Hc. f_equal. destruct c as [[| |] |]; cbn in *; congruence.
Qed.

(** Apart from NaN, two values that compare are ordered one way or the
    other. *)
Lemma three_way_total (a b : Value) :
  is_text a = is_text b -> is_nan a = false -> is_nan b = false ->
  exists c, three_way a b = Some (Some c).
Proof.
  destruct a as [n | x | s], b as [k | y | t]; cbn [is_text is_nan three_way];
    intros Ht Ha Hb; try discriminate; eauto.
  - destruct y; try discriminate; cbn; eauto.
  - destruct x; try discriminate; cbn; eauto.
  - destruct x, y; try discriminate; cbn; eauto.
Qed.

(** Where the order is total, "not smaller than the one before" is [<=]. *)
Lemma no_inversion_le (a b : Value) :
  is_text a = is_text b -> is_nan a = false -> is_nan b = false ->
  no_inversion a b -> value_le a b = Return true.
Proof.
  intros Ht Ha Hb. destruct (three_way_total a b Ht Ha Hb) as [c Hc].
  unfold no_inversion, value_lt, value_le, rich_compare.
  rewrite three_way_antisym, Hc. cbn [option_map opp_comparison].
  destruct c; cbn; congruence.
Qed.

End Ordering.

(* ===================================================================== *)
(** * [sorted]                                                            *)
(* ===================================================================== *)

Section Sorted.

Lemma insert_perm (x : Value) (l r : list Value) :
  insert x l = Return r -> Permutation r (x :: l).
Proof.
  revert r. induction l as [| y l IH]; intros r; cbn [insert].
  - now intros [= <-].
  - destruct (value_lt y x) as [[|] | e]; cbn [bind]; [| now intros [= <-] | discriminate].
    destruct (insert x l) as [r' | e]; cbn [bind]; [| discriminate].
    intros [= <-]. rewrite (IH r' eq_refl). apply perm_swap.
Qed.

Lemma insertion_sort_perm (l r : list Value) :
  insertion_sort l = Return r -> Permutation r l.
Proof.
  revert r. induction l as [| x l IH]; intros r; cbn [insertion_sort].
  - now intros [= <-].
  - destruct (insertion_sort l) as [r' | e]; cbn [bind]; [| discriminate].
    intros H%insert_perm. rewrite H. constructor. now apply IH.
Qed.

Lemma insert_returns (x : Value) (l : list Value) :
  (forall y, In y l -> is_text y = is_text x) -> exists r, insert x l = Return r.
Proof.
  induction l as [| y l IH]; intros H; cbn [insert]; [eauto |].
  destruct (rich_compare_returns op_lt y x) as [b Hb]; [apply H; now left |].
  unfold value_lt. rewrite Hb. cbn [bind]. destruct b; [| eauto].
  destruct IH as [r ->]; [intros z Hz; apply H; now right |]. cbn [bind]. eauto.
Qed.

Lemma insert_raises (x y : Value) (l : list Value) :
  is_text y <> is_text x ->
  exists e, insert x (y :: l) = Raise e /\ class_of e = TypeError.
Proof.
  intros H. cbn [insert]. unfold value_lt.
  destruct (rich_compare_raises op_lt y x H) as (e & -> & He). cbn [bind]. eauto.
Qed.

Lemma mixed_intro (l : list Value) (a b : Value) :
  In a l -> In b l -> is_text a <> is_text b -> mixed l = true.
Proof.
  intros Ha Hb Hab. unfold mixed, is_number.
  apply andb_true_iff; split; apply existsb_exists.
  - destruct (is_text a) eqn:Ea; [now exists a |].
    exists b. split; [exact Hb |]. destruct (is_text b); congruence.
  - destruct (is_text a) eqn:Ea; [| exists a; split; [exact Ha | now rewrite Ea]].
    exists b. split; [exact Hb |]. destruct (is_text b); [congruence | reflexivity].
Qed.

Lemma mixed_elim (l : list Value) :
  mixed l = true -> exists a b, In a l /\ In b l /\ is_text a = true /\ is_text b = false.
Proof.
  unfold mixed, is_number. intros [Ha Hb]%andb_true_iff.
  apply existsb_exists in Ha as (a & Ha & Ta). apply existsb_exists in Hb as (b & Hb & Tb).
  exists a, b. repeat split; try assumption. now apply negb_true_iff in Tb.
Qed.

Lemma unmixed_alike (l : list Value) (a b : Value) :
  mixed l = false -> In a l -> In b l -> is_text a = is_text b.
Proof.
  intros Hm Ha Hb. destruct (bool_decide (is_text a = is_text b)) eqn:E.
  - now apply bool_decide_eq_true in E.
  - apply bool_decide_eq_false in E. rewrite (mixed_intro l a b Ha Hb E) in Hm. discriminate.
Qed.

Lemma unmixed_tail (x : Value) (l : list Value) : mixed (x :: l) = false -> mixed l = false.
Proof.
  intros H. destruct (mixed l) eqn:E; [| reflexivity].
  destruct (mixed_elim l E) as (a & b & Ha & Hb & Ta & Tb).
  rewrite (mixed_intro (x :: l) a b) in H; [discriminate | now right | now right | congruence].
Qed.

(** Without text next to numbers, every comparison is defined and the
    sort returns. *)
Lemma insertion_sort_returns (l : list Value) :
  mixed l = false -> exists r, insertion_sort l = Return r.
Proof.
  induction l as [| x l IH]; intros H; cbn [insertion_sort]; [eauto |].
  destruct (IH (unmixed_tail x l H)) as [r Hr]. rewrite Hr. cbn [bind].
  apply insert_returns. intros y Hy.
  apply (unmixed_alike (x :: l)); [exact H | right | now left].
  eapply Permutation_in; [apply (insertion_sort_perm _ _ Hr) | exact Hy].
Qed.

(** With text next to numbers, some comparison raises [TypeError]. *)
Lemma insertion_sort_raises (l : list Value) :
  mixed l = true -> exists e, insertion_sort l = Raise e /\ class_of e = TypeError.
Proof.
  induction l as [| x l IH]; intros H; [discriminate |]. cbn [insertion_sort].
  destruct (mixed l) eqn:E.
  - destruct (IH eq_refl) as (e & -> & He). cbn [bind]. eauto.
  - destruct (insertion_sort_returns l E) as [r Hr]. rewrite Hr. cbn [bind].
    pose proof (insertion_sort_perm _ _ Hr) as Hp.
    destruct (mixed_elim _ H) as (a & b & Ha & Hb & Ta & Tb).
    assert (Hl : exists y, In y l /\ is_text y <> is_text x).
    { destruct Ha as [<- | Ha], Hb as [<- | Hb].
      - congruence.
      - exists b. split; [exact Hb | congruence].
      - exists a. split; [exact Ha | congruence].
      - rewrite (mixed_intro l a b Ha Hb) in E; [discriminate | congruence]. }
    destruct Hl as (y & Hy & Hyx).
    destruct r as [| z r'].
    + apply Permutation_nil in Hp. subst. destruct Hy.
    + apply insert_raises.
      rewrite (unmixed_alike l z y E); [exact Hyx | | exact Hy].
      eapply Permutation_in; [exact Hp | now left].
Qed.

Lemma mixed_rev (l : list Value) : mixed (rev l) = mixed l.
Proof.
  destruct (mixed l) eqn:E.
  - destruct (mixed_elim _ E) as (a & b & Ha & Hb & Ta & Tb).
    apply (mixed_intro _ a b); [now apply in_rev in Ha | now apply in_rev in Hb | congruence].
  - destruct (mixed (rev l)) eqn:E'; [| reflexivity].
    destruct (mixed_elim _ E') as (a & b & Ha & Hb & Ta & Tb).
    rewrite (mixed_intro l a b) in E; [discriminate | now apply in_rev | now apply in_rev | congruence].
Qed.

(** [sorted] returns a permutation or raises [TypeError], and raises
    exactly on text next to numbers. *)
Lemma py_sorted_returns (l : list Value) (reverse : bool) :
  mixed l = false -> exists r, py_sorted l reverse = Return r /\ Permutation r l.
Proof.
  intros H. unfold py_sorted. destruct reverse.
  - destruct (insertion_sort_returns (rev l)) as [r Hr]; [now rewrite mixed_rev |].
    rewrite Hr. cbn [bind]. eexists; split; [reflexivity |].
    rewrite <- Permutation_rev, (insertion_sort_perm _ _ Hr). symmetry. apply Permutation_rev.
  - destruct (insertion_sort_returns l H) as [r Hr]. rewrite Hr.
    eexists; split; [reflexivity | now apply insertion_sort_perm].
Qed.

Lemma py_sorted_raises (l : list Value) (reverse : bool) :
  mixed l = true -> exists e, py_sorted l reverse = Raise e /\ class_of e = TypeError.
Proof.
  intros H. unfold py_sorted. destruct reverse.
  - destruct (insertion_sort_raises (rev l)) as (e & -> & He); [now rewrite mixed_rev |].
    cbn [bind]. eauto.
  - now apply insertion_sort_raises.
Qed.

Lemma insert_no_inversion (x : Value) (l r : list Value) :
  Sorted no_inversion l -> insert x l = Return r -> Sorted no_inversion r.
Proof.
  revert r. induction l as [| y l IH]; intros r Hs; cbn [insert].
  - intros [= <-]. repeat constructor.
  - destruct (value_lt y x) as [[|] | e] eqn:Hyx; cbn [bind]; [| | discriminate].
    + destruct (insert x l) as [r' | e] eqn:Hi; cbn [bind]; [| discriminate].
      intros [= <-]. inversion Hs as [| ? ? Hl Hd]; subst.
      constructor; [now apply IH |].
      destruct l as [| z l']; cbn [insert] in Hi.
      * injection Hi as <-. constructor. now apply value_lt_asym.
      * destruct (value_lt z x) as [[|] | e]; cbn [bind] in Hi; [| | discriminate].
        -- destruct (insert x l'); cbn [bind] in Hi; [| discriminate].
           injection Hi as <-. constructor. now inversion Hd.
        -- injection Hi as <-. constructor. now apply value_lt_asym.
    + intros [= <-]. constructor; [exact Hs | now constructor].
Qed.

(** What the sort returns has no element smaller than the one before. *)
Lemma insertion_sort_no_inversion (l r : list Value) :
  insertion_sort l = Return r -> Sorted no_inversion r.
Proof.
  revert r. induction l as [| x l IH]; intros r; cbn [insertion_sort].
  - intros [= <-]. constructor.
  - destruct (insertion_sort l) as [r' | e]; cbn [bind]; [| discriminate].
    apply insert_no_inversion. now apply IH.
Qed.

(** A list without inversion is returned as it is. *)
Lemma insertion_sort_fixed (l : list Value) :
  Sorted no_inversion l -> insertion_sort l = Return l.
Proof.
  induction 1 as [| x l Hs IH Hd]; [reflexivity |].
  cbn [insertion_sort]. rewrite IH. cbn [bind].
  destruct Hd as [| y l Hxy]; [reflexivity |].
  cbn [insert]. unfold no_inversion in Hxy. rewrite Hxy. reflexivity.
Qed.

Lemma Sorted_mono {A} (R R' : A -> A -> Prop) (l : list A) :
  (forall a b, R a b -> R' a b) -> Sorted R l -> Sorted R' l.
Proof.
  intros H. induction 1 as [| x l Hs IH Hd]; constructor; [exact IH |].
  destruct Hd; constructor; auto.
Qed.

Lemma Sorted_snoc {A} (R : A -> A -> Prop) (l : list A) (x : A) :
  Sorted R l -> (forall y, last l = Some y -> R y x) -> Sorted R (l ++ [x]).
Proof.
  induction 1 as [| a l Hs IH Hd]; intros Hx; cbn [app]; [repeat constructor |].
  constructor.
  - apply IH. intros y Hy. apply Hx. destruct l; [discriminate | exact Hy].
  - destruct Hd as [| b l Hab]; cbn [app]; constructor; [now apply Hx | exact Hab].
Qed.

Lemma Sorted_rev {A} (R : A -> A -> Prop) (l : list A) :
  Sorted R l -> Sorted (fun a b => R b a) (rev l).
Proof.
  induction 1 as [| a l Hs IH Hd]; [constructor |].
  cbn [rev]. apply Sorted_snoc; [exact IH |].
  intros y Hy. destruct Hd as [| b l Hab]; [discriminate |].
  cbn [rev] in Hy. rewrite last_snoc in Hy. now injection Hy as <-.
Qed.

End Sorted.

(* ===================================================================== *)
(** * sorting.py: [sort_data] and [is_sorted]                             *)
(* ===================================================================== *)

Section Sorting.
Import sorting.

(** [is_sorted] checks the neighbours from the left and stops at the first
    pair out of order, or at the first comparison that raises. *)
Lemma is_sorted_cons (x y : Value) (rest : list Value) (reverse : bool) :
  is_sorted (x :: y :: rest) reverse =
  let* b := in_order reverse x y in
  if b then is_sorted (y :: rest) reverse else Return false.
Proof.
  unfold is_sorted. cbn [length].
  change (S (S (length rest)) <=? 1)%nat with false. cbv iota.
  replace (S (S (length rest)) - 1)%nat with (S (length rest)) by lia.
  cbn [seq map py_all]. unfold in_order.
  change (getitem (x :: y :: rest) 0) with (Return x).
  change (getitem (x :: y :: rest) (0 + 1)) with (Return y). cbn [bind].
  destruct (if reverse then value_ge x y else value_le x y) as [[|] | e]; cbn [bind];
    try reflexivity.
  destruct rest as [| z rest]; [reflexivity |].
  cbn [length]. change (S (S (length rest)) <=? 1)%nat with false. cbv iota.
  replace (S (S (length rest)) - 1)%nat with (S (length rest)) by lia.
  rewrite <- seq_shift, map_map. reflexivity.
Qed.

Lemma is_sorted_neighbours (data : list Value) (reverse : bool) :
  is_sorted data reverse = Return true ->
  Sorted (fun a b => in_order reverse a b = Return true) data.
Proof.
  induction data as [| x data IH]; [constructor |].
  destruct data as [| y rest]; [repeat constructor |].
  rewrite is_sorted_cons.
  destruct (in_order reverse x y) as [[|] | e] eqn:E; cbn [bind]; try discriminate.
  intros H. constructor; [now apply IH | now constructor].
Qed.

Lemma neighbours_is_sorted (data : list Value) (reverse : bool) :
  Sorted (fun a b => in_order reverse a b = Return true) data ->
  is_sorted data reverse = Return true.
Proof.
  induction 1 as [| x data Hs IH Hd]; [reflexivity |].
  destruct Hd as [| y rest Hxy]; [reflexivity |].
  rewrite is_sorted_cons, Hxy. exact IH.
Qed.

Lemma Sorted_mono_in {A} (R R' : A -> A -> Prop) (l : list A) :
  (forall a b, In a l -> In b l -> R a b -> R' a b) -> Sorted R l -> Sorted R' l.
Proof.
  intros H Hs. induction Hs as [| x l Hs IH Hd]; constructor.
  - apply IH. intros a b Ha Hb. apply H; now right.
  - destruct Hd as [| y l Hxy]; constructor. apply H; [now left | right; now left | exact Hxy].
Qed.

(** Without text next to numbers and without NaN, what the sort returned
    is a list that [is_sorted] accepts. *)
Lemma no_inversion_is_sorted (l : list Value) :
  mixed l = false -> (forall v, In v l -> is_nan v = false) ->
  Sorted no_inversion l -> is_sorted l false = Return true.
Proof.
  intros Hm Hn Hs. apply neighbours_is_sorted. revert Hs. apply Sorted_mono_in.
  intros a b Ha Hb. cbn [in_order].
  apply no_inversion_le; [now apply (unmixed_alike l) | now apply Hn | now apply Hn].
Qed.

(** [sorted] leaves a list that [is_sorted] accepts as it is. *)
Lemma py_sorted_fixed (data : list Value) (reverse : bool) :
  is_sorted data reverse = Return true -> py_sorted data reverse = Return data.
Proof.
  intros H%is_sorted_neighbours. unfold py_sorted. destruct reverse; cbn [in_order] in H.
  - rewrite insertion_sort_fixed; [cbn [bind]; now rewrite rev_involutive |].
    apply Sorted_rev in H. revert H. apply Sorted_mono.
    intros a b. apply value_ge_not_lt.
  - apply insertion_sort_fixed. revert H. apply Sorted_mono.
    intros a b. apply value_le_not_gt.
Qed.

(** [sort_data] never raises; it returns a permutation of its argument. *)
Lemma sort_data_returns (data : list Value) (reverse : bool) :
  exists out r, sort_data data reverse = (out, Return r) /\ Permutation r data.
Proof.
  unfold sort_data. destruct data as [| x l]; [now exists [], [] |].
  destruct (mixed (x :: l)) eqn:E.
  - destruct (py_sorted_raises _ reverse E) as (e & -> & He).
    unfold catches. rewrite He. cbn. eauto.
  - destruct (py_sorted_returns _ reverse E) as (r & -> & Hp). eauto.
Qed.

Lemma sort_data_unmixed (data : list Value) (reverse : bool) :
  mixed data = false ->
  exists r, py_sorted data reverse = Return r /\ sort_data data reverse = ([], Return r).
Proof.
  intros E. destruct (py_sorted_returns _ reverse E) as (r & Hr & Hp).
  exists r. split; [exact Hr |]. unfold sort_data. rewrite Hr.
  destruct data; [| reflexivity].
  symmetry in Hp. apply Permutation_nil in Hp. now subst.
Qed.

Lemma alloc_keeps (l : list Value) (h : heap) (r : loc) (h' : heap) :
  alloc l h = (r, h') ->
  h' !! r = Some l /\ h !! r = None /\ forall k zs, h !! k = Some zs -> h' !! k = Some zs.
Proof.
  unfold alloc. intros [= <- <-].
  assert (Hf : h !! fresh (dom h) = None) by (apply not_elem_of_dom, is_fresh).
  split; [apply lookup_insert_eq | split; [exact Hf |]].
  intros k zs Hk. rewrite lookup_insert_ne; [exact Hk | congruence].
Qed.

(** On list objects, [sort_data] returns what it returns on their
    contents, in a new object or in the caller's own, and writes to no
    object of the caller. *)
Lemma sort_data_obj_spec (h : heap) (data : loc) (xs : list Value) (reverse : bool) :
  h !! data = Some xs ->
  exists ret ys,
    sort_data_obj h data reverse = Some ret
    /\ sort_data xs reverse = (printed ret, Return ys)
    /\ heap_after ret !! result ret = Some ys
    /\ (forall k zs, h !! k = Some zs -> heap_after ret !! k = Some zs).
Proof.
  intros Hd. unfold sort_data_obj, sort_data. rewrite Hd.
  destruct xs as [| x l].
  - destruct (alloc [] h) as [r h'] eqn:Ea. apply alloc_keeps in Ea as (Hr & _ & Hk).
    eexists (mk_returned [] r h'), []. cbn. auto.
  - destruct (mixed (x :: l)) eqn:E.
    + destruct (py_sorted_raises _ reverse E) as (e & -> & He).
      unfold catches. rewrite He.
      change (issubclass TypeError TypeError) with true. cbv iota.
      eexists (mk_returned _ data h), (x :: l). cbn. auto.
    + destruct (py_sorted_returns _ reverse E) as (r & -> & Hp).
      destruct (alloc r h) as [k h'] eqn:Ea. apply alloc_keeps in Ea as (Hr & _ & Hk).
      eexists (mk_returned [] k h'), r. cbn. auto.
Qed.

End Sorting.

(* ===================================================================== *)
(** * network_handler.py: the worker and the client                       *)
(* ===================================================================== *)

Section Network.
Import network_handler.

(** Exchanges after which the worker is back in [recv] come first; the
    rest of the run is that of the exchanges that follow. *)
Lemma serve_app (h : option handler) (address : string) (before rest : list exchange)
    (ev : list event) :
  serve h address before = (ev, Waiting) ->
  serve h address (before ++ rest) =
  let (ev', e) := serve h address rest in (ev ++ ev', e).
Proof.
  revert ev. induction before as [| x before IH]; intros ev; cbn [serve app].
  - intros [= <-]. now destruct (serve h address rest).
  - destruct (running x); cbn [negb]; [| discriminate].
    destruct (received x) as [raw | e]; [| discriminate].
    destruct (is_empty (strip raw)); [discriminate |].
    destruct (io_bind _ _) as [ev0 [u | e]]; [| discriminate].
    destruct (serve h address before) as [ev1 e1] eqn:E1.
    intros [= <- ->]. rewrite (IH ev1 eq_refl).
    destruct (serve h address rest) as [ev2 e2]. now rewrite app_assoc.
Qed.

Lemma handled_app (a b : list event) : handled (a ++ b) = handled a ++ handled b.
Proof.
  induction a as [| ev a IH]; [reflexivity |].
  destruct ev; cbn [app handled]; rewrite IH; reflexivity.
Qed.

Lemma handled_prints (out : list string) : handled (map Printed out) = [].
Proof. induction out; [reflexivity | exact IHout]. Qed.

(** The worker hands to the handler only trimmed text that is not empty. *)
Lemma serve_handled (h : option handler) (address : string) (script : list exchange) :
  Forall (fun request => exists raw, request = strip raw /\ is_empty (strip raw) = false)
         (handled (fst (serve h address script))).
Proof.
  induction script as [| x script IH]; cbn [serve]; [constructor |].
  destruct (running x); cbn [negb]; [| constructor].
  destruct (received x) as [raw | e]; [| constructor].
  destruct (is_empty (strip raw)) eqn:E; [constructor |].
  unfold io_bind at 1 2, call.
  assert (Hr : Forall (fun request => exists raw, request = strip raw
                                      /\ is_empty (strip raw) = false)
                      (handled (fst (respond h (strip raw))))).
  { unfold respond. destruct h as [f |]; [| constructor].
    destruct (f (strip raw)) as [out r]. cbn [fst handled]. rewrite handled_prints.
    constructor; [eauto | constructor]. }
  destruct (respond h (strip raw)) as [hev [response | e]]; cbn [fst] in Hr.
  - destruct (send_fails x) as [e |].
    + cbn [fst]. rewrite !handled_app. cbn [handled app]. now rewrite app_nil_r.
    + destruct (serve h address script) as [ev' e']. cbn [fst] in *.
      rewrite !handled_app. cbn [handled app]. rewrite app_nil_r.
      apply Forall_app. split; assumption.
  - cbn [fst]. rewrite handled_app. exact Hr.
Qed.

Lemma handle_client_connection_handled (self : NetworkServer) (address : string)
    (script : list exchange) (close_fails : option exn) :
  handled (fst (handle_client_connection self address script close_fails)) =
  handled (fst (serve (client_handler self) address script)).
Proof.
  unfold handle_client_connection.
  destruct (serve (client_handler self) address script) as [ev e]. cbn [fst].
  destruct e as [| e |]; [| | reflexivity];
    each_branch; cbn [fst app handled]; rewrite ?handled_app; cbn [handled]; now rewrite ?app_nil_r.
Qed.

(** [send_data] calls [close] only once everything else has succeeded. *)
Lemma send_data_close (self : NetworkClient) (data : string) (timeout : Z) (net : network) :
  In Close (fst (send_data self data timeout net)) ->
  socket_fails net = None /\ 0 <= timeout /\ connect_fails net = None
  /\ client_send_fails net = None /\ exists raw, client_received net = Return raw.
Proof.
  unfold send_data, settimeout, call, io_bind.
  destruct (socket_fails net) as [e |].
  { each_branch; cbn; intuition discriminate. }
  destruct (Z.ltb_spec timeout 0).
  { each_branch; cbn; intuition discriminate. }
  destruct (connect_fails net) as [e |].
  { each_branch; cbn; intuition discriminate. }
  destruct (client_send_fails net) as [e |].
  { each_branch; cbn; intuition discriminate. }
  destruct (client_received net) as [raw | e].
  2:{ each_branch; cbn; intuition discriminate. }
  intros _. repeat split; eauto.
Qed.

End Network.

(* ===================================================================== *)
(** * More on the items, the order and the worker                         *)
(* ===================================================================== *)

Section MoreParsing.
Import sorting io_handler network_handler.

(** Every value that [parse_input] makes is read back from its own text. *)
Lemma item_value_reparses (item : string) : token item = true -> reparses (item_value item).
Proof.
  intros Ht. destruct (item_value item) as [n | x | t] eqn:E.
  - apply reparses_int.
  - apply reparses_float. now apply item_value_float_ok with item.
  - pose proof (item_value_text _ _ E) as ->.
    apply reparses_iff. now apply item_value_token.
Qed.

Lemma parsed_reparse (s : string) : Forall reparses (map item_value (split s)).
Proof.
  apply Forall_map. pose proof (split_tokens s) as H.
  induction H as [| t ts Ht _ IH]; constructor; [now apply item_value_reparses | exact IH].
Qed.

(** White space of any kind separates items. *)
Lemma split_app_space (a b : string) (c : ascii) :
  is_space c = true -> split (a +:+ String c b) = split a ++ split b.
Proof.
  intros Hc. induction a as [| x a IH].
  - rewrite append_nil_l, split_cons, Hc. reflexivity.
  - rewrite append_cons, !split_cons. destruct (is_space x) eqn:E; [exact IH |].
    destruct a as [| y a].
    + rewrite append_nil_l, Hc, split_cons, Hc. reflexivity.
    + rewrite append_cons in *. rewrite IH. destruct (is_space y) eqn:E'; [reflexivity |].
      destruct (split_head y a E') as (t & ts & ->). reflexivity.
Qed.

End MoreParsing.

Section MoreSorting.
Import sorting io_handler network_handler.

Lemma unmixed_perm (l r : list Value) :
  Permutation r l -> mixed l = false -> mixed r = false.
Proof.
  intros Hp Hm. destruct (mixed r) eqn:E; [| reflexivity].
  destruct (mixed_elim r E) as (a & b & Ha & Hb & Ta & Tb).
  rewrite (mixed_intro l a b) in Hm; [discriminate | | | congruence];
    now apply (Permutation_in _ Hp).
Qed.

Lemma no_inversion_ge (a b : Value) :
  is_text a = is_text b -> is_nan a = false -> is_nan b = false ->
  no_inversion b a -> value_ge a b = Return true.
Proof.
  intros Ht Ha Hb. destruct (three_way_total a b Ht Ha Hb) as [c Hc].
  unfold no_inversion, value_lt, value_ge, rich_compare. rewrite Hc.
  destruct c; cbn [holds]; congruence.
Qed.

(** What [sorted] returns on a list without NaN is in the order asked. *)
Lemma py_sorted_is_sorted (data r : list Value) (reverse : bool) :
  mixed data = false -> (forall v, In v data -> is_nan v = false) ->
  py_sorted data reverse = Return r -> is_sorted r reverse = Return true.
Proof.
  intros Hm Hn Hr. unfold py_sorted in Hr. destruct reverse.
  - destruct (insertion_sort (rev data)) as [r' | e] eqn:Hs; [| discriminate].
    cbn [bind] in Hr. injection Hr as <-.
    pose proof (insertion_sort_perm _ _ Hs) as Hp.
    pose proof (insertion_sort_no_inversion _ _ Hs) as Ho.
    assert (Hin : forall v, In v r' -> In v data).
    { intros v Hv. apply in_rev. now apply (Permutation_in _ Hp). }
    apply neighbours_is_sorted. apply Sorted_rev in Ho. revert Ho.
    apply Sorted_mono_in. intros a b Ha%in_rev Hb%in_rev. cbn [in_order].
    apply no_inversion_ge; [| now apply Hn, Hin | now apply Hn, Hin].
    apply (unmixed_alike data); [exact Hm | now apply Hin | now apply Hin].
  - pose proof (insertion_sort_perm _ _ Hr) as Hp.
    apply no_inversion_is_sorted.
    + now apply (unmixed_perm data).
    + intros v Hv. apply Hn. now apply (Permutation_in _ Hp).
    + now apply insertion_sort_no_inversion with data.
Qed.

(** Sorting twice is sorting once: on a list without NaN,
    [sort_data] applied to its own result returns it again, with the same
    output. *)
Lemma sort_data_again (data : list Value) (reverse : bool) (out : stdout)
    (r : list Value) :
  (forall v, In v data -> is_nan v = false) ->
  sort_data data reverse = (out, Return r) ->
  sort_data r reverse = (out, Return r).
Proof.
  intros Hn Hs. destruct (mixed data) eqn:E.
  - destruct (py_sorted_raises data reverse E) as (e & He & Hc).
    unfold sort_data in Hs. destruct data as [| x l]; [discriminate |].
    rewrite He in Hs. unfold catches in Hs. rewrite Hc in Hs.
    cbn [issubclass subclass_upto exn_class_eqb orb] in Hs.
    injection Hs as <- <-. unfold sort_data. rewrite He. unfold catches. rewrite Hc.
    reflexivity.
  - destruct (sort_data_unmixed data reverse E) as (r' & Hr & Hs').
    rewrite Hs' in Hs. injection Hs as <- <-.
    pose proof (py_sorted_is_sorted data r' reverse E Hn Hr) as Hok.
    unfold sort_data. rewrite (py_sorted_fixed r' reverse Hok).
    destruct r'; reflexivity.
Qed.

End MoreSorting.

Section MoreIsSorted.
Import sorting io_handler network_handler.

Lemma rich_compare_raise_inv (o : rel_op) (a b : Value) (e : exn) :
  rich_compare o a b = Raise e -> class_of e = TypeError /\ is_text a <> is_text b.
Proof.
  unfold rich_compare. destruct (three_way a b) as [c |] eqn:E; [discriminate |].
  intros [= <-]. split; [reflexivity |].
  destruct a, b; cbn in E |- *; congruence.
Qed.

Lemma in_order_raise_inv (reverse : bool) (a b : Value) (e : exn) :
  in_order reverse a b = Raise e -> class_of e = TypeError /\ is_text a <> is_text b.
Proof. destruct reverse; apply rich_compare_raise_inv. Qed.

Lemma three_way_nan (a b : Value) :
  is_text a = false -> is_text b = false -> is_nan a || is_nan b = true ->
  three_way a b = Some None.
Proof.
  destruct a as [n | x | s], b as [k | y | t]; cbn [is_text is_nan orb three_way];
    try discriminate; intros _ _ H.
  - destruct y; try discriminate. reflexivity.
  - destruct x; try discriminate. reflexivity.
  - destruct x, y; try discriminate; reflexivity.
Qed.

Lemma in_order_nan (reverse : bool) (a b : Value) :
  is_text a = false -> is_text b = false -> is_nan a || is_nan b = true ->
  in_order reverse a b = Return false.
Proof.
  intros Ha Hb Hn. unfold in_order, value_ge, value_le, rich_compare.
  rewrite (three_way_nan a b Ha Hb Hn). now destruct reverse.
Qed.

Lemma is_sorted_raise_inv (data : list Value) (reverse : bool) (e : exn) :
  is_sorted data reverse = Raise e ->
  class_of e = TypeError /\ mixed data = true.
Proof.
  induction data as [| x data IH]; [discriminate |].
  destruct data as [| y rest]; [discriminate |].
  rewrite is_sorted_cons.
  destruct (in_order reverse x y) as [[|] | e'] eqn:Hxy; cbn [bind]; [| discriminate |].
  - intros H. destruct (IH H) as [Hc Hm]. split; [exact Hc |].
    destruct (mixed_elim _ Hm) as (a & b & Ha & Hb & Ta & Tb).
    apply (mixed_intro _ a b); [now right | now right | congruence].
  - intros [= <-]. destruct (in_order_raise_inv _ _ _ _ Hxy) as [Hc Hne].
    split; [exact Hc |]. apply (mixed_intro _ x y); [now left | right; now left | exact Hne].
Qed.

Lemma is_sorted_returns (data : list Value) (reverse : bool) :
  mixed data = false -> exists b, is_sorted data reverse = Return b.
Proof.
  intros Hm. destruct (is_sorted data reverse) as [b | e] eqn:E; [eauto |].
  destruct (is_sorted_raise_inv _ _ _ E) as [_ H]. congruence.
Qed.

Lemma value_ge_le (a b : Value) :
  value_ge a b = Return true <-> value_le b a = Return true.
Proof.
  unfold value_ge, value_le, rich_compare. rewrite (three_way_antisym a b).
  destruct (three_way a b) as [[[| |] |] |]; cbn; split; congruence.
Qed.

Lemma Sorted_rev_inv {A} (R : A -> A -> Prop) (l : list A) :
  Sorted (fun a b => R b a) (rev l) -> Sorted R l.
Proof.
  intros H. apply Sorted_rev in H. rewrite rev_involutive in H. exact H.
Qed.

Lemma is_sorted_rev_true (data : list Value) :
  is_sorted data true = Return true <-> is_sorted (rev data) false = Return true.
Proof.
  split; intros H.
  - apply neighbours_is_sorted. apply is_sorted_neighbours in H.
    apply Sorted_rev in H. revert H. apply Sorted_mono.
    intros a b. cbn [in_order]. apply value_ge_le.
  - apply neighbours_is_sorted. apply is_sorted_neighbours in H.
    apply Sorted_rev_inv. revert H. apply Sorted_mono.
    intros a b. cbn [in_order]. apply value_ge_le.
Qed.

End MoreIsSorted.

Section MoreNetwork.
Import sorting io_handler network_handler.

(** One pass of the worker's loop on a request that is served. *)
Lemma serve_step (h : option handler) (address : string) (x : exchange)
    (script : list exchange) (raw : string) :
  running x = true -> received x = Return raw -> is_empty (strip raw) = false ->
  serve h address (x :: script) =
  let start := [Recv 1024; Printed ("Received from " +:+ address +:+ ": " +:+ strip raw)] in
  match respond h (strip raw) with
  | (hev, Raise e) => (start ++ hev, Raised e)
  | (hev, Return response) =>
      match send_fails x with
      | Some e => (start ++ hev ++ [Send (response +:+ nl)], Raised e)
      | None =>
          let (ev', e) := serve h address script in
          ((start ++ hev ++ [Send (response +:+ nl)]) ++ ev', e)
      end
  end.
Proof.
  intros Hr Hx He. cbn [serve]. rewrite Hr, Hx, He. cbn [negb].
  unfold io_bind at 1 2, call.
  destruct (respond h (strip raw)) as [hev [response | e]]; [| reflexivity].
  destruct (send_fails x) as [e |]; reflexivity.
Qed.

Lemma respond_no_close (h : option handler) (data : string) :
  ~ In Close (fst (respond h data)).
Proof.
  unfold respond. destruct h as [f |]; [| intros []].
  destruct (f data) as [out r]. cbn [fst]. intros [H | H]; [discriminate |].
  apply in_map_iff in H as (l & H & _). discriminate.
Qed.

Lemma serve_no_close (h : option handler) (address : string) (script : list exchange) :
  ~ In Close (fst (serve h address script)).
Proof.
  induction script as [| x script IH]; [intros [] |].
  destruct (running x) eqn:Hr; [| cbn [serve]; rewrite Hr; intros []].
  destruct (received x) as [raw | e] eqn:Hx.
  2:{ cbn [serve]. rewrite Hr, Hx. cbn. intros [H | []]. discriminate. }
  destruct (is_empty (strip raw)) eqn:He.
  { cbn [serve]. rewrite Hr, Hx, He. cbn. intros [H | []]. discriminate. }
  rewrite (serve_step h address x script raw Hr Hx He). cbv zeta.
  pose proof (respond_no_close h (strip raw)) as Hh.
  destruct (respond h (strip raw)) as [hev [response | e]]; cbn [fst] in Hh.
  - destruct (send_fails x) as [e |].
    + cbn [fst]. rewrite !in_app_iff. cbn [In]. intuition discriminate.
    + destruct (serve h address script) as [ev' e']. cbn [fst] in *.
      rewrite !in_app_iff. cbn [In]. intuition discriminate.
  - cbn [fst]. rewrite !in_app_iff. cbn [In]. intuition discriminate.
Qed.

Lemma sent_app (a b : list event) : sent (a ++ b) = sent a ++ sent b.
Proof.
  induction a as [| ev a IH]; [reflexivity |].
  destruct ev; cbn [app sent]; rewrite IH; reflexivity.
Qed.

Lemma sent_prints (out : list string) : sent (map Printed out) = [].
Proof. induction out; [reflexivity | exact IHout]. Qed.

(** The handler of the sorting server answers every request: it never
    raises. *)
Lemma sorting_handler_returns (request : string) :
  exists out response, main.sorting_handler request = (out, Return response).
Proof.
  unfold main.sorting_handler, create_sorting_handler, main.parse_function.
  rewrite parse_input_values.
  destruct (map item_value (split request)) as [| v data]; [eauto |].
  destruct (sort_data_returns (v :: data) false) as (out & r & -> & _). eauto.
Qed.

(** Under a handler that never raises, the texts given to [send] are the
    responses to the requests handed to the handler, one for one. *)
Lemma serve_answers (f : handler) (address : string) (script : list exchange) :
  (forall request, exists out response, f request = (out, Return response)) ->
  Forall2 (fun request text =>
             exists out response, f request = (out, Return response)
                                  /\ text = response +:+ nl)
          (handled (fst (serve (Some f) address script)))
          (sent (fst (serve (Some f) address script))).
Proof.
  intros Hf. induction script as [| x script IH]; [constructor |].
  destruct (running x) eqn:Hr; [| cbn [serve]; rewrite Hr; constructor].
  destruct (received x) as [raw | e] eqn:Hx.
  2:{ cbn [serve]. rewrite Hr, Hx. constructor. }
  destruct (is_empty (strip raw)) eqn:He.
  { cbn [serve]. rewrite Hr, Hx, He. constructor. }
  rewrite (serve_step (Some f) address x script raw Hr Hx He). cbv zeta.
  cbn [respond]. destruct (Hf (strip raw)) as (out & response & Hresp). rewrite Hresp.
  assert (Hone : exists out0 response0,
             f (strip raw) = (out0, Return response0)
             /\ response +:+ nl = response0 +:+ nl) by eauto.
  destruct (send_fails x) as [e |].
  - cbn [fst]. rewrite !handled_app, !sent_app. cbn [handled sent app].
    rewrite handled_prints, sent_prints. cbn [handled sent app].
    constructor; [exact Hone | constructor].
  - destruct (serve (Some f) address script) as [ev' e']. cbn [fst] in *.
    rewrite !handled_app, !sent_app. cbn [handled sent app].
    rewrite handled_prints, sent_prints. cbn [handled sent app].
    constructor; [exact Hone | exact IH].
Qed.

Lemma handle_client_connection_sent (self : NetworkServer) (address : string)
    (script : list exchange) (close_fails : option exn) :
  sent (fst (handle_client_connection self address script close_fails)) =
  sent (fst (serve (client_handler self) address script)).
Proof.
  unfold handle_client_connection.
  destruct (serve (client_handler self) address script) as [ev e]. cbn [fst].
  destruct e as [| e |]; each_branch; cbn [fst sent];
    rewrite ?sent_app; cbn [sent]; rewrite ?app_nil_r; reflexivity.
Qed.

Lemma rstrip_app_space (a : string) (c : ascii) :
  is_space c = true -> rstrip (a +:+ String c EmptyString) = rstrip a.
Proof.
  intros Hc. induction a as [| x a IH].
  - rewrite append_nil_l. cbn [rstrip]. now rewrite Hc.
  - rewrite append_cons. cbn [rstrip]. now rewrite IH.
Qed.

Lemma rstrip_app (a b : string) :
  is_empty (rstrip b) = false -> rstrip (a +:+ b) = a +:+ rstrip b.
Proof.
  intros Hb. induction a as [| x a IH]; [reflexivity |].
  rewrite !append_cons. cbn [rstrip]. rewrite IH.
  replace (is_empty (a +:+ rstrip b)) with false; [now rewrite andb_false_r |].
  symmetry. rewrite is_empty_app, Hb. apply andb_false_r.
Qed.

(** What [lstrip] and [rstrip] take away is white space, at one end. *)
Lemma lstrip_parts (s : string) :
  exists lead, s = lead +:+ lstrip s /\ all_space lead = true.
Proof.
  induction s as [| c s (lead & Hs & Hl)]; [now exists EmptyString |].
  cbn [lstrip]. destruct (is_space c) eqn:E.
  - exists (String c lead). rewrite append_cons, <- Hs. cbn [all_space].
    now rewrite E, Hl.
  - now exists EmptyString.
Qed.

Lemma rstrip_parts (s : string) :
  exists trail, s = rstrip s +:+ trail /\ all_space trail = true.
Proof.
  induction s as [| c s (trail & Hs & Ht)]; [now exists EmptyString |].
  cbn [rstrip]. destruct (is_space c && is_empty (rstrip s)) eqn:E.
  - apply andb_true_iff in E as [Hc He]. exists (String c s). split; [reflexivity |].
    cbn [all_space]. rewrite rstrip_blank in He. now rewrite Hc, He.
  - exists trail. rewrite append_cons, <- Hs. now split.
Qed.

Lemma strip_parts (s : string) :
  exists lead trail,
    s = lead +:+ strip s +:+ trail /\ all_space lead = true /\ all_space trail = true.
Proof.
  destruct (lstrip_parts s) as (lead & Hs & Hl).
  destruct (rstrip_parts (lstrip s)) as (trail & Hr & Ht).
  exists lead, trail. unfold strip. now rewrite <- Hr.
Qed.

(** What [rstrip] leaves does not end, and what [strip] leaves neither
    begins nor ends, with white space. *)
Lemma rstrip_last (s : string) (c : ascii) :
  last_char (rstrip s) = Some c -> is_space c = false.
Proof.
  revert c. induction s as [| a s IH]; intros c; [discriminate |].
  cbn [rstrip]. destruct (is_space a && is_empty (rstrip s)) eqn:E; [discriminate |].
  cbn [last_char]. destruct (rstrip s) as [| b r] eqn:R.
  - intros [= <-]. cbn [is_empty] in E. now rewrite andb_true_r in E.
  - apply IH.
Qed.

Lemma strip_trimmed (s : string) : trimmed (strip s) = true.
Proof.
  unfold trimmed. destruct (strip_head s) as [-> | (c & r & E & Hc)]; [reflexivity |].
  rewrite E. cbn [first_char]. rewrite <- E.
  destruct (last_char (strip s)) as [b |] eqn:L; [| reflexivity].
  unfold strip in L. apply rstrip_last in L. now rewrite Hc, L.
Qed.

(** No other text is trimmed and stands in [s] between white space. *)
Lemma lstrip_lead (lead s : string) :
  all_space lead = true -> lstrip (lead +:+ s) = lstrip s.
Proof.
  induction lead as [| c lead IH]; [reflexivity |].
  cbn [all_space]. intros [Hc Hl]%andb_true_iff.
  rewrite append_cons. cbn [lstrip]. rewrite Hc. now apply IH.
Qed.

Lemma rstrip_trail (s trail : string) :
  all_space trail = true -> rstrip (s +:+ trail) = rstrip s.
Proof.
  intros Ht. induction s as [| c s IH].
  - rewrite append_nil_l. apply is_empty_true. now rewrite rstrip_blank.
  - rewrite append_cons. cbn [rstrip]. now rewrite IH.
Qed.

Lemma rstrip_ended (s : string) (c : ascii) :
  last_char s = Some c -> is_space c = false -> rstrip s = s.
Proof.
  intros Hl Hc. induction s as [| a s IH]; [reflexivity |].
  cbn [last_char] in Hl. cbn [rstrip]. destruct s as [| b r].
  - injection Hl as ->. cbn [rstrip]. now rewrite Hc.
  - rewrite (IH Hl). now rewrite andb_false_r.
Qed.

Lemma strip_of_parts (lead text trail : string) :
  all_space lead = true -> all_space trail = true -> trimmed text = true ->
  strip (lead +:+ text +:+ trail) = text.
Proof.
  intros Hl Ht Hx. unfold strip. rewrite (lstrip_lead _ _ Hl).
  destruct text as [| a r].
  - rewrite append_nil_l.
    assert (E : lstrip trail = EmptyString)
      by (apply is_empty_true; now rewrite lstrip_blank).
    now rewrite E.
  - unfold trimmed in Hx. cbn [first_char] in Hx.
    destruct (last_char (String a r)) as [b |] eqn:L.
    + apply andb_true_iff in Hx as [Ha Hb]. apply negb_true_iff in Ha, Hb.
      rewrite append_cons. cbn [lstrip]. rewrite Ha, <- append_cons.
      rewrite (rstrip_trail _ _ Ht). now apply rstrip_ended with b.
    + cbn [last_char] in L. destruct r; [discriminate |].
      exfalso. clear - L. revert a0 L. induction r as [| x r IH]; intros a0 L.
      * discriminate.
      * cbn [last_char] in L. now apply (IH x).
Qed.

Lemma rstrip_join (ts : list string) :
  Forall (fun t => token t = true) ts -> rstrip (join " " ts) = join " " ts.
Proof.
  induction 1 as [| t ts Ht Hts IH]; [reflexivity |].
  unfold token in Ht. apply andb_true_iff in Ht as [Hne Hns].
  apply negb_true_iff in Hne.
  destruct ts as [| q ps]; [now apply no_space_rstrip |].
  rewrite join_cons.
  assert (Hq : is_empty (join " " (q :: ps)) = false).
  { inversion Hts as [| ? ? Hq _]; subst. unfold token in Hq.
    apply andb_true_iff in Hq as [Hq _]. apply negb_true_iff in Hq.
    destruct ps; [exact Hq |]. rewrite join_cons, is_empty_app, Hq. reflexivity. }
  rewrite rstrip_app.
  - rewrite rstrip_app by (rewrite IH; exact Hq). now rewrite IH.
  - rewrite rstrip_app by (rewrite IH; exact Hq). rewrite IH. reflexivity.
Qed.

Lemma lstrip_join (ts : list string) :
  Forall (fun t => token t = true) ts -> lstrip (join " " ts) = join " " ts.
Proof.
  intros H. destruct H as [| t ts Ht Hts]; [reflexivity |].
  unfold token in Ht. apply andb_true_iff in Ht as [Hne Hns].
  destruct t as [| c t]; [discriminate |].
  cbn [no_space] in Hns. apply andb_true_iff in Hns as [Hc _]. apply negb_true_iff in Hc.
  destruct ts as [| q ps]; [cbn [join lstrip]; now rewrite Hc |].
  rewrite join_cons, append_cons. cbn [lstrip]. now rewrite Hc.
Qed.

(** Tokens joined by single blanks carry no white space at their ends,
    and a newline put after them is trimmed away. *)
Lemma strip_join_line (ts : list string) :
  Forall (fun t => token t = true) ts -> strip (join " " ts +:+ nl) = join " " ts.
Proof.
  intros H. destruct ts as [| t ts]; [reflexivity |].
  unfold strip.
  assert (Hl : lstrip (join " " (t :: ts) +:+ nl) = join " " (t :: ts) +:+ nl).
  { pose proof (lstrip_join _ H) as Hj.
    destruct (join " " (t :: ts)) as [| c r] eqn:E.
    - inversion H as [| ? ? Ht _]; subst. unfold token in Ht.
      apply andb_true_iff in Ht as [Hne _]. apply negb_true_iff in Hne.
      destruct ts; [cbn [join] in E; subst; discriminate |].
      rewrite join_cons in E. apply (f_equal is_empty) in E.
      rewrite is_empty_app, Hne in E. discriminate.
    - rewrite append_cons. cbn [lstrip] in Hj |- *.
      destruct (is_space c); [| reflexivity].
      exfalso. apply (f_equal String.length) in Hj. cbn [String.length] in Hj.
      assert (Hlen : forall s, (String.length (lstrip s) <= String.length s)%nat).
      { clear. induction s as [| x s IH]; [reflexivity |]. cbn [lstrip].
        destruct (is_space x); cbn [String.length]; lia. }
      specialize (Hlen r). lia. }
  rewrite Hl. unfold nl. rewrite rstrip_app_space by reflexivity. now apply rstrip_join.
Qed.

Lemma str_item_value_token (item : string) :
  token item = true -> token (str (item_value item)) = true.
Proof.
  intros Ht. destruct (item_value item) as [n | x | t] eqn:E; cbn [str].
  - apply str_of_int_token.
  - apply str_of_float_token.
  - now rewrite (item_value_text _ _ E).
Qed.

(** The responses of the sorting handler carry no white space at their
    ends: the client's [strip] gives back the text that was sent. *)
Lemma sorting_handler_trimmed (request : string) (out : stdout) (response : string) :
  main.sorting_handler request = (out, Return response) ->
  strip (response +:+ nl) = response.
Proof.
  unfold main.sorting_handler, create_sorting_handler, main.parse_function.
  rewrite parse_input_values.
  destruct (map item_value (split request)) as [| v data] eqn:E.
  - intros [= <- <-]. reflexivity.
  - destruct (sort_data_returns (v :: data) false) as (out' & r & Hs & Hp).
    rewrite Hs. intros [= <- <-]. apply strip_join_line.
    apply Forall_map. apply List.Forall_forall. intros w Hw.
    apply (Permutation_in _ Hp) in Hw. rewrite <- E in Hw.
    apply in_map_iff in Hw as (item & <- & Hi). apply str_item_value_token.
    pose proof (split_tokens request) as Hall. rewrite List.Forall_forall in Hall.
    now apply Hall.
Qed.

(** [send_data] gives the trimmed reply after closing, or reports the
    failure as text. *)
Lemma send_data_result (self : NetworkClient) (data : string) (timeout : Z)
    (net : network) :
  match snd (send_data self data timeout net) with
  | Return text =>
      (exists raw, client_received net = Return raw /\ text = strip raw
                   /\ close_fails net = None)
      \/ is_prefix "Error: " text = true
  | Raise e => catches Exception e = false
  end.
Proof.
  unfold send_data, settimeout, call, io_bind.
  destruct (socket_fails net) as [e |].
  { cbn [snd]. destruct (catches ConnectionRefusedError e); [now right |].
    destruct (catches socket_timeout e); [now right |].
    destruct (catches Exception e) eqn:E; [now right | exact E]. }
  destruct (timeout <? 0).
  { cbn. right. reflexivity. }
  destruct (connect_fails net) as [e |].
  { cbn [snd]. destruct (catches ConnectionRefusedError e); [now right |].
    destruct (catches socket_timeout e); [now right |].
    destruct (catches Exception e) eqn:E; [now right | exact E]. }
  destruct (client_send_fails net) as [e |].
  { cbn [snd]. destruct (catches ConnectionRefusedError e); [now right |].
    destruct (catches socket_timeout e); [now right |].
    destruct (catches Exception e) eqn:E; [now right | exact E]. }
  destruct (client_received net) as [raw | e].
  2:{ cbn [snd]. destruct (catches ConnectionRefusedError e); [now right |].
      destruct (catches socket_timeout e); [now right |].
      destruct (catches Exception e) eqn:E; [now right | exact E]. }
  destruct (close_fails net) as [e |].
  { cbn [snd]. destruct (catches ConnectionRefusedError e); [now right |].
    destruct (catches socket_timeout e); [now right |].
    destruct (catches Exception e) eqn:E; [now right | exact E]. }
  cbn [snd]. left. eauto.
Qed.

End MoreNetwork.

(* ===================================================================== *)
(** * Files, the keyboard, the client mode and the listening server       *)
(* ===================================================================== *)

Section Files.
Import sorting io_handler network_handler.

Lemma split_lstrip (s : string) : split (lstrip s) = split s.
Proof.
  induction s as [| c s IH]; [reflexivity |].
  cbn [lstrip]. rewrite (split_cons c s). destruct (is_space c) eqn:E; [exact IH |].
  now rewrite split_cons, E.
Qed.

Lemma rstrip_same_head (c : ascii) (s : string) :
  is_empty (rstrip (String c s)) = false -> exists r, rstrip (String c s) = String c r.
Proof.
  cbn [rstrip]. destruct (is_space c && is_empty (rstrip s)); [discriminate | eauto].
Qed.

Lemma split_rstrip (s : string) : split (rstrip s) = split s.
Proof.
  induction s as [| c s IH]; [reflexivity |].
  cbn [rstrip]. destruct (is_space c) eqn:E; cbn [andb].
  - destruct (is_empty (rstrip s)) eqn:Er.
    + rewrite split_cons, E. rewrite rstrip_blank in Er. symmetry. now apply split_blank.
    + rewrite !split_cons, E. exact IH.
  - rewrite !split_cons, E.
    destruct s as [| c' s']; [reflexivity |].
    destruct (is_empty (rstrip (String c' s'))) eqn:Er.
    + pose proof Er as Hb. rewrite rstrip_blank in Hb.
      apply is_empty_true in Er. rewrite Er.
      cbn [all_space] in Hb. apply andb_true_iff in Hb as [Hc' Hs'].
      rewrite Hc'. rewrite <- IH, Er. reflexivity.
    + destruct (rstrip_same_head c' s' Er) as [r Hr]. rewrite Hr in *.
      rewrite IH. reflexivity.
Qed.

Lemma split_strip (s : string) : split (strip s) = split s.
Proof. unfold strip. now rewrite split_rstrip, split_lstrip. Qed.

(** Trimming the text first changes nothing of what is parsed. *)
Lemma parse_input_strip (s : string) : parse_input (strip s) = parse_input s.
Proof. now rewrite !parse_input_values, split_strip. Qed.


Lemma universal_newlines_head (c : ascii) (s : string) :
  exists d u, universal_newlines (String c s) = String d u /\ is_space d = is_space c.
Proof.
  cbn [universal_newlines]. destruct (Ascii.eqb_spec c (ascii_of_nat 13)) as [-> | _].
  - destruct s as [| c' s']; [now eexists _, _ |].
    destruct (Ascii.eqb_spec c' (ascii_of_nat 10)) as [-> | _]; now eexists _, _.
  - now eexists _, _.
Qed.

(** The line ends of a text file, however written, are white space like
    any other: the items are those of the text as stored. *)
Lemma split_universal_newlines (s : string) : split (universal_newlines s) = split s.
Proof.
  induction s as [s IH] using (induction_ltof1 _ String.length). unfold ltof in IH.
  destruct s as [| c s']; [reflexivity |].
  cbn [universal_newlines].
  destruct (Ascii.eqb_spec c (ascii_of_nat 13)) as [-> | Hc].
  - destruct s' as [| c' s'']; [reflexivity |].
    destruct (Ascii.eqb_spec c' (ascii_of_nat 10)) as [-> | Hc'].
    + rewrite (split_cons (ascii_of_nat 10)), (split_cons (ascii_of_nat 13)),
        (split_cons (ascii_of_nat 10)).
      change (is_space (ascii_of_nat 10)) with true.
      change (is_space (ascii_of_nat 13)) with true. cbv iota.
      apply IH. cbn [String.length]. lia.
    + rewrite (split_cons (ascii_of_nat 10)), (split_cons (ascii_of_nat 13)).
      change (is_space (ascii_of_nat 10)) with true.
      change (is_space (ascii_of_nat 13)) with true. cbv iota.
      apply IH. cbn [String.length]. lia.
  - assert (Hs' : split (universal_newlines s') = split s')
      by (apply IH; cbn [String.length]; lia).
    rewrite !split_cons. destruct (is_space c); [exact Hs' |].
    destruct s' as [| c' s'']; [reflexivity |].
    destruct (universal_newlines_head c' s'') as (d & u & Hu & Hd).
    rewrite Hu in *. rewrite Hd, Hs'. reflexivity.
Qed.

Lemma universal_newlines_blank (s : string) :
  all_space (universal_newlines s) = all_space s.
Proof.
  pose proof (split_nil (universal_newlines s)) as H1. pose proof (split_nil s) as H2.
  rewrite split_universal_newlines in H1.
  destruct (all_space s), (all_space (universal_newlines s)); try reflexivity.
  - destruct H2 as [_ H2]. destruct H1 as [H1 _]. specialize (H1 (H2 eq_refl)). discriminate.
  - destruct H1 as [_ H1]. destruct H2 as [H2 _]. specialize (H2 (H1 eq_refl)). discriminate.
Qed.


(** A file that can be read is parsed as its text, whatever its line
    ends; one that holds white space only gives the warning. *)
Lemma read_file_input_stored (fs : filesystem) (filename text : string) :
  files fs !! filename = Some text -> refuses_read fs filename = None ->
  read_file_input fs filename =
  if all_space text
  then (["Warning: File '" +:+ filename +:+ "' is empty."], Return [])
  else ([], parse_input text).
Proof.
  intros Hf Hr. unfold read_file_input, read_text. rewrite Hr, Hf.
  rewrite strip_blank, universal_newlines_blank.
  destruct (all_space text); [reflexivity |].
  rewrite parse_input_strip, !parse_input_values, split_universal_newlines. reflexivity.
Qed.

Lemma parse_input_line (ts : list string) :
  parse_input (join " " ts +:+ newline) = parse_input (join " " ts).
Proof.
  rewrite !parse_input_values. unfold newline.
  rewrite split_app_space by reflexivity. cbn [split]. now rewrite app_nil_r.
Qed.

Lemma parsed_not_blank (data : list Value) :
  data <> [] -> parse_input (join " " (map str data)) = Return data ->
  all_space (join " " (map str data) +:+ newline) = false.
Proof.
  intros Hne Hp.
  destruct (all_space (join " " (map str data) +:+ newline)) eqn:E; [| reflexivity].
  pose proof (parse_input_line (map str data)) as Hl.
  rewrite Hp, parse_input_values, (split_blank _ E) in Hl. cbn [map] in Hl.
  injection Hl as <-. congruence.
Qed.


Lemma write_file_output_written (fs : filesystem) (data : list Value) (filename : string) :
  refuses_write fs filename = None ->
  write_file_output fs data filename
  = (["Output written to '" +:+ filename +:+ "'"], Return true,
     mk_filesystem
       (<[filename := match data with
                      | [] => "(empty)" +:+ newline
                      | _ :: _ => join " " (map str data) +:+ newline
                      end]> (files fs))
       (refuses_read fs) (refuses_write fs)).
Proof. intros Hw. unfold write_file_output, write_text. now rewrite Hw. Qed.

End Files.

Section Keyboard.
Import sorting io_handler main.

Lemma read_keyboard_input_quits (typed : input_result) :
  snd (read_keyboard_input typed) = Return [] <-> quits typed.
Proof.
  unfold read_keyboard_input, quits. destruct typed as [text | | e].
  - destruct (String.eqb_spec (str_lower (strip text)) "q") as [Hq | Hq].
    + cbn [snd]. tauto.
    + rewrite parse_input_values, split_strip. cbn [snd].
      destruct (split text) as [| t ts] eqn:E.
      * apply split_nil in E. cbn [map]. tauto.
      * assert (Hb : all_space text = false).
        { destruct (all_space text) eqn:Hb; [| reflexivity].
          rewrite (split_blank _ Hb) in E. discriminate. }
        cbn [map]. split; [discriminate | intros [H | H]; congruence].
  - cbn [snd]. tauto.
  - destruct (catches KeyboardInterrupt e); cbn [snd]; split; congruence.
Qed.

Lemma keyboard_loop_app (before rest : list input_result) (ev : list console) :
  keyboard_loop before = (ev, None) ->
  keyboard_loop (before ++ rest) =
  let (ev', r) := keyboard_loop rest in (ev ++ ev', r).
Proof.
  revert ev. induction before as [| x before IH]; intros ev; cbn [keyboard_loop app].
  - intros [= <-]. now destruct (keyboard_loop rest).
  - destruct (read_keyboard_input x) as [kev [[| v data] | e]]; [discriminate | | discriminate].
    destruct (sort_data (v :: data) false) as [out [sorted_data | e]]; [| discriminate].
    destruct (keyboard_loop before) as [ev1 r1]. intros [= <- ->].
    rewrite (IH ev1 eq_refl). destruct (keyboard_loop rest) as [ev' r].
    now rewrite app_assoc.
Qed.

End Keyboard.

Section ClientMode.
Import sorting io_handler network_handler main.

Lemma test_connection_no_send (self : NetworkClient) (net : network) (text : string) :
  ~ In (Send text) (fst (test_connection self net)).
Proof.
  unfold test_connection, settimeout, call, io_bind.
  destruct (socket_fails net); [each_branch; cbn; intuition discriminate |].
  change (2 <? 0) with false. cbv iota.
  destruct (connect_ex_returns net); [| each_branch; cbn; intuition discriminate].
  destruct (close_fails net); each_branch; cbn; intuition discriminate.
Qed.

Lemma test_connection_raise (self : NetworkClient) (net : network) (e : exn) :
  snd (test_connection self net) = Raise e -> catches Exception e = false.
Proof.
  unfold test_connection.
  match goal with |- context [match ?m with pair _ _ => _ end] => destruct m as [ev [b | e']] end.
  - discriminate.
  - destruct (catches Exception e') eqn:E; [discriminate |]. now intros [= <-].
Qed.

End ClientMode.

Section Server.
Import sorting io_handler network_handler.

Lemma accept_loop_no_close (script : list accept_step) :
  ~ In (Did Close) (fst (accept_loop script)).
Proof.
  induction script as [| x script IH]; [intros [] |]. cbn [accept_loop].
  destruct (still_running x); cbn [negb]; [| intros []].
  destruct (accepted x) as [address | e].
  - destruct (thread_fails x) as [e |].
    + destruct (catches OSError e); cbn; intuition discriminate.
    + destruct (accept_loop script) as [ev r]. cbn [fst] in *.
      intros [H | [H | H]]; [discriminate | discriminate | tauto].
  - destruct (catches OSError e); cbn; intuition discriminate.
Qed.

End Server.

Section Main.
Import sorting io_handler network_handler main.

Lemma str_lower_char_idempotent (c : ascii) :
  str_lower_char (str_lower_char c) = str_lower_char c.
Proof. destruct c as [[] [] [] [] [] [] [] []]; reflexivity. Qed.

Lemma str_lower_idempotent (s : string) : str_lower (str_lower s) = str_lower s.
Proof.
  induction s as [| c s IH]; [reflexivity |].
  cbn [str_lower]. now rewrite str_lower_char_idempotent, IH.
Qed.

End Main.

Section EndToEnd.
Import sorting io_handler network_handler main.

Lemma is_prefix_app (p s : string) : is_prefix p (p +:+ s) = true.
Proof.
  induction p as [| c p IH]; [reflexivity |].
  rewrite append_cons. cbn [is_prefix]. now rewrite Ascii.eqb_refl, IH.
Qed.

End EndToEnd.

(* ===================================================================== *)
(** * The properties of the specification                                 *)
(* ===================================================================== *)

Section Properties.
Import sorting io_handler network_handler.

Lemma single_tag_unmixed (l : list Value) : single_tag l = true -> mixed l = false.
Proof.
  intros H. destruct (mixed l) eqn:E; [| reflexivity].
  destruct (mixed_elim l E) as (a & b & Ha & Hb & Ta & Tb).
  unfold single_tag in H. rewrite !orb_true_iff, !forallb_forall in H.
  destruct H as [[H | H] | H].
  - specialize (H a Ha). destruct a; discriminate.
  - specialize (H a Ha). destruct a; discriminate.
  - specialize (H b Hb). congruence.
Qed.

(** C1.  A request whose items all carry one tag (all integers, all floats
    or all text) and are not none is answered with the items in order,
    written by [str] with single blanks between them: the sort succeeds
    without a warning, its result is a permutation of the parsed items,
    and the answer, parsed again, is that sorted list: [int] and [float]
    read back what [str] writes, the shortest digits of a float included.
    Where no item is NaN the items compare, and the result has no element
    smaller than the one before and is a list [is_sorted] accepts; of a
    list that holds NaN only the permutation is stated, not the order. *)
Theorem sorting_handler_roundtrip (s : string) (data : list Value) :
  parse_input s = Return data ->
  data <> [] ->
  single_tag data = true ->
  exists sorted,
    sort_data data false = ([], Return sorted)
    /\ Permutation sorted data
    /\ ((forall v, In v data -> is_nan v = false) ->
        Sorted no_inversion sorted /\ is_sorted sorted false = Return true)
    /\ main.sorting_handler s = ([], Return (join " " (map str sorted)))
    /\ parse_input (join " " (map str sorted)) = Return sorted.
Proof.
  intros Hp Hne Hs.
  pose proof (single_tag_unmixed _ Hs) as Hm.
  destruct (sort_data_unmixed data false Hm) as (r & Hr & Hsd).
  cbn [py_sorted] in Hr. exists r.
  pose proof (insertion_sort_perm _ _ Hr) as Hperm.
  pose proof (insertion_sort_no_inversion _ _ Hr) as Hord.
  split; [exact Hsd |]. split; [exact Hperm |]. split; [| split].
  - intros Hn. split; [exact Hord |].
    apply no_inversion_is_sorted; [| | exact Hord].
    + destruct (mixed r) eqn:E; [| reflexivity].
      destruct (mixed_elim r E) as (a & b & Ha & Hb & Ta & Tb).
      rewrite (mixed_intro data a b) in Hm; [discriminate | | | congruence];
        now apply (Permutation_in _ Hperm).
    + intros v Hv. apply Hn. now apply (Permutation_in _ Hperm).
  - unfold main.sorting_handler, create_sorting_handler, main.parse_function.
    rewrite Hp. destruct data as [| v data']; [congruence |]. now rewrite Hsd.
  - apply parse_input_join. apply List.Forall_forall. intros v Hv.
    apply (Permutation_in _ Hperm) in Hv.
    rewrite parse_input_values in Hp. injection Hp as <-.
    destruct v as [n | x | t].
    + apply reparses_int.
    + apply reparses_float.
      apply in_map_iff in Hv as (item & Hv & _). now apply item_value_float_ok with item.
    + now apply reparses_parsed_text with s.
Qed.

(** The property at a request of three floats, given with an exponent, a
    sign and a fraction. *)
Lemma sorting_handler_roundtrip_witness :
  exists sorted,
    sort_data (map item_value (split "2.5 -1e3 0.1")) false = ([], Return sorted)
    /\ Permutation sorted (map item_value (split "2.5 -1e3 0.1"))
    /\ ((forall v, In v (map item_value (split "2.5 -1e3 0.1")) -> is_nan v = false) ->
        Sorted no_inversion sorted /\ is_sorted sorted false = Return true)
    /\ main.sorting_handler "2.5 -1e3 0.1" = ([], Return (join " " (map str sorted)))
    /\ parse_input (join " " (map str sorted)) = Return sorted.
Proof.
  apply (sorting_handler_roundtrip "2.5 -1e3 0.1").
  - apply parse_input_values.
  - vm_compute. discriminate.
  - vm_compute. reflexivity.
Defined.

(** C3.  A request in which [parse_input] finds no item is answered with
    the literal text of the error. *)
Theorem sorting_handler_no_data (s : string) :
  parse_input s = Return [] ->
  main.sorting_handler s = ([], Return "Error: No valid data to sort").
Proof.
  intros H. unfold main.sorting_handler, create_sorting_handler, main.parse_function.
  now rewrite H.
Qed.

Lemma sorting_handler_no_data_witness :
  main.sorting_handler "  " = ([], Return "Error: No valid data to sort").
Proof. apply (sorting_handler_no_data "  "). reflexivity. Defined.

(** C9.  Text with a character that is not white space yields at least
    one item, every item that [split] finds being kept as an integer, a
    float or the text itself.  The worker hands to the sorting handler
    only such text, so there [parse_input] returns a list that is not
    empty and the handler answers with the joined result of [sort_data]:
    the branch of the error text is not taken for a request of the
    network. *)
Theorem error_branch_unreachable :
  (forall s, all_space s = false ->
     exists data, parse_input s = Return data /\ data <> []
                  /\ Forall2 (fun item v => parse_item item = Return v) (split s) data)
  /\ (forall port address script close_fails request,
        In request (handled (fst (handle_client_connection
                                    (main.sorting_server port) address script close_fails))) ->
        all_space request = false
        /\ exists data out sorted,
             parse_input request = Return data /\ data <> []
             /\ sort_data data false = (out, Return sorted)
             /\ main.sorting_handler request = (out, Return (join " " (map str sorted)))).
Proof.
  assert (Hparse : forall s, all_space s = false ->
            exists data, parse_input s = Return data /\ data <> []
                         /\ Forall2 (fun item v => parse_item item = Return v) (split s) data).
  { intros s Hs. exists (map item_value (split s)).
    split; [apply parse_input_values | split].
    - intros H. apply map_eq_nil in H. apply split_nil in H. congruence.
    - induction (split s) as [| item items IH]; constructor;
        [apply parse_item_value | exact IH]. }
  split; [exact Hparse |].
  intros port address script close_fails request Hin.
  rewrite handle_client_connection_handled in Hin.
  pose proof (serve_handled (client_handler (main.sorting_server port)) address script) as H.
  rewrite List.Forall_forall in H. destruct (H _ Hin) as (raw & -> & Hraw).
  apply strip_not_blank in Hraw. split; [exact Hraw |].
  destruct (Hparse _ Hraw) as (data & Hd & Hne & _).
  destruct (sort_data_returns data false) as (out & r & Hr & _).
  exists data, out, r. repeat split; try assumption.
  unfold main.sorting_handler, create_sorting_handler, main.parse_function.
  rewrite Hd. destruct data; [congruence |]. now rewrite Hr.
Qed.

(** Both halves at work: a text with two items, and the request that a
    run of the worker hands to the sorting handler. *)
Lemma error_branch_unreachable_witness :
  (exists data, parse_input "3 1" = Return data /\ data <> []
                /\ Forall2 (fun item v => parse_item item = Return v) (split "3 1") data)
  /\ (all_space "3 1 2" = false
      /\ exists data out sorted,
           parse_input "3 1 2" = Return data /\ data <> []
           /\ sort_data data false = (out, Return sorted)
           /\ main.sorting_handler "3 1 2" = (out, Return (join " " (map str sorted)))).
Proof.
  split.
  - apply (proj1 error_branch_unreachable "3 1"). reflexivity.
  - apply (proj2 error_branch_unreachable 8080 "peer"
             [mk_exchange true (Return " 3 1 2 ") None] None "3 1 2").
    vm_compute. left. reflexivity.
Defined.

(** C2.  On text next to numbers no order exists: [sorted] raises
    [TypeError], and [sort_data] does not; it prints one warning and
    returns its argument, the same elements in the same order. *)
Theorem sort_data_mixed_unchanged (data : list Value) (reverse : bool) :
  mixed data = true ->
  exists e,
    py_sorted data reverse = Raise e
    /\ class_of e = TypeError
    /\ sort_data data reverse =
       (["Warning: Unable to sort mixed incompatible types: " +:+ message e], Return data).
Proof.
  intros H. destruct (py_sorted_raises data reverse H) as (e & He & Hc).
  exists e. repeat split; try assumption.
  unfold sort_data. rewrite He. unfold catches. rewrite Hc.
  destruct data; [discriminate | reflexivity].
Qed.

Lemma sort_data_mixed_unchanged_witness :
  exists e,
    py_sorted [VFloat (S754_zero false); VInt 42; VStr "apple"; VInt 7] false = Raise e
    /\ class_of e = TypeError
    /\ sort_data [VFloat (S754_zero false); VInt 42; VStr "apple"; VInt 7] false =
       (["Warning: Unable to sort mixed incompatible types: " +:+ message e],
        Return [VFloat (S754_zero false); VInt 42; VStr "apple"; VInt 7]).
Proof. apply (sort_data_mixed_unchanged _ false). reflexivity. Defined.

(** C8.  A list that [is_sorted] accepts, in the direction asked, is
    returned by [sort_data] as it is, without a warning. *)
Theorem sort_data_idempotent (data : list Value) (reverse : bool) :
  is_sorted data reverse = Return true ->
  sort_data data reverse = ([], Return data).
Proof.
  intros H. unfold sort_data. rewrite (py_sorted_fixed data reverse H).
  now destruct data.
Qed.

Lemma sort_data_idempotent_witness :
  sort_data [VInt 1; VFloat (S754_finite false 6755399441055744 (-52)); VInt 2; VInt 2] false
  = ([], Return [VInt 1; VFloat (S754_finite false 6755399441055744 (-52)); VInt 2; VInt 2]).
Proof. apply sort_data_idempotent. reflexivity. Defined.

(** C10.  Whatever the list, [sort_data] returns a permutation of it, in
    order or, on text next to numbers, as it was; and it writes to no
    list object of the caller: the argument and every other object keep
    their contents, the result being a new object or, when the sort
    fails, the argument itself. *)
Theorem sort_data_permutes_without_mutation (h : heap) (data : loc)
    (xs : list Value) (reverse : bool) :
  h !! data = Some xs ->
  exists ret ys,
    sort_data_obj h data reverse = Some ret
    /\ sort_data xs reverse = (printed ret, Return ys)
    /\ heap_after ret !! result ret = Some ys
    /\ Permutation ys xs
    /\ heap_after ret !! data = Some xs
    /\ (forall k zs, h !! k = Some zs -> heap_after ret !! k = Some zs).
Proof.
  intros Hd.
  destruct (sort_data_obj_spec h data xs reverse Hd) as (ret & ys & Ho & Hv & Hr & Hk).
  exists ret, ys. repeat split; try assumption; [| now apply Hk].
  destruct (sort_data_returns xs reverse) as (out & r & Hs & Hp).
  rewrite Hs in Hv. now injection Hv as _ <-.
Qed.

Lemma sort_data_permutes_without_mutation_witness :
  exists ret ys,
    sort_data_obj {[ 1%positive := [VInt 3; VInt 1; VInt 2] ]} 1%positive false = Some ret
    /\ sort_data [VInt 3; VInt 1; VInt 2] false = (printed ret, Return ys)
    /\ heap_after ret !! result ret = Some ys
    /\ Permutation ys [VInt 3; VInt 1; VInt 2]
    /\ heap_after ret !! 1%positive = Some [VInt 3; VInt 1; VInt 2]
    /\ (forall k zs, ({[ 1%positive := [VInt 3; VInt 1; VInt 2] ]} : heap) !! k = Some zs ->
                     heap_after ret !! k = Some zs).
Proof.
  apply (sort_data_permutes_without_mutation {[ 1%positive := [VInt 3; VInt 1; VInt 2] ]}).
  reflexivity.
Defined.

(** C4.  When the worker, back in [recv] after the exchanges [before],
    receives text that is white space only (nothing at all included), it
    leaves its loop and closes the connection: after that [recv] the run
    holds the [close] and the closing line, and no call of the handler. *)
Theorem blank_request_closes (self : NetworkServer) (address : string)
    (before after : list exchange) (x : exchange) (raw : string)
    (ev : list event) (close_fails : option exn) :
  serve (client_handler self) address before = (ev, Waiting) ->
  running x = true ->
  received x = Return raw ->
  all_space raw = true ->
  handle_client_connection self address (before ++ x :: after) close_fails =
  (Printed ("Connection established with " +:+ address) :: ev
   ++ Recv 1024 :: Close
   :: match close_fails with
      | None => [Printed ("Connection with " +:+ address +:+ " closed")]
      | Some _ => []
      end,
   Some (match close_fails with None => Return tt | Some c => Raise c end)).
Proof.
  intros Hb Hr Hx Hs. unfold handle_client_connection.
  rewrite (serve_app _ _ _ (x :: after) _ Hb). cbn [serve].
  rewrite Hr, Hx, strip_blank, Hs. cbn [negb].
  destruct close_fails; cbn [app]; rewrite ?app_nil_r, <- ?app_assoc; reflexivity.
Qed.

Lemma blank_request_closes_witness :
  handle_client_connection (main.sorting_server 8080) "peer"
    ([mk_exchange true (Return "3 1 2") None]
     ++ mk_exchange true (Return "  ") None :: [mk_exchange true (Return "9 8") None]) None =
  (Printed "Connection established with peer"
   :: [Recv 1024; Printed "Received from peer: 3 1 2"; Handle "3 1 2";
       Send ("1 2 3" +:+ nl)]
   ++ [Recv 1024; Close; Printed "Connection with peer closed"],
   Some (Return tt)).
Proof.
  apply (blank_request_closes (main.sorting_server 8080) "peer"
           [mk_exchange true (Return "3 1 2") None]
           [mk_exchange true (Return "9 8") None]
           (mk_exchange true (Return "  ") None) "  " _ None);
    reflexivity.
Defined.

(** C7.  With no handler installed, a request whose text is not white
    space only (a request that is served) is answered by the echo.  The
    text echoed is the request without the white space at its two ends:
    the request is that text between two runs of white space, and the
    text neither begins nor ends with white space, which leaves one text
    only ([strip_of_parts]).  The response is that text after the
    literal ["Echo: "], and the worker sends it followed by a newline. *)
Theorem echo_response (self : NetworkServer) (address : string)
    (before after : list exchange) (x : exchange) (raw : string)
    (ev : list event) (close_fails : option exn) :
  client_handler self = None ->
  serve (client_handler self) address before = (ev, Waiting) ->
  running x = true ->
  received x = Return raw ->
  all_space raw = false ->
  (exists lead trail,
      raw = lead +:+ strip raw +:+ trail
      /\ all_space lead = true /\ all_space trail = true)
  /\ trimmed (strip raw) = true
  /\ is_empty (strip raw) = false
  /\ respond (client_handler self) (strip raw) = ([], Return ("Echo: " +:+ strip raw))
  /\ exists rest,
       fst (handle_client_connection self address (before ++ x :: after) close_fails) =
       Printed ("Connection established with " +:+ address) :: ev
       ++ [Recv 1024;
           Printed ("Received from " +:+ address +:+ ": " +:+ strip raw);
           Send (("Echo: " +:+ strip raw) +:+ nl)]
       ++ rest.
Proof.
  intros Hh Hb Hr Hx Hs. unfold handle_client_connection. rewrite Hh in *.
  split; [apply strip_parts |].
  split; [apply strip_trimmed |].
  split; [now rewrite strip_blank |].
  split; [reflexivity |].
  rewrite (serve_app _ _ _ (x :: after) _ Hb). cbn [serve].
  rewrite Hr, Hx, strip_blank, Hs. cbn [negb respond io_bind call app].
  destruct (send_fails x) as [e |].
  - each_branch; cbn [fst app]; rewrite <- ?app_assoc; cbn [app]; eexists; reflexivity.
  - destruct (serve None address after) as [ev' [| e |]];
      each_branch; cbn [fst app]; rewrite <- ?app_assoc; cbn [app]; eexists; reflexivity.
Qed.

(** The property at a request with two blanks before it and a blank and a
    newline after it: the worker answers [Echo: hello there]. *)
Lemma echo_response_witness :
  (exists lead trail,
      "  hello there " +:+ nl = lead +:+ "hello there" +:+ trail
      /\ all_space lead = true /\ all_space trail = true)
  /\ trimmed "hello there" = true
  /\ is_empty "hello there" = false
  /\ respond None "hello there" = ([], Return "Echo: hello there")
  /\ exists rest,
       fst (handle_client_connection (NetworkServer_init "localhost" 8080) "peer"
              [mk_exchange true (Return ("  hello there " +:+ nl)) None] None) =
       [Printed "Connection established with peer";
        Recv 1024;
        Printed "Received from peer: hello there";
        Send ("Echo: hello there" +:+ nl)]
       ++ rest.
Proof.
  exact (echo_response (NetworkServer_init "localhost" 8080) "peer" [] []
           (mk_exchange true (Return ("  hello there " +:+ nl)) None)
           ("  hello there " +:+ nl) [] None
           eq_refl eq_refl eq_refl eq_refl eq_refl).
Defined.

(** C6.  When nobody listens, the connection being attempted (the socket
    opens, the timeout is one the socket accepts) and refused,
    [test_connection] returns false and [send_data] returns a text that
    contains ["Cannot connect"]; neither raises. *)
Theorem refused_connection_reported (self : NetworkClient) (data : string)
    (timeout : Z) (net : network) :
  connection_refused net ->
  0 <= timeout ->
  snd (test_connection self net) = Return false
  /\ exists text,
       snd (send_data self data timeout net) = Return text
       /\ contains text "Cannot connect" = true.
Proof.
  intros (Hs & (e & He & Hc) & (errno & Hx & Hn) & Hcl) Ht. split.
  - unfold test_connection, settimeout, call, io_bind.
    rewrite Hs, Hx, Hcl. cbn. apply Z.eqb_neq in Hn. now rewrite Hn.
  - unfold send_data, settimeout, call, io_bind.
    rewrite Hs, He. apply Z.ltb_ge in Ht. rewrite Ht.
    unfold catches. rewrite Hc.
    change (issubclass ConnectionRefusedError ConnectionRefusedError) with true.
    cbn [snd]. eexists. split; reflexivity.
Qed.

Lemma refused_connection_reported_witness :
  snd (test_connection (mk_client "localhost" 8080)
         (mk_network None (Some (mk_exn ConnectionRefusedError "[Errno 111] Connection refused"))
            (Return 111) None (Return EmptyString) None)) = Return false
  /\ exists text,
       snd (send_data (mk_client "localhost" 8080) "3 1 2" 5
              (mk_network None
                 (Some (mk_exn ConnectionRefusedError "[Errno 111] Connection refused"))
                 (Return 111) None (Return EmptyString) None)) = Return text
       /\ contains text "Cannot connect" = true.
Proof.
  apply (refused_connection_reported (mk_client "localhost" 8080) "3 1 2" 5).
  - repeat split; eauto; cbn; eauto.
  - lia.
Defined.

(** C5 fails on the code.  [send_data] calls [close] on the path of success
    only: when the connection is refused the run opens a socket, sets the
    timeout, tries to connect and returns the text of the error, and no
    [close] is among its events. *)
Theorem send_data_refused_leaves_socket_open :
  send_data (mk_client "localhost" 8080) "3 1 2" 5
    (mk_network None (Some (mk_exn ConnectionRefusedError "[Errno 111] Connection refused"))
       (Return 111) None (Return EmptyString) None)
  = ([SocketOpen; SetTimeout 5; Connect "localhost" 8080],
     Return "Error: Cannot connect to server at localhost:8080")
  /\ ~ In Close (fst (send_data (mk_client "localhost" 8080) "3 1 2" 5
                        (mk_network None
                           (Some (mk_exn ConnectionRefusedError
                                    "[Errno 111] Connection refused"))
                           (Return 111) None (Return EmptyString) None))).
Proof.
  split; [reflexivity |].
  intros H. apply send_data_close in H as (_ & _ & H & _). discriminate.
Qed.

End Properties.

(* ===================================================================== *)
(** * Further properties of the code                                      *)
(* ===================================================================== *)

Section Further.
Import sorting io_handler network_handler.

(** X1.  Read again from the text that [str] gives its items, joined by
    single blanks, a parsed list is itself: [parse_input] normalises the
    white space and the numerals once and for all, whatever the text. *)
Theorem parse_input_normalises (s : string) :
  exists data,
    parse_input s = Return data
    /\ parse_input (join " " (map str data)) = Return data.
Proof.
  exists (map item_value (split s)). split; [apply parse_input_values |].
  apply parse_input_join, parsed_reparse.
Qed.

(** X2.  White space only separates: the items of two texts put one after
    the other with a white-space character between them (a blank, a tab,
    a newline, ...) are the items of the first followed by those of the
    second. *)
Theorem parse_input_app (a b : string) (c : ascii) :
  is_space c = true ->
  exists x y,
    parse_input a = Return x /\ parse_input b = Return y
    /\ parse_input (a +:+ String c b) = Return (x ++ y).
Proof.
  intros Hc. exists (map item_value (split a)), (map item_value (split b)).
  rewrite !parse_input_values, split_app_space, map_app by exact Hc. auto.
Qed.

Lemma parse_input_app_witness :
  exists x y,
    parse_input "3 1" = Return x /\ parse_input "x 7" = Return y
    /\ parse_input ("3 1" +:+ String (ascii_of_nat 9) "x 7") = Return (x ++ y).
Proof. apply parse_input_app. reflexivity. Defined.

(** X3.  A file that can be read is parsed as its text would be by
    [parse_input], whatever its line ends, and nothing is printed; a file
    of white space only gives the warning and the empty list. *)
Theorem read_file_input_reads (fs : filesystem) (filename text : string) :
  files fs !! filename = Some text -> refuses_read fs filename = None ->
  read_file_input fs filename =
  if all_space text
  then (["Warning: File '" +:+ filename +:+ "' is empty."], Return [])
  else ([], parse_input text).
Proof. apply read_file_input_stored. Qed.

Lemma read_file_input_reads_witness :
  read_file_input
    (mk_filesystem (<["data.txt" := "3 1" +:+ String (ascii_of_nat 13) newline +:+ "2"]> ∅)
                   (fun _ => None) (fun _ => None))
    "data.txt" =
  if all_space ("3 1" +:+ String (ascii_of_nat 13) newline +:+ "2")
  then (["Warning: File '" +:+ "data.txt" +:+ "' is empty."], Return [])
  else ([], parse_input ("3 1" +:+ String (ascii_of_nat 13) newline +:+ "2")).
Proof.
  apply read_file_input_reads; [cbn [files]; apply lookup_insert_eq | reflexivity].
Defined.

(** X4.  [read_file_input] keeps every [Exception] inside, and its empty
    result never comes without a word: an empty list is returned with
    exactly one printed line (the warning or the error), a list of items
    with none; what it lets through is no [Exception] and came from the
    system. *)
Theorem read_file_input_explains (fs : filesystem) (filename : string) :
  match read_file_input fs filename with
  | (out, Return []) => length out = 1%nat
  | (out, Return (_ :: _)) => out = []
  | (out, Raise e) =>
      refuses_read fs filename = Some (OtherError e) /\ catches Exception e = false
  end.
Proof.
  unfold read_file_input, read_text.
  destruct (refuses_read fs filename) as [[msg | msg | e] |].
  - reflexivity.
  - reflexivity.
  - destruct (catches Exception e) eqn:E; [reflexivity | auto].
  - destruct (files fs !! filename) as [text |]; [| reflexivity].
    destruct (is_empty _) eqn:E; [reflexivity |].
    rewrite parse_input_values.
    destruct (split (strip (universal_newlines text))) as [| t ts] eqn:Es; [| reflexivity].
    apply split_nil in Es. apply strip_not_blank in E. congruence.
Qed.

(** X5.  What [write_file_output] writes, [read_file_input] reads back:
    a parsed list written to a file that the system lets be written and
    read is returned as it was, and no other file changes.  The empty
    list is the exception: it is written as ["(empty)"] and comes back as
    that one text. *)
Theorem write_read_round_trip (fs : filesystem) (s : string) (data : list Value)
    (filename : string) :
  parse_input s = Return data ->
  refuses_write fs filename = None -> refuses_read fs filename = None ->
  exists fs',
    write_file_output fs data filename
    = (["Output written to '" +:+ filename +:+ "'"], Return true, fs')
    /\ read_file_input fs' filename
       = ([], Return match data with [] => [VStr "(empty)"] | _ :: _ => data end)
    /\ forall other, other <> filename -> files fs' !! other = files fs !! other.
Proof.
  intros Hp Hw Hr. unfold write_file_output, write_text. rewrite Hw.
  eexists. split; [reflexivity |]. split.
  - rewrite parse_input_values in Hp. injection Hp as <-.
    erewrite read_file_input_stored;
      [| cbn [files]; apply lookup_insert_eq | exact Hr].
    pose proof (parse_input_join _ (parsed_reparse s)) as Hj.
    destruct (map item_value (split s)) as [| v data] eqn:E; [reflexivity |].
    rewrite parsed_not_blank by (congruence || exact Hj).
    now rewrite parse_input_line, Hj.
  - intros other Ho. cbn [files]. now apply lookup_insert_ne.
Qed.

Lemma write_read_round_trip_witness :
  exists fs',
    write_file_output (mk_filesystem ∅ (fun _ => None) (fun _ => None))
      [VInt 3; VStr "apple"; VInt 1] "out.txt"
    = (["Output written to '" +:+ "out.txt" +:+ "'"], Return true, fs')
    /\ read_file_input fs' "out.txt" = ([], Return [VInt 3; VStr "apple"; VInt 1])
    /\ forall other, other <> "out.txt" ->
         files fs' !! other
         = files (mk_filesystem ∅ (fun _ => None) (fun _ => None)) !! other.
Proof.
  apply (write_read_round_trip (mk_filesystem ∅ (fun _ => None) (fun _ => None))
           "3 apple 1"); reflexivity.
Defined.

(** X6.  [read_keyboard_input] returns the empty list, which ends the
    session, on these inputs and no others: a line of white space only,
    the letter q in either case with or without white space around it,
    the end of the input, an interrupt. *)
Theorem read_keyboard_input_empty (typed : input_result) :
  snd (read_keyboard_input typed) = Return [] <-> quits typed.
Proof. apply read_keyboard_input_quits. Qed.

(** X7.  The keyboard session ends at the first input that quits (a blank
    line as well as q): nothing is sorted or shown for it, and what is
    typed after it is never read. *)
Theorem keyboard_session_ends (before after : list input_result) (x : input_result)
    (ev : list console) :
  main.keyboard_loop before = (ev, None) -> quits x ->
  main.handle_keyboard_mode (before ++ x :: after) =
  (Say "=== Keyboard Input Mode ===" :: ev ++ fst (read_keyboard_input x),
   Some (Return tt)).
Proof.
  intros Hb Hq. unfold main.handle_keyboard_mode. rewrite (keyboard_loop_app _ _ _ Hb).
  cbn [main.keyboard_loop]. apply read_keyboard_input_quits in Hq.
  destruct (read_keyboard_input x) as [kev r]. cbn [snd fst] in *. subst r. reflexivity.
Qed.

Lemma keyboard_session_ends_witness :
  main.handle_keyboard_mode ([Line "2 1"] ++ Line " Q " :: [Line "5 4"]) =
  (Say "=== Keyboard Input Mode ===" :: fst (main.keyboard_loop [Line "2 1"])
   ++ fst (read_keyboard_input (Line " Q ")),
   Some (Return tt)).
Proof.
  apply keyboard_session_ends; [reflexivity | right; reflexivity].
Defined.

(** X8.  Sorting a file in place: a file with an item in it, which the
    system lets be read and written, then holds the sorted items with
    one blank between them and a newline at the end; it reads back as the
    sorted list, no other file changes, and where no item is NaN a second
    run leaves the files as the first left them. *)
Theorem file_inplace_sorts (fs : filesystem) (filename text : string) :
  files fs !! filename = Some text -> all_space text = false ->
  refuses_read fs filename = None -> refuses_write fs filename = None ->
  exists data warning sorted lines fs',
    parse_input text = Return data
    /\ sort_data data false = (warning, Return sorted)
    /\ main.handle_file_inplace_mode fs filename = (lines, Return tt, fs')
    /\ files fs' !! filename = Some (join " " (map str sorted) +:+ newline)
    /\ read_file_input fs' filename = ([], Return sorted)
    /\ (forall other, other <> filename -> files fs' !! other = files fs !! other)
    /\ ((forall v, In v data -> is_nan v = false) ->
        exists lines',
          main.handle_file_inplace_mode fs' filename = (lines', Return tt, fs')).
Proof.
  intros Hf Hb Hr Hw.
  pose proof (read_file_input_stored fs filename text Hf Hr) as Hread. rewrite Hb in Hread.
  rewrite parse_input_values in Hread.
  destruct (map item_value (split text)) as [| v data] eqn:E.
  { apply map_eq_nil in E. apply split_nil in E. congruence. }
  destruct (sort_data_returns (v :: data) false) as (warning & sorted & Hs & Hp).
  assert (Hne : sorted <> []).
  { intros ->. apply Permutation_nil in Hp. discriminate. }
  assert (Hrep : Forall reparses sorted).
  { apply List.Forall_forall. intros w Hin. apply (Permutation_in _ Hp) in Hin.
    pose proof (parsed_reparse text) as Hall. rewrite E in Hall.
    rewrite List.Forall_forall in Hall. now apply Hall. }
  pose proof (parse_input_join _ Hrep) as Hj.
  set (fs' := mk_filesystem (<[filename := join " " (map str sorted) +:+ newline]> (files fs))
                            (refuses_read fs) (refuses_write fs)).
  assert (Hwrite : write_file_output fs sorted filename
                   = (["Output written to '" +:+ filename +:+ "'"], Return true, fs')).
  { rewrite write_file_output_written by exact Hw. destruct sorted; [congruence | reflexivity]. }
  assert (Hback : read_file_input fs' filename = ([], Return sorted)).
  { erewrite read_file_input_stored; [| cbn [files fs']; apply lookup_insert_eq | exact Hr].
    rewrite parsed_not_blank by assumption. now rewrite parse_input_line, Hj. }
  exists (v :: data), warning, sorted. eexists. exists fs'.
  split; [rewrite parse_input_values; now rewrite E |].
  split; [exact Hs |].
  split; [unfold main.handle_file_inplace_mode; rewrite Hread, Hs, Hwrite; reflexivity |].
  split; [cbn [files fs']; apply lookup_insert_eq |].
  split; [exact Hback |].
  split; [intros other Ho; cbn [files fs']; now apply lookup_insert_ne |].
  intros Hn.
  assert (Hs2 : sort_data sorted false = (warning, Return sorted))
    by (apply (sort_data_again (v :: data)); assumption).
  assert (Hwrite2 : write_file_output fs' sorted filename
                    = (["Output written to '" +:+ filename +:+ "'"], Return true, fs')).
  { rewrite write_file_output_written by exact Hw.
    destruct sorted as [| w sorted']; [congruence |].
    unfold fs'. cbn [files refuses_read refuses_write].
    now rewrite insert_insert_eq. }
  eexists. unfold main.handle_file_inplace_mode. rewrite Hback.
  destruct sorted as [| w sorted']; [congruence |]. rewrite Hs2, Hwrite2. reflexivity.
Qed.

Lemma file_inplace_sorts_witness :
  exists data warning sorted lines fs',
    parse_input "3 1 2" = Return data
    /\ sort_data data false = (warning, Return sorted)
    /\ main.handle_file_inplace_mode
         (mk_filesystem (<["data.txt" := "3 1 2"]> ∅) (fun _ => None) (fun _ => None))
         "data.txt"
       = (lines, Return tt, fs')
    /\ files fs' !! "data.txt" = Some (join " " (map str sorted) +:+ newline)
    /\ read_file_input fs' "data.txt" = ([], Return sorted)
    /\ (forall other, other <> "data.txt" ->
          files fs' !! other
          = files (mk_filesystem (<["data.txt" := "3 1 2"]> ∅)
                                 (fun _ => None) (fun _ => None)) !! other)
    /\ ((forall v, In v data -> is_nan v = false) ->
        exists lines',
          main.handle_file_inplace_mode fs' "data.txt" = (lines', Return tt, fs')).
Proof.
  apply file_inplace_sorts;
    [cbn [files]; apply lookup_insert_eq | reflexivity | reflexivity | reflexivity].
Defined.

(** X9.  Sorting a file into another: the output file, when the system
    lets it be written and read, then reads back as the sorted list of
    the items of the input file, and no other file changes. *)
Theorem file_mode_writes_sorted (fs : filesystem) (input_file output_file text : string) :
  files fs !! input_file = Some text -> all_space text = false ->
  refuses_read fs input_file = None ->
  is_empty output_file = false ->
  refuses_write fs output_file = None -> refuses_read fs output_file = None ->
  exists data warning sorted lines fs',
    parse_input text = Return data
    /\ sort_data data false = (warning, Return sorted)
    /\ main.handle_file_mode fs input_file (Some output_file) = (lines, Return tt, fs')
    /\ read_file_input fs' output_file = ([], Return sorted)
    /\ (forall other, other <> output_file -> files fs' !! other = files fs !! other).
Proof.
  intros Hf Hb Hr Hne Hw Hro.
  pose proof (read_file_input_stored fs input_file text Hf Hr) as Hread. rewrite Hb in Hread.
  rewrite parse_input_values in Hread.
  destruct (map item_value (split text)) as [| v data] eqn:E.
  { apply map_eq_nil in E. apply split_nil in E. congruence. }
  destruct (sort_data_returns (v :: data) false) as (warning & sorted & Hs & Hp).
  assert (Hsn : sorted <> []).
  { intros ->. apply Permutation_nil in Hp. discriminate. }
  assert (Hrep : Forall reparses sorted).
  { apply List.Forall_forall. intros w Hin. apply (Permutation_in _ Hp) in Hin.
    pose proof (parsed_reparse text) as Hall. rewrite E in Hall.
    rewrite List.Forall_forall in Hall. now apply Hall. }
  pose proof (parse_input_join _ Hrep) as Hj.
  set (fs' := mk_filesystem
                (<[output_file := join " " (map str sorted) +:+ newline]> (files fs))
                (refuses_read fs) (refuses_write fs)).
  assert (Hwrite : write_file_output fs sorted output_file
                   = (["Output written to '" +:+ output_file +:+ "'"], Return true, fs')).
  { rewrite write_file_output_written by exact Hw. destruct sorted; [congruence | reflexivity]. }
  exists (v :: data), warning, sorted. eexists. exists fs'.
  split; [rewrite parse_input_values; now rewrite E |].
  split; [exact Hs |].
  split; [unfold main.handle_file_mode, main.given; rewrite Hread, Hs, Hne, Hwrite;
          reflexivity |].
  split.
  - erewrite read_file_input_stored; [| cbn [files fs']; apply lookup_insert_eq | exact Hro].
    rewrite parsed_not_blank by assumption. now rewrite parse_input_line, Hj.
  - intros other Ho. cbn [files fs']. now apply lookup_insert_ne.
Qed.

Lemma file_mode_writes_sorted_witness :
  exists data warning sorted lines fs',
    parse_input "pear apple" = Return data
    /\ sort_data data false = (warning, Return sorted)
    /\ main.handle_file_mode
         (mk_filesystem (<["in.txt" := "pear apple"]> ∅) (fun _ => None) (fun _ => None))
         "in.txt" (Some "out.txt")
       = (lines, Return tt, fs')
    /\ read_file_input fs' "out.txt" = ([], Return sorted)
    /\ (forall other, other <> "out.txt" ->
          files fs' !! other
          = files (mk_filesystem (<["in.txt" := "pear apple"]> ∅)
                                 (fun _ => None) (fun _ => None)) !! other).
Proof.
  apply file_mode_writes_sorted;
    [cbn [files]; apply lookup_insert_eq | reflexivity ..].
Defined.

(** X10.  [sort_data] never raises, whatever the list and the direction;
    it prints at most one line, and it prints one exactly when text
    stands next to numbers. *)
Theorem sort_data_warns_iff_mixed (data : list Value) (reverse : bool) :
  exists out r,
    sort_data data reverse = (out, Return r)
    /\ (length out <= 1)%nat
    /\ (out = [] <-> mixed data = false).
Proof.
  destruct (mixed data) eqn:E.
  - destruct (py_sorted_raises data reverse E) as (e & He & Hc).
    unfold sort_data. destruct data as [| x l]; [discriminate |].
    rewrite He. unfold catches. rewrite Hc. cbn [issubclass subclass_upto exn_class_eqb orb].
    eexists _, _. split; [reflexivity |]. split; [cbn; lia |]. split; discriminate.
  - destruct (sort_data_unmixed data reverse E) as (r & _ & ->).
    exists [], r. split; [reflexivity |]. split; [cbn; lia | tauto].
Qed.

(** X11.  On a list whose elements compare (no text next to numbers, no
    NaN) the result of [sort_data] is one that [is_sorted] accepts in the
    same direction, ascending or descending, integers and floats being
    compared by value. *)
Theorem sort_data_is_sorted (data : list Value) (reverse : bool) :
  mixed data = false ->
  (forall v, In v data -> is_nan v = false) ->
  exists r,
    sort_data data reverse = ([], Return r)
    /\ is_sorted r reverse = Return true.
Proof.
  intros Hm Hn. destruct (sort_data_unmixed data reverse Hm) as (r & Hr & Hs).
  exists r. split; [exact Hs |]. now apply py_sorted_is_sorted with data.
Qed.

Lemma sort_data_is_sorted_witness :
  exists r,
    sort_data [VInt 3; VFloat (S754_finite false 5 (-1)); VInt 1; VInt (-2)] true
    = ([], Return r)
    /\ is_sorted r true = Return true.
Proof.
  apply sort_data_is_sorted; [reflexivity |].
  intros v Hv. cbn [In] in Hv.
  destruct Hv as [<- | [<- | [<- | [<- | []]]]]; reflexivity.
Defined.

(** X12.  Sorting twice is sorting once: on a list without NaN,
    [sort_data] applied to its own result returns it again, with the same
    output. *)
Theorem sort_data_twice (data : list Value) (reverse : bool) (out : sorting.stdout)
    (r : list Value) :
  (forall v, In v data -> is_nan v = false) ->
  sort_data data reverse = (out, Return r) ->
  sort_data r reverse = (out, Return r).
Proof. apply sort_data_again. Qed.

Lemma sort_data_twice_witness :
  sort_data [VInt 3; VInt 2; VInt 1] true = ([], Return [VInt 3; VInt 2; VInt 1]).
Proof.
  apply (sort_data_twice [VInt 1; VInt 3; VInt 2] true).
  - intros v Hv. cbn [In] in Hv. destruct Hv as [<- | [<- | [<- | []]]]; reflexivity.
  - reflexivity.
Defined.

(** X13.  [sort_data_inplace] sorts the caller's list itself: on a list
    whose elements compare, the object then holds what [sort_data]
    returns for its old contents, nothing is printed, and every other
    object keeps its contents. *)
Theorem sort_data_inplace_sorts (leftover : list Value -> list Value) (h : heap)
    (data : loc) (xs : list Value) (reverse : bool) :
  h !! data = Some xs -> mixed xs = false ->
  exists ys h',
    sort_data_inplace leftover h data reverse = Some ([], h')
    /\ sort_data xs reverse = ([], Return ys)
    /\ h' !! data = Some ys
    /\ Permutation ys xs
    /\ forall k, k <> data -> h' !! k = h !! k.
Proof.
  intros Hx Hm. destruct (sort_data_unmixed xs reverse Hm) as (ys & Hs & Hd).
  destruct (py_sorted_returns xs reverse Hm) as (ys' & Hs' & Hp).
  rewrite Hs in Hs'. injection Hs' as <-.
  exists ys, (<[data := ys]> h).
  split; [| split; [exact Hd | split; [apply lookup_insert_eq | split; [exact Hp |]]]].
  - unfold sort_data_inplace. rewrite Hx. destruct xs as [| x xs'].
    + unfold sort_data in Hd. injection Hd as <-. now rewrite insert_id.
    + now rewrite Hs.
  - intros k Hk. now apply lookup_insert_ne.
Qed.

Lemma sort_data_inplace_sorts_witness :
  exists ys h',
    sort_data_inplace (fun xs => xs) (<[1%positive := [VInt 2; VInt 1]]> ∅) 1%positive false
    = Some ([], h')
    /\ sort_data [VInt 2; VInt 1] false = ([], Return ys)
    /\ h' !! 1%positive = Some ys
    /\ Permutation ys [VInt 2; VInt 1]
    /\ forall k, k <> 1%positive ->
         h' !! k = (<[1%positive := [VInt 2; VInt 1]]> ∅ : heap) !! k.
Proof.
  apply sort_data_inplace_sorts; [apply lookup_insert_eq | reflexivity].
Defined.

(** X14.  NaN is in no order with anything: a list of numbers that holds
    a NaN and has two elements or more is not sorted, ascending or
    descending. *)
Theorem is_sorted_nan (data : list Value) (reverse : bool) :
  existsb is_text data = false ->
  existsb is_nan data = true ->
  (2 <= length data)%nat ->
  is_sorted data reverse = Return false.
Proof.
  induction data as [| x data IH]; [discriminate |].
  destruct data as [| y rest]; [cbn [length]; lia |].
  intros Ht Hn _. rewrite is_sorted_cons.
  cbn [existsb] in Ht, Hn.
  apply orb_false_iff in Ht as [Hx Ht]. pose proof Ht as Ht'.
  apply orb_false_iff in Ht' as [Hy _].
  destruct (is_nan x || is_nan y) eqn:E.
  - rewrite in_order_nan by assumption. reflexivity.
  - apply orb_false_iff in E as [Ex Ey]. rewrite Ex, Ey in Hn. cbn [orb] in Hn.
    destruct (rich_compare_returns (if reverse then op_ge else op_le) x y) as [b Hb];
      [congruence |].
    assert (Hxy : in_order reverse x y = Return b) by (destruct reverse; exact Hb).
    rewrite Hxy. cbn [bind]. destruct b; [| reflexivity].
    apply IH.
    + exact Ht.
    + cbn [existsb]. now rewrite Ey.
    + destruct rest; [discriminate | cbn [length]; lia].
Qed.

Lemma is_sorted_nan_witness :
  is_sorted [VInt 1; VFloat S754_nan; VInt 2] true = Return false.
Proof. apply is_sorted_nan; [reflexivity | reflexivity | cbn [length]; lia]. Defined.

(** X15.  [is_sorted] stays within the list: the only exception it
    raises is the [TypeError] of a comparison, and it raises it only on a
    list that holds text next to numbers. *)
Theorem is_sorted_raises_on_mixed_only (data : list Value) (reverse : bool) (e : exn) :
  is_sorted data reverse = Raise e ->
  class_of e = TypeError /\ mixed data = true.
Proof. apply is_sorted_raise_inv. Qed.

Lemma is_sorted_raises_on_mixed_only_witness :
  class_of (mk_exn TypeError "'<=' not supported between instances of 'int' and 'str'")
  = TypeError
  /\ mixed [VInt 1; VInt 2; VStr "a"] = true.
Proof. apply (is_sorted_raises_on_mixed_only _ false). reflexivity. Defined.

(** X16.  Descending is ascending read backwards: on a list whose
    elements compare, [is_sorted] with [reverse=True] answers as
    [is_sorted] does on the reversed list. *)
Theorem is_sorted_reverse (data : list Value) :
  mixed data = false ->
  is_sorted data true = is_sorted (rev data) false.
Proof.
  intros Hm.
  destruct (is_sorted_returns data true Hm) as [b Hb].
  destruct (is_sorted_returns (rev data) false) as [b' Hb']; [now rewrite mixed_rev |].
  pose proof (is_sorted_rev_true data) as [H1 H2]. rewrite Hb, Hb' in *.
  destruct b, b'; try reflexivity.
  - specialize (H1 eq_refl). discriminate.
  - specialize (H2 eq_refl). discriminate.
Qed.

Lemma is_sorted_reverse_witness :
  is_sorted [VInt 3; VFloat S754_nan; VInt 1] true
  = is_sorted (rev [VInt 3; VFloat S754_nan; VInt 1]) false.
Proof. apply is_sorted_reverse. reflexivity. Defined.

(** X17.  A worker that finishes has closed its socket: [close] is called
    once, after every other call on the socket, whatever made the loop
    end; and the worker lets through only what [close] itself raised, or
    what is no [Exception]. *)
Theorem worker_closes_once (self : NetworkServer) (address : string)
    (script : list exchange) (close_fails : option exn) (ev : list event)
    (r : outcome unit) :
  handle_client_connection self address script close_fails = (ev, Some r) ->
  (exists before,
     ev = before ++ Close
          :: match close_fails with
             | None => [Printed ("Connection with " +:+ address +:+ " closed")]
             | Some _ => []
             end
     /\ ~ In Close before)
  /\ (forall e, r = Raise e -> close_fails = Some e \/ catches Exception e = false).
Proof.
  unfold handle_client_connection.
  pose proof (serve_no_close (client_handler self) address script) as Hn.
  destruct (serve (client_handler self) address script) as [sev e]. cbn [fst] in Hn.
  assert (Hstart : forall extra,
             ~ In Close (Printed ("Connection established with " +:+ address)
                         :: sev ++ map Printed extra)).
  { intros extra [H | H]; [discriminate |]. apply in_app_iff in H as [H | H]; [tauto |].
    apply in_map_iff in H as (l & H & _). discriminate. }
  assert (Hstart0 : ~ In Close (Printed ("Connection established with " +:+ address) :: sev)).
  { specialize (Hstart []). cbn [map] in Hstart. now rewrite app_nil_r in Hstart. }
  destruct e as [| e |]; [| | discriminate].
  - destruct close_fails as [c |]; intros [= <- <-].
    + split; [| intros e [= <-]; now left].
      exists (Printed ("Connection established with " +:+ address) :: sev).
      split; [reflexivity | exact Hstart0].
    + split; [| discriminate].
      exists (Printed ("Connection established with " +:+ address) :: sev).
      split; [reflexivity | exact Hstart0].
  - destruct (catches ConnectionResetError e) eqn:E1;
      [| destruct (catches Exception e) eqn:E2];
      (destruct close_fails as [c |]; intros [= <- <-];
       (split; [| first [discriminate | intros e' [= <-]; auto]])).
    1-4: eexists (Printed _ :: sev ++ map Printed [_]); split; [| apply Hstart];
      cbn [map app]; rewrite <- ?app_assoc; reflexivity.
    all: eexists (Printed _ :: sev); split; [reflexivity | exact Hstart0].
Qed.

Lemma worker_closes_once_witness :
  (exists before,
     fst (handle_client_connection (NetworkServer_init "localhost" 8080) "C1"
            [mk_exchange true (Return "hello") None;
             mk_exchange true (Raise (mk_exn ConnectionResetError "reset")) None]
            None)
     = before ++ [Close; Printed ("Connection with " +:+ "C1" +:+ " closed")]
     /\ ~ In Close before)
  /\ (forall e, Return tt = Raise e -> None = Some e \/ catches Exception e = false).
Proof.
  apply (worker_closes_once (NetworkServer_init "localhost" 8080) "C1"
           [mk_exchange true (Return "hello") None;
            mk_exchange true (Raise (mk_exn ConnectionResetError "reset")) None]
           None).
  reflexivity.
Defined.

(** X18.  The sorting server answers every request it hands to its
    handler, once and in order: the texts that the worker gives to [send]
    are the handler's responses to those requests, each followed by a
    newline. *)
Theorem worker_answers_in_order (port : Z) (address : string)
    (script : list exchange) (close_fails : option exn) :
  Forall2 (fun request text =>
             exists out response,
               main.sorting_handler request = (out, Return response)
               /\ text = response +:+ nl)
          (handled (fst (handle_client_connection (main.sorting_server port) address
                           script close_fails)))
          (sent (fst (handle_client_connection (main.sorting_server port) address
                        script close_fails))).
Proof.
  rewrite handle_client_connection_handled, handle_client_connection_sent.
  apply serve_answers, sorting_handler_returns.
Qed.

(** X19.  The handler that [create_sorting_handler] builds keeps every
    [Exception] of its two functions inside: what it lets through is no
    [Exception]. *)
Theorem handler_contains_exceptions
    (sort_function : list Value -> stdout * outcome (list Value))
    (parse_function : string -> stdout * outcome (list Value))
    (input_data : string) (e : exn) :
  snd (create_sorting_handler sort_function parse_function input_data) = Raise e ->
  catches Exception e = false.
Proof.
  unfold create_sorting_handler.
  destruct (parse_function input_data) as [out [[| v data] | e']].
  - discriminate.
  - destruct (sort_function (v :: data)) as [out' [r | e']]; [discriminate |].
    destruct (catches Exception e') eqn:E; [discriminate |]. now intros [= <-].
  - destruct (catches Exception e') eqn:E; [discriminate |]. now intros [= <-].
Qed.

Lemma handler_contains_exceptions_witness :
  catches Exception (mk_exn KeyboardInterrupt "") = false.
Proof.
  apply (handler_contains_exceptions
           (fun _ => ([], Raise (mk_exn KeyboardInterrupt "")))
           (fun _ => ([], Return [VInt 1])) "1").
  reflexivity.
Defined.

(** X20.  A request of text next to numbers is answered with its items as
    they came, one blank between them, which parse again to the same
    list; the warning is printed on the server and is not part of the
    answer. *)
Theorem sorting_handler_mixed_request (s : string) (data : list Value) :
  parse_input s = Return data -> mixed data = true ->
  exists warning,
    main.sorting_handler s = ([warning], Return (join " " (map str data)))
    /\ is_prefix "Warning: Unable to sort mixed incompatible types: " warning = true
    /\ parse_input (join " " (map str data)) = Return data.
Proof.
  intros Hp Hm. destruct (py_sorted_raises data false Hm) as (e & He & Hc).
  exists ("Warning: Unable to sort mixed incompatible types: " +:+ message e).
  split; [| split; [apply is_prefix_app |]].
  - unfold main.sorting_handler, create_sorting_handler, main.parse_function. rewrite Hp.
    destruct data as [| v data]; [discriminate |].
    unfold sort_data. rewrite He. unfold catches. rewrite Hc. reflexivity.
  - rewrite parse_input_values in Hp. injection Hp as <-.
    apply parse_input_join, parsed_reparse.
Qed.

Lemma sorting_handler_mixed_request_witness :
  exists warning,
    main.sorting_handler "3  apple 1"
    = ([warning], Return (join " " (map str [VInt 3; VStr "apple"; VInt 1])))
    /\ is_prefix "Warning: Unable to sort mixed incompatible types: " warning = true
    /\ parse_input (join " " (map str [VInt 3; VStr "apple"; VInt 1]))
       = Return [VInt 3; VStr "apple"; VInt 1].
Proof. apply sorting_handler_mixed_request; reflexivity. Defined.

(** X21.  From the client to the sorting server and back: for a request
    with an item in it, the worker that receives it sends the handler's
    response and a newline, and the client that receives that text
    returns the response itself, having closed its socket. *)
Theorem reply_reaches_client (port : Z) (address request : string)
    (client : NetworkClient) (timeout : Z) :
  all_space request = false -> 0 <= timeout ->
  exists out response,
    main.sorting_handler (strip request) = (out, Return response)
    /\ sent (fst (handle_client_connection (main.sorting_server port) address
                    [mk_exchange true (Return request) None] None))
       = [response +:+ nl]
    /\ send_data client request timeout
         (mk_network None None (Return 0) None (Return (response +:+ nl)) None)
       = ([SocketOpen; SetTimeout timeout;
           Connect (client_host client) (client_port client);
           Send request; Recv 1024; Close],
          Return response).
Proof.
  intros Hb Ht.
  destruct (sorting_handler_returns (strip request)) as (out & response & Hh).
  exists out, response. split; [exact Hh |]. split.
  - rewrite handle_client_connection_sent. cbn [main.sorting_server client_handler
      set_client_handler NetworkServer_init].
    rewrite (serve_step _ address (mk_exchange true (Return request) None) [] request
               eq_refl eq_refl)
      by (rewrite strip_blank; exact Hb).
    cbv zeta. cbn [respond]. rewrite Hh. cbn [send_fails serve fst].
    rewrite !sent_app. cbn [sent app]. rewrite sent_prints. reflexivity.
  - unfold send_data, settimeout, call, io_bind. cbn [socket_fails connect_fails
      client_send_fails client_received close_fails].
    destruct (Z.ltb_spec timeout 0); [lia |]. cbn [app].
    now rewrite (sorting_handler_trimmed _ _ _ Hh).
Qed.

Lemma reply_reaches_client_witness :
  exists out response,
    main.sorting_handler (strip "3 1 2") = (out, Return response)
    /\ sent (fst (handle_client_connection (main.sorting_server 8080) "C1"
                    [mk_exchange true (Return "3 1 2") None] None))
       = [response +:+ nl]
    /\ send_data (mk_client "localhost" 8080) "3 1 2" 5
         (mk_network None None (Return 0) None (Return (response +:+ nl)) None)
       = ([SocketOpen; SetTimeout 5;
           Connect (client_host (mk_client "localhost" 8080))
                   (client_port (mk_client "localhost" 8080));
           Send "3 1 2"; Recv 1024; Close],
          Return response).
Proof. apply reply_reaches_client; [reflexivity | lia]. Defined.

(** X22.  [send_data] reports, it does not raise: it returns the trimmed
    reply, having closed the socket, or a text that starts with
    ["Error: "]; what it lets through is no [Exception]. *)
Theorem send_data_reports (self : NetworkClient) (data : string) (timeout : Z)
    (net : network) :
  match snd (send_data self data timeout net) with
  | Return text =>
      (exists raw, client_received net = Return raw /\ text = strip raw
                   /\ close_fails net = None)
      \/ is_prefix "Error: " text = true
  | Raise e => catches Exception e = false
  end.
Proof. apply send_data_result. Qed.

(** X23.  The client mode sends the data only to a server that its probe
    has found, and it keeps every [Exception] inside. *)
Theorem client_mode_probes_first (data host : string) (port : Z)
    (probe reply : network) :
  (In (Send data) (fst (main.handle_client_mode data host port probe reply)) ->
   snd (test_connection (mk_client host port) probe) = Return true)
  /\ (forall e, snd (main.handle_client_mode data host port probe reply) = Raise e ->
                catches Exception e = false).
Proof.
  unfold main.handle_client_mode.
  pose proof (test_connection_no_send (mk_client host port) probe data) as Hn.
  pose proof (test_connection_raise (mk_client host port) probe) as Hr.
  pose proof (send_data_result (mk_client host port) data 5 reply) as Hs.
  destruct (test_connection (mk_client host port) probe) as [pev [[|] | e]];
    cbn [fst snd] in *.
  - split; [reflexivity |]. unfold io_bind at 1 2. cbn [negb].
    unfold io_bind at 1.
    destruct (send_data (mk_client host port) data 5 reply) as [sev [response | e]];
      cbn [snd] in *; unfold io_bind; cbn [snd]; [discriminate |].
    now intros e' [= <-].
  - unfold io_bind. cbn [negb fst snd app]. split; [| discriminate].
    intros [H | H]; [discriminate |]. rewrite !in_app_iff in H. cbn [In] in H.
    intuition discriminate.
  - unfold io_bind. cbn [fst snd app]. split.
    + intros [H | H]; [discriminate | tauto].
    + intros e' [= <-]. now apply Hr.
Qed.

(** X24.  When [start_server] returns, the server is stopped: the flag is
    down, and the listening socket, if there is one, has been closed,
    once and after everything else, also when [bind] or [listen] failed.
    It lets through only what [close] raised, or what is neither an
    [Exception] nor a [KeyboardInterrupt]. *)
Theorem start_server_stops (self : server_state) (env : listening)
    (ev : list server_event) (r : outcome unit) (st : server_state) :
  start_server self env = (ev, Some r, st) ->
  is_running (server st) = false
  /\ has_socket st = has_socket self || bool_decide (listen_socket_fails env = None)
  /\ (if has_socket st
      then exists before,
             ev = before ++ Did Close
                  :: match listen_close_fails env with
                     | None => [Did (Printed "Server stopped")]
                     | Some _ => []
                     end
             /\ ~ In (Did Close) before
      else ~ In (Did Close) ev)
  /\ (forall e, r = Raise e ->
        listen_close_fails env = Some e
        \/ (catches Exception e = false /\ catches KeyboardInterrupt e = false)).
Proof.
  unfold start_server.
  set (body := match listen_socket_fails env with Some e => _ | None => _ end).
  assert (Hbody : ~ In (Did Close) (fst (fst body))
                   /\ has_socket (snd body)
                      = has_socket self || bool_decide (listen_socket_fails env = None)).
  { unfold body. destruct (listen_socket_fails env) as [e |].
    { cbn. rewrite orb_false_r. intuition discriminate. }
    rewrite bool_decide_eq_true_2 by reflexivity. rewrite orb_true_r.
    destruct (setsockopt_fails env) as [e |]; [cbn; intuition discriminate |].
    destruct (bind_fails env) as [e |]; [cbn; intuition discriminate |].
    destruct (listen_fails env) as [e |]; [cbn; intuition discriminate |].
    pose proof (accept_loop_no_close (accepts env)) as Hn.
    destruct (accept_loop (accepts env)) as [aev ar]. cbn [fst snd has_socket] in *.
    split; [| reflexivity]. rewrite in_app_iff. cbn [In]. intuition discriminate. }
  destruct body as [[bev [br |]] bst]; [| discriminate]. cbn [fst snd] in Hbody.
  destruct Hbody as [Hn Hsock].
  set (said := match br with Return _ => _ | Raise e => _ end).
  assert (Hsaid : ~ In (Did Close) (fst said)
                  /\ forall e, snd said = Some e ->
                       br = Raise e /\ catches Exception e = false
                       /\ catches KeyboardInterrupt e = false).
  { unfold said. destruct br as [u | e]; [cbn; split; [tauto | discriminate] |].
    destruct (catches KeyboardInterrupt e) eqn:E1;
      [cbn; split; [intuition discriminate | discriminate] |].
    destruct (catches Exception e) eqn:E2;
      [cbn; split; [intuition discriminate | discriminate] |].
    cbn. split; [tauto |]. now intros e' [= <-]. }
  destruct said as [sev uncaught]. cbn [fst snd] in Hsaid. destruct Hsaid as [Hs Hu].
  unfold stop_server. rewrite <- Hsock.
  destruct (has_socket bst) eqn:Hh.
  - destruct (listen_close_fails env) as [c |]; intros [= <- <- <-];
      cbn [server has_socket set_running is_running];
      (split; [reflexivity |]); (split; [reflexivity |]).
    + split.
      * exists (bev ++ sev). split; [now rewrite <- app_assoc |].
        rewrite in_app_iff. tauto.
      * intros e [= <-]. now left.
    + split.
      * exists (bev ++ sev). split; [now rewrite <- app_assoc |].
        rewrite in_app_iff. tauto.
      * destruct uncaught as [e |]; [| discriminate].
        intros e' [= <-]. right. now apply Hu.
  - intros [= <- <- <-]. cbn [server has_socket set_running is_running].
    split; [reflexivity |]. split; [reflexivity |]. split.
    + rewrite app_nil_r, in_app_iff. tauto.
    + destruct uncaught as [e |]; [| discriminate].
      intros e' [= <-]. right. now apply Hu.
Qed.

Lemma start_server_stops_witness :
  is_running (server (mk_server_state (mk_server "localhost" 8080 false None) true)) = false
  /\ has_socket (mk_server_state (mk_server "localhost" 8080 false None) true)
     = has_socket (mk_server_state (NetworkServer_init "localhost" 8080) false)
       || bool_decide (listen_socket_fails
                         (mk_listening None None
                            (Some (mk_exn OSError "[Errno 98] Address already in use"))
                            None [] None) = None)
  /\ (if has_socket (mk_server_state (mk_server "localhost" 8080 false None) true)
      then exists before,
             [Did SocketOpen; SetSockOpt; Bind "localhost" 8080;
              Did (Printed "Server error: [Errno 98] Address already in use");
              Did Close; Did (Printed "Server stopped")]
             = before ++ Did Close
               :: match listen_close_fails
                          (mk_listening None None
                             (Some (mk_exn OSError "[Errno 98] Address already in use"))
                             None [] None) with
                  | None => [Did (Printed "Server stopped")]
                  | Some _ => []
                  end
             /\ ~ In (Did Close) before
      else ~ In (Did Close)
             [Did SocketOpen; SetSockOpt; Bind "localhost" 8080;
              Did (Printed "Server error: [Errno 98] Address already in use");
              Did Close; Did (Printed "Server stopped")])
  /\ (forall e, Return tt = Raise e ->
        listen_close_fails
          (mk_listening None None
             (Some (mk_exn OSError "[Errno 98] Address already in use")) None [] None)
        = Some e
        \/ (catches Exception e = false /\ catches KeyboardInterrupt e = false)).
Proof.
  apply (start_server_stops (mk_server_state (NetworkServer_init "localhost" 8080) false)).
  reflexivity.
Defined.

(** X25.  The mode is read without regard to case: the program does with
    a mode what it does with the mode in small letters. *)
Theorem main_mode_case (program mode : string) (args : list string) (w : main.world) :
  main.main (program :: mode :: args) w
  = main.main (program :: str_lower mode :: args) w.
Proof. unfold main.main. now rewrite str_lower_idempotent. Qed.

(** X26.  A port that is no integer numeral stops the server mode and the
    client mode before any socket is made: the program prints the error
    of [int] and the traceback, and ends. *)
Theorem main_bad_port (program mode text : string) (before rest : list string)
    (w : main.world) (e : exn) :
  (str_lower mode = "server" /\ before = []
   \/ str_lower mode = "client" /\ length before = 2%nat) ->
  py_int text = Raise e ->
  main.main (program :: mode :: before ++ text :: rest) w
  = ([main.say ("Error: " +:+ message e); main.Traceback], Some (Return tt), main.disk w).
Proof.
  intros Hm Hp. pose proof (py_int_raises _ _ Hp) as Hv.
  assert (Hc : catches KeyboardInterrupt e = false /\ catches Exception e = true).
  { unfold catches, issubclass in *. destruct (class_of e); try discriminate; split; reflexivity. }
  destruct Hc as [Hk Hx].
  unfold main.main. destruct Hm as [[-> ->] | [-> Hb]].
  - cbn [String.eqb Ascii.eqb Bool.eqb app]. rewrite Hp, Hk, Hx. reflexivity.
  - destruct before as [| data [| host [| ? ?]]]; try discriminate.
    cbn [String.eqb Ascii.eqb Bool.eqb app]. rewrite Hp, Hk, Hx. reflexivity.
Qed.

Lemma main_bad_port_witness :
  main.main ("main.py" :: "Client" :: ["3 1 2"; "localhost"] ++ "80x" :: [])
    (main.mk_world [] (mk_filesystem ∅ (fun _ => None) (fun _ => None))
       (mk_network None None (Return 0) None (Return "") None)
       (mk_network None None (Return 0) None (Return "") None)
       (mk_listening None None None None [] None)
       ([], Return tt))
  = ([main.say ("Error: "
                +:+ message (mk_exn ValueError
                               "invalid literal for int() with base 10: '80x'"));
      main.Traceback],
     Some (Return tt),
     main.disk
       (main.mk_world [] (mk_filesystem ∅ (fun _ => None) (fun _ => None))
          (mk_network None None (Return 0) None (Return "") None)
          (mk_network None None (Return 0) None (Return "") None)
          (mk_listening None None None None [] None)
          ([], Return tt))).
Proof. apply main_bad_port; [right; split; reflexivity | reflexivity]. Defined.

End Further.

(* ===================================================================== *)
(** * The runs of the modules' own tests and of the specification         *)
(* ===================================================================== *)

Section Runs.
Import sorting io_handler network_handler.

(** [test_io_module]: the items of a mixed line, each with its type. *)
Example parse_input_test_line :
  parse_input "42 3.14 apple 99 zebra"
  = Return [VInt 42; VFloat (S754_finite false 7070651414971679 (-51));
            VStr "apple"; VInt 99; VStr "zebra"]
  /\ parse_input EmptyString = Return [].
Proof. split; reflexivity. Qed.

(** [test_sorting_module]: numbers and words. *)
Example sort_data_test_numbers :
  sort_data [VInt 64; VInt 34; VInt 25; VInt 12; VInt 22; VInt 11; VInt 90] false
  = ([], Return [VInt 11; VInt 12; VInt 22; VInt 25; VInt 34; VInt 64; VInt 90])
  /\ is_sorted [VInt 11; VInt 12; VInt 22; VInt 25; VInt 34; VInt 64; VInt 90] false
     = Return true.
Proof. split; reflexivity. Qed.

Example sort_data_test_words :
  sort_data [VStr "zebra"; VStr "apple"; VStr "banana"; VStr "cherry"] false
  = ([], Return [VStr "apple"; VStr "banana"; VStr "cherry"; VStr "zebra"]).
Proof. reflexivity. Qed.

(** Integers and floats compare by value, whatever their tag. *)
Example sort_data_numbers_of_both_tags :
  main.sorting_handler "3 2.5 1e1 -4" = ([], Return "-4 2.5 3 10.0").
Proof. vm_compute. reflexivity. Qed.

(** The two clients of the specification, each served the sorted form of
    its own request. *)
Example two_clients :
  handle_client_connection (main.sorting_server 8080) "C1"
    [mk_exchange true (Return "3 1 2") None] None
  = ([Printed "Connection established with C1"; Recv 1024;
      Printed "Received from C1: 3 1 2"; Handle "3 1 2"; Send ("1 2 3" +:+ nl)], None)
  /\ handle_client_connection (main.sorting_server 8080) "C2"
       [mk_exchange true (Return "zebra apple") None] None
     = ([Printed "Connection established with C2"; Recv 1024;
         Printed "Received from C2: zebra apple"; Handle "zebra apple";
         Send ("apple zebra" +:+ nl)], None).
Proof. split; vm_compute; reflexivity. Qed.

(** A client that gets its answer closes its socket. *)
Example send_data_served :
  send_data (mk_client "localhost" 8080) "3 1 2" 5
    (mk_network None None (Return 0) None (Return ("1 2 3" +:+ nl)) None)
  = ([SocketOpen; SetTimeout 5; Connect "localhost" 8080; Send "3 1 2"; Recv 1024; Close],
     Return "1 2 3").
Proof. reflexivity. Qed.

(** What [float] reads and [str] writes. *)
Example float_texts :
  map (fun s => match py_float s with Return x => str_of_float x | Raise _ => "ValueError" end)
      ["0.1"; "1e22"; "1e16"; "1e15"; "5e-324"; "1e400"; "0.00001"; "1_0";
       "-inf"; "NaN"; "."; "1e"; "0x10"]
  = ["0.1"; "1e+22"; "1e+16"; "1000000000000000.0"; "5e-324"; "inf"; "1e-05"; "10.0";
     "-inf"; "nan"; "ValueError"; "ValueError"; "ValueError"].
Proof. vm_compute. reflexivity. Qed.

(** The largest float, and a tie between two floats, which goes to the one
    with the even mantissa. *)
Example float_roundings :
  py_float "1.7976931348623157e308" = Return (S754_finite false 9007199254740991 971)
  /\ py_float "9007199254740993" = Return (S754_finite false 4503599627370496 1)
  /\ py_float "9007199254740995" = Return (S754_finite false 4503599627370498 1).
Proof. vm_compute. repeat split. Qed.

(** [decimal_to_float] and the IEEE 754 operations of the Standard Library
    agree: at halfway cases, at the smallest and the largest floats, at the
    border of the subnormal floats and beyond the format. *)
Example decimal_to_float_ieee :
  forallb (fun p => float_same (decimal_to_float false (fst p) (snd p))
                               (ieee_decimal_to_float false (fst p) (snd p)))
    [(1, 0); (15, -1); (1, -1); (1, 22); (1, 23); (5, -324);
     (24703282292062327, -340); (24703282292062328, -340);
     (17976931348623158, 292); (17976931348623159, 292); (1, -400);
     (9007199254740993, 0); (9007199254740995, 0);
     (22250738585072014, -324); (22250738585072011, -324);
     (2675, -3); (4450147717014403, -323); (18014398509481986, 0)]
  = true.
Proof. vm_compute. reflexivity. Qed.

(** The keyboard mode on two lines and the letter q. *)
Example keyboard_session :
  main.handle_keyboard_mode [Line "3 1 2"; Line "pear  apple"; Line "q"]
  = ([Say "=== Keyboard Input Mode ===";
      Say "Enter items separated by spaces (or 'q' to quit):"; Ask ">>> ";
      Say "Original: 3 1 2"; Say "Sorted: 1 2 3"; Say "------------------------------";
      Say "Enter items separated by spaces (or 'q' to quit):"; Ask ">>> ";
      Say "Original: pear apple"; Say "Sorted: apple pear";
      Say "------------------------------";
      Say "Enter items separated by spaces (or 'q' to quit):"; Ask ">>> "],
     Some (Return tt)).
Proof. reflexivity. Qed.

(** The file mode on a file that is not there. *)
Example file_mode_missing :
  main.handle_file_mode (mk_filesystem ∅ (fun _ => None) (fun _ => None)) "numbers.txt" None
  = (["=== File Mode: numbers.txt ===";
      "Error: File 'numbers.txt' not found.";
      "No data to sort."],
     Return tt,
     mk_filesystem ∅ (fun _ => None) (fun _ => None)).
Proof. reflexivity. Qed.

(** The program without a mode, and with one it does not know. *)
Example main_usage :
  let w := main.mk_world [] (mk_filesystem ∅ (fun _ => None) (fun _ => None))
             (mk_network None None (Return 0) None (Return "") None)
             (mk_network None None (Return 0) None (Return "") None)
             (mk_listening None None None None [] None)
             ([], Return tt) in
  main.main ["main.py"] w = (map main.say main.show_usage, Some (Return tt), main.disk w)
  /\ main.main ["main.py"; "Sort"] w
     = (main.say "Error: Unknown mode 'sort'" :: map main.say main.show_usage,
        Some (Return tt), main.disk w).
Proof. split; reflexivity. Qed.

(** The server mode on a port that is taken. *)
Example server_mode_port_taken :
  fst (fst (main.handle_server_mode 8080
              (mk_listening None None
                 (Some (mk_exn OSError "[Errno 98] Address already in use"))
                 None [] None)))
  = [Did (Printed "=== Network Server Mode (Port 8080) ===");
     Did (Printed "Starting sorting server...");
     Did (Printed "Server will sort any data sent to it and return results");
     Did SocketOpen; SetSockOpt; Bind "localhost" 8080;
     Did (Printed "Server error: [Errno 98] Address already in use");
     Did Close; Did (Printed "Server stopped")].
Proof. reflexivity. Qed.

End Runs.
